(** * Hybrid retrieval of job postings (src/api/main.py)

    A shallow embedding of the retrieval endpoint of the HH RAG API:
    - the text utilities [normalize_ws], [extract_tech_terms], [highlight]
      and the evidence formatting done by [search];
    - the two SQL statements [SQL_V2_WITH_TRGM] / [SQL_V2_NO_TRGM], with
      the window functions, [select distinct], [order by] and [limit]
      written out as list operations;
    - the Python post-processing of [retrieve_vacancies] and [search].

    Text is modelled as [string], the UTF-8 bytes of Python's [str].
    [normalize_ws], [str.lower] and the token pattern of the keyword
    extraction work on the decoded code points with Python 3.11's Unicode
    tables (Unicode 14.0); [str.lower] leaves out the one context-dependent
    rule, the final form of capital sigma. The patterns of [highlight] and
    [extract_tech_terms] match bytes, with [\b] and case folding on ASCII
    letters, and the cut of [format_evidence] counts bytes. *)

From Stdlib Require Import Bool ZArith QArith List String Ascii.
From Stdlib Require Import Sorted Permutation Lia Wf_nat.
Import ListNotations.

(* ================================================================== *)
(** ** UTF-8 and code points *)

(** Python's [str] is a sequence of code points; the embedding keeps text
    as [string] (bytes) and reads it as UTF-8 where the source works on
    characters: [utf8_decode] turns the bytes into code points, replacing
    every ill-formed sequence by U+FFFD, and [utf8_encode] writes them
    back. *)
Module Utf8.

Local Open Scope string_scope.
Local Open Scope list_scope.

Definition byte_of (c : ascii) : Z := Z.of_nat (nat_of_ascii c).
Definition ascii_of_Z (b : Z) : ascii := ascii_of_nat (Z.to_nat b).

Definition REPLACEMENT_CHAR : Z := 65533.

Definition is_cont (b : Z) : bool := (128 <=? b)%Z && (b <=? 191)%Z.

Definition second_ok (b1 b2 : Z) : bool :=
  if (b1 =? 224)%Z then (160 <=? b2)%Z && (b2 <=? 191)%Z
  else if (b1 =? 237)%Z then (128 <=? b2)%Z && (b2 <=? 159)%Z
  else if (b1 =? 240)%Z then (144 <=? b2)%Z && (b2 <=? 191)%Z
  else if (b1 =? 244)%Z then (128 <=? b2)%Z && (b2 <=? 143)%Z
  else is_cont b2.

Fixpoint utf8_decode (s : string) : list Z :=
  match s with
  | EmptyString => []
  | String a s1 =>
      if (byte_of a <? 128)%Z then byte_of a :: utf8_decode s1 else
      match s1 with
      | EmptyString => REPLACEMENT_CHAR :: utf8_decode s1
      | String a2 s2 =>
          if (194 <=? byte_of a)%Z && (byte_of a <=? 223)%Z then
            if is_cont (byte_of a2)
            then ((byte_of a - 192) * 64 + (byte_of a2 - 128))%Z :: utf8_decode s2
            else REPLACEMENT_CHAR :: utf8_decode s1
          else if (224 <=? byte_of a)%Z && (byte_of a <=? 239)%Z
                  && second_ok (byte_of a) (byte_of a2) then
            match s2 with
            | String a3 s3 =>
                if is_cont (byte_of a3)
                then (((byte_of a - 224) * 64 + (byte_of a2 - 128)) * 64
                      + (byte_of a3 - 128))%Z :: utf8_decode s3
                else REPLACEMENT_CHAR :: utf8_decode s1
            | EmptyString => REPLACEMENT_CHAR :: utf8_decode s1
            end
          else if (240 <=? byte_of a)%Z && (byte_of a <=? 244)%Z
                  && second_ok (byte_of a) (byte_of a2) then
            match s2 with
            | String a3 s3 =>
                if is_cont (byte_of a3) then
                  match s3 with
                  | String a4 s4 =>
                      if is_cont (byte_of a4)
                      then ((((byte_of a - 240) * 64 + (byte_of a2 - 128)) * 64
                             + (byte_of a3 - 128)) * 64 + (byte_of a4 - 128))%Z
                           :: utf8_decode s4
                      else REPLACEMENT_CHAR :: utf8_decode s1
                  | EmptyString => REPLACEMENT_CHAR :: utf8_decode s1
                  end
                else REPLACEMENT_CHAR :: utf8_decode s1
            | EmptyString => REPLACEMENT_CHAR :: utf8_decode s1
            end
          else REPLACEMENT_CHAR :: utf8_decode s1
      end
  end.

Definition utf8_encode_cp (c : Z) : list Z :=
  if (c <? 128)%Z then [c]
  else if (c <? 2048)%Z then [192 + c / 64; 128 + c mod 64]%Z
  else if (c <? 65536)%Z then [224 + c / 4096; 128 + (c / 64) mod 64; 128 + c mod 64]%Z
  else [240 + c / 262144; 128 + (c / 4096) mod 64; 128 + (c / 64) mod 64;
        128 + c mod 64]%Z.

Fixpoint string_of_bytes (l : list Z) : string :=
  match l with
  | [] => EmptyString
  | b :: l' => String (ascii_of_Z b) (string_of_bytes l')
  end.

Fixpoint utf8_encode (l : list Z) : string :=
  match l with
  | [] => EmptyString
  | c :: l' => string_of_bytes (utf8_encode_cp c) ++ utf8_encode l'
  end.

Definition valid_cp (c : Z) : bool :=
  (0 <=? c)%Z && (c <? 55296)%Z || (57344 <=? c)%Z && (c <=? 1114111)%Z.

Lemma byte_of_bound c : (0 <= byte_of c < 256)%Z.
Proof. unfold byte_of. pose proof (nat_ascii_bounded c). lia. Qed.

Lemma byte_of_ascii_of_Z b : (0 <= b < 256)%Z -> byte_of (ascii_of_Z b) = b.
Proof.
  intros Hb. unfold byte_of, ascii_of_Z. rewrite nat_ascii_embedding by lia. lia.
Qed.


Lemma string_len_ind (P : string -> Prop) :
  (forall s, (forall s', (String.length s' < String.length s)%nat -> P s') -> P s) ->
  forall s, P s.
Proof.
  intros H s. remember (String.length s) as n eqn:En. revert s En.
  induction n as [n IH] using lt_wf_ind. intros s ->. apply H.
  intros s' Hs'. exact (IH _ Hs' s' eq_refl).
Qed.

Lemma valid_cp_spec c :
  valid_cp c = true <-> (0 <= c < 55296 \/ 57344 <= c <= 1114111)%Z.
Proof.
  unfold valid_cp. rewrite orb_true_iff, !andb_true_iff, !Z.leb_le, !Z.ltb_lt.
  reflexivity.
Qed.

Lemma decode_step a s1 :
  utf8_decode (String a s1) =
  if (byte_of a <? 128)%Z then byte_of a :: utf8_decode s1 else
  match s1 with
  | EmptyString => REPLACEMENT_CHAR :: utf8_decode s1
  | String a2 s2 =>
      if (194 <=? byte_of a)%Z && (byte_of a <=? 223)%Z then
        if is_cont (byte_of a2)
        then ((byte_of a - 192) * 64 + (byte_of a2 - 128))%Z :: utf8_decode s2
        else REPLACEMENT_CHAR :: utf8_decode s1
      else if (224 <=? byte_of a)%Z && (byte_of a <=? 239)%Z
              && second_ok (byte_of a) (byte_of a2) then
        match s2 with
        | String a3 s3 =>
            if is_cont (byte_of a3)
            then (((byte_of a - 224) * 64 + (byte_of a2 - 128)) * 64
                  + (byte_of a3 - 128))%Z :: utf8_decode s3
            else REPLACEMENT_CHAR :: utf8_decode s1
        | EmptyString => REPLACEMENT_CHAR :: utf8_decode s1
        end
      else if (240 <=? byte_of a)%Z && (byte_of a <=? 244)%Z
              && second_ok (byte_of a) (byte_of a2) then
        match s2 with
        | String a3 s3 =>
            if is_cont (byte_of a3) then
              match s3 with
              | String a4 s4 =>
                  if is_cont (byte_of a4)
                  then ((((byte_of a - 240) * 64 + (byte_of a2 - 128)) * 64
                         + (byte_of a3 - 128)) * 64 + (byte_of a4 - 128))%Z
                       :: utf8_decode s4
                  else REPLACEMENT_CHAR :: utf8_decode s1
              | EmptyString => REPLACEMENT_CHAR :: utf8_decode s1
              end
            else REPLACEMENT_CHAR :: utf8_decode s1
        | EmptyString => REPLACEMENT_CHAR :: utf8_decode s1
        end
      else REPLACEMENT_CHAR :: utf8_decode s1
  end.
Proof. reflexivity. Qed.

Ltac zlia := Z.div_mod_to_equations; lia.

(** Evaluates the comparisons of a goal one by one, outermost first,
    dropping the branches the context rules out. *)
Ltac zcase :=
  repeat (cbn [andb orb negb];
    match goal with
    | |- context [if ?c then _ else _] =>
        match c with
        | context [(?x <? ?y)%Z] => destruct (Z.ltb_spec x y)
        | context [(?x <=? ?y)%Z] => destruct (Z.leb_spec x y)
        | context [(?x =? ?y)%Z] => destruct (Z.eqb_spec x y)
        end
    end; try (exfalso; lia)); cbn [andb orb negb].

Ltac byte_bounds :=
  repeat match goal with b : ascii |- _ =>
    match goal with
    | _ : (0 <= byte_of b < 256)%Z |- _ => fail 1
    | _ => pose proof (byte_of_bound b)
    end
  end.

Lemma decode_valid s : Forall (fun c => valid_cp c = true) (utf8_decode s).
Proof.
  induction s as [s IH] using string_len_ind.
  destruct s as [|a s1]; [constructor|].
  assert (IH1 : forall s', (String.length s' <= String.length s1)%nat ->
            Forall (fun c => valid_cp c = true) (utf8_decode s'))
    by (intros s' Hs; apply IH; simpl; lia).
  assert (Hr : valid_cp REPLACEMENT_CHAR = true) by reflexivity.
  rewrite decode_step. unfold second_ok, is_cont.
  destruct s1 as [|a2 [|a3 [|a4 s4]]]; byte_bounds;
    zcase; constructor; try exact Hr; try (apply valid_cp_spec; lia);
    apply IH1; simpl; lia.
Qed.

Lemma digits2 c : (0 <= c)%Z ->
  c = (64 * (c / 64) + c mod 64)%Z /\ (0 <= c mod 64 < 64)%Z.
Proof. intros. zlia. Qed.

Lemma digits3 c : (0 <= c)%Z ->
  c = (4096 * (c / 4096) + 64 * ((c / 64) mod 64) + c mod 64)%Z
  /\ (0 <= (c / 64) mod 64 < 64)%Z /\ (0 <= c mod 64 < 64)%Z.
Proof. intros. zlia. Qed.

Lemma digits4 c : (0 <= c)%Z ->
  c = (262144 * (c / 262144) + 4096 * ((c / 4096) mod 64)
       + 64 * ((c / 64) mod 64) + c mod 64)%Z
  /\ (0 <= (c / 4096) mod 64 < 64)%Z /\ (0 <= (c / 64) mod 64 < 64)%Z
  /\ (0 <= c mod 64 < 64)%Z.
Proof. intros. zlia. Qed.

Lemma decode_encode_cp c r : valid_cp c = true ->
  utf8_decode (string_of_bytes (utf8_encode_cp c) ++ r) = c :: utf8_decode r.
Proof.
  intros Hc. apply valid_cp_spec in Hc. unfold utf8_encode_cp.
  destruct (Z.ltb_spec c 128);
    [|destruct (Z.ltb_spec c 2048); [|destruct (Z.ltb_spec c 65536)]].
  - cbn [string_of_bytes append utf8_decode].
    rewrite byte_of_ascii_of_Z by lia. zcase. reflexivity.
  - destruct (digits2 c) as [E B]; [lia|].
    remember (c / 64)%Z as d0. remember (c mod 64)%Z as d1.
    cbn [string_of_bytes append]. rewrite decode_step.
    rewrite !byte_of_ascii_of_Z by lia. unfold second_ok, is_cont.
    zcase; f_equal; lia.
  - destruct (digits3 c) as (E & B1 & B2); [lia|].
    remember (c / 4096)%Z as d0. remember ((c / 64) mod 64)%Z as d1.
    remember (c mod 64)%Z as d2.
    cbn [string_of_bytes append]. rewrite decode_step.
    rewrite !byte_of_ascii_of_Z by lia. unfold second_ok, is_cont.
    zcase; f_equal; lia.
  - destruct (digits4 c) as (E & B1 & B2 & B3); [lia|].
    remember (c / 262144)%Z as d0. remember ((c / 4096) mod 64)%Z as d1.
    remember ((c / 64) mod 64)%Z as d2. remember (c mod 64)%Z as d3.
    cbn [string_of_bytes append]. rewrite decode_step.
    rewrite !byte_of_ascii_of_Z by lia. unfold second_ok, is_cont.
    zcase; f_equal; lia.
Qed.

Lemma string_of_bytes_app a b :
  string_of_bytes (a ++ b) = (string_of_bytes a ++ string_of_bytes b)%string.
Proof. induction a as [|x a IH]; simpl; [reflexivity|]. rewrite IH. reflexivity. Qed.

Lemma append_assoc_str (a b c : string) : ((a ++ b) ++ c = a ++ (b ++ c))%string.
Proof. induction a as [|x a IH]; simpl; [reflexivity|]. rewrite IH. reflexivity. Qed.

Lemma decode_encode l :
  Forall (fun c => valid_cp c = true) l -> utf8_decode (utf8_encode l) = l.
Proof.
  induction 1 as [|c l Hc Hl IH]; [reflexivity|].
  cbn [utf8_encode]. rewrite decode_encode_cp by exact Hc. rewrite IH. reflexivity.
Qed.

Lemma utf8_encode_app a b :
  utf8_encode (a ++ b) = (utf8_encode a ++ utf8_encode b)%string.
Proof.
  induction a as [|x a IH]; simpl; [reflexivity|]. rewrite IH, append_assoc_str.
  reflexivity.
Qed.

Fixpoint str_bytes (s : string) : list Z :=
  match s with
  | EmptyString => []
  | String a s' => byte_of a :: str_bytes s'
  end.


Lemma decode_app_ascii a c b : (byte_of c < 128)%Z ->
  utf8_decode (a ++ String c b) = utf8_decode a ++ byte_of c :: utf8_decode b.
Proof.
  intros Hc. induction a as [a IH] using string_len_ind.
  destruct a as [|x a1].
  - cbn [append app]. rewrite decode_step. zcase. reflexivity.
  - change ((String x a1 ++ String c b)%string) with (String x (a1 ++ String c b)).
    rewrite (decode_step x (a1 ++ String c b)), (decode_step x a1).
    unfold second_ok, is_cont.
    destruct a1 as [|x2 [|x3 [|x4 a4]]]; cbn [append]; byte_bounds; zcase;
      cbn [app]; f_equal;
      match goal with |- _ = utf8_decode ?s' ++ _ =>
        rewrite <- (IH s') by (simpl; lia); reflexivity end.
Qed.

Lemma str_bytes_app a b : str_bytes (a ++ b) = str_bytes a ++ str_bytes b.
Proof. induction a as [|x a IH]; simpl; [reflexivity|]. rewrite IH. reflexivity. Qed.

Lemma encode_cp_bytes c : valid_cp c = true ->
  str_bytes (string_of_bytes (utf8_encode_cp c))
  = utf8_encode_cp c
  /\ ((c < 128)%Z -> utf8_encode_cp c = [c])
  /\ ((128 <= c)%Z -> Forall (fun b => 128 <= b)%Z (utf8_encode_cp c)).
Proof.
  intros Hc. apply valid_cp_spec in Hc. unfold utf8_encode_cp.
  destruct (Z.ltb_spec c 128);
    [|destruct (Z.ltb_spec c 2048); [|destruct (Z.ltb_spec c 65536)]];
    cbn [string_of_bytes str_bytes].
  - rewrite byte_of_ascii_of_Z by lia. split; [reflexivity|split; [auto|lia]].
  - destruct (digits2 c) as [E B]; [lia|].
    remember (c / 64)%Z as d0. remember (c mod 64)%Z as d1.
    rewrite !byte_of_ascii_of_Z by lia.
    split; [reflexivity|split; [lia|repeat constructor; lia]].
  - destruct (digits3 c) as (E & B1 & B2); [lia|].
    remember (c / 4096)%Z as d0. remember ((c / 64) mod 64)%Z as d1.
    remember (c mod 64)%Z as d2.
    rewrite !byte_of_ascii_of_Z by lia.
    split; [reflexivity|split; [lia|repeat constructor; lia]].
  - destruct (digits4 c) as (E & B1 & B2 & B3); [lia|].
    remember (c / 262144)%Z as d0. remember ((c / 4096) mod 64)%Z as d1.
    remember ((c / 64) mod 64)%Z as d2. remember (c mod 64)%Z as d3.
    rewrite !byte_of_ascii_of_Z by lia.
    split; [reflexivity|split; [lia|repeat constructor; lia]].
Qed.

Lemma encode_ascii_src l x :
  Forall (fun c => valid_cp c = true) l ->
  In x (str_bytes (utf8_encode l)) -> (x < 128)%Z -> In x l.
Proof.
  induction 1 as [|c l Hc Hl IH]; [intros []|].
  cbn [utf8_encode]. rewrite str_bytes_app. intros Hx Hlt.
  destruct (encode_cp_bytes c Hc) as (E & H1 & H2). rewrite E in Hx.
  apply in_app_or in Hx as [Hx|Hx]; [|right; apply IH; assumption].
  destruct (Z.ltb_spec c 128) as [Hc'|Hc'].
  - rewrite H1 in Hx by exact Hc'. left. destruct Hx as [<-|[]]. reflexivity.
  - specialize (H2 Hc'). rewrite Forall_forall in H2. specialize (H2 x Hx). lia.
Qed.

(** *** Lower case: [str.lower] *)

(** The lower-case mapping of [str.lower] (Unicode 14.0, as in
    Python 3.11) as runs [(lo, hi, step, delta)]: every [c] with
    [lo <= c <= hi] and [step] dividing [c - lo] lowers to [c + delta].
    U+0130 (capital I with dot above) is the one code point that lowers
    to two, [i] and U+0307; every other code point is its own lower case. *)
Definition LOWER_RUNS : list (Z * Z * Z * Z) :=
  [ (65, 90, 1, 32); (192, 214, 1, 32); (216, 222, 1, 32); (256, 302, 2, 1);
    (306, 310, 2, 1); (313, 327, 2, 1); (330, 374, 2, 1);
    (376, 376, 1, -121); (377, 381, 2, 1); (385, 385, 1, 210);
    (386, 388, 2, 1); (390, 390, 1, 206); (391, 391, 1, 1);
    (393, 394, 1, 205); (395, 395, 1, 1); (398, 398, 1, 79);
    (399, 399, 1, 202); (400, 400, 1, 203); (401, 401, 1, 1);
    (403, 403, 1, 205); (404, 404, 1, 207); (406, 406, 1, 211);
    (407, 407, 1, 209); (408, 408, 1, 1); (412, 412, 1, 211);
    (413, 413, 1, 213); (415, 415, 1, 214); (416, 420, 2, 1);
    (422, 422, 1, 218); (423, 423, 1, 1); (425, 425, 1, 218);
    (428, 428, 1, 1); (430, 430, 1, 218); (431, 431, 1, 1);
    (433, 434, 1, 217); (435, 437, 2, 1); (439, 439, 1, 219);
    (440, 440, 1, 1); (444, 444, 1, 1); (452, 452, 1, 2); (453, 453, 1, 1);
    (455, 455, 1, 2); (456, 456, 1, 1); (458, 458, 1, 2); (459, 475, 2, 1);
    (478, 494, 2, 1); (497, 497, 1, 2); (498, 500, 2, 1); (502, 502, 1, -97);
    (503, 503, 1, -56); (504, 542, 2, 1); (544, 544, 1, -130);
    (546, 562, 2, 1); (570, 570, 1, 10795); (571, 571, 1, 1);
    (573, 573, 1, -163); (574, 574, 1, 10792); (577, 577, 1, 1);
    (579, 579, 1, -195); (580, 580, 1, 69); (581, 581, 1, 71);
    (582, 590, 2, 1); (880, 882, 2, 1); (886, 886, 1, 1); (895, 895, 1, 116);
    (902, 902, 1, 38); (904, 906, 1, 37); (908, 908, 1, 64);
    (910, 911, 1, 63); (913, 929, 1, 32); (931, 939, 1, 32);
    (975, 975, 1, 8); (984, 1006, 2, 1); (1012, 1012, 1, -60);
    (1015, 1015, 1, 1); (1017, 1017, 1, -7); (1018, 1018, 1, 1);
    (1021, 1023, 1, -130); (1024, 1039, 1, 80); (1040, 1071, 1, 32);
    (1120, 1152, 2, 1); (1162, 1214, 2, 1); (1216, 1216, 1, 15);
    (1217, 1229, 2, 1); (1232, 1326, 2, 1); (1329, 1366, 1, 48);
    (4256, 4293, 1, 7264); (4295, 4295, 1, 7264); (4301, 4301, 1, 7264);
    (5024, 5103, 1, 38864); (5104, 5109, 1, 8); (7312, 7354, 1, -3008);
    (7357, 7359, 1, -3008); (7680, 7828, 2, 1); (7838, 7838, 1, -7615);
    (7840, 7934, 2, 1); (7944, 7951, 1, -8); (7960, 7965, 1, -8);
    (7976, 7983, 1, -8); (7992, 7999, 1, -8); (8008, 8013, 1, -8);
    (8025, 8031, 2, -8); (8040, 8047, 1, -8); (8072, 8079, 1, -8);
    (8088, 8095, 1, -8); (8104, 8111, 1, -8); (8120, 8121, 1, -8);
    (8122, 8123, 1, -74); (8124, 8124, 1, -9); (8136, 8139, 1, -86);
    (8140, 8140, 1, -9); (8152, 8153, 1, -8); (8154, 8155, 1, -100);
    (8168, 8169, 1, -8); (8170, 8171, 1, -112); (8172, 8172, 1, -7);
    (8184, 8185, 1, -128); (8186, 8187, 1, -126); (8188, 8188, 1, -9);
    (8486, 8486, 1, -7517); (8490, 8490, 1, -8383); (8491, 8491, 1, -8262);
    (8498, 8498, 1, 28); (8544, 8559, 1, 16); (8579, 8579, 1, 1);
    (9398, 9423, 1, 26); (11264, 11311, 1, 48); (11360, 11360, 1, 1);
    (11362, 11362, 1, -10743); (11363, 11363, 1, -3814);
    (11364, 11364, 1, -10727); (11367, 11371, 2, 1);
    (11373, 11373, 1, -10780); (11374, 11374, 1, -10749);
    (11375, 11375, 1, -10783); (11376, 11376, 1, -10782);
    (11378, 11378, 1, 1); (11381, 11381, 1, 1); (11390, 11391, 1, -10815);
    (11392, 11490, 2, 1); (11499, 11501, 2, 1); (11506, 11506, 1, 1);
    (42560, 42604, 2, 1); (42624, 42650, 2, 1); (42786, 42798, 2, 1);
    (42802, 42862, 2, 1); (42873, 42875, 2, 1); (42877, 42877, 1, -35332);
    (42878, 42886, 2, 1); (42891, 42891, 1, 1); (42893, 42893, 1, -42280);
    (42896, 42898, 2, 1); (42902, 42920, 2, 1); (42922, 42922, 1, -42308);
    (42923, 42923, 1, -42319); (42924, 42924, 1, -42315);
    (42925, 42925, 1, -42305); (42926, 42926, 1, -42308);
    (42928, 42928, 1, -42258); (42929, 42929, 1, -42282);
    (42930, 42930, 1, -42261); (42931, 42931, 1, 928); (42932, 42946, 2, 1);
    (42948, 42948, 1, -48); (42949, 42949, 1, -42307);
    (42950, 42950, 1, -35384); (42951, 42953, 2, 1); (42960, 42960, 1, 1);
    (42966, 42968, 2, 1); (42997, 42997, 1, 1); (65313, 65338, 1, 32);
    (66560, 66599, 1, 40); (66736, 66771, 1, 40); (66928, 66938, 1, 39);
    (66940, 66954, 1, 39); (66956, 66962, 1, 39); (66964, 66965, 1, 39);
    (68736, 68786, 1, 64); (71840, 71871, 1, 32); (93760, 93791, 1, 32);
    (125184, 125217, 1, 34)]%Z.

Definition in_run (c : Z) (r : Z * Z * Z * Z) : bool :=
  let '(lo, hi, step, _) := r in
  (lo <=? c)%Z && (c <=? hi)%Z && ((c - lo) mod step =? 0)%Z.

Definition lower_cp (c : Z) : list Z :=
  if (c =? 304)%Z then [105; 775]%Z
  else match find (in_run c) LOWER_RUNS with
       | Some (_, _, _, delta) => [c + delta]%Z
       | None => [c]
       end.

Definition lower_cps (l : list Z) : list Z := flat_map lower_cp l.

Definition run_members (r : Z * Z * Z * Z) : list Z :=
  let '(lo, hi, step, _) := r in
  map (fun i => lo + step * Z.of_nat i)%Z (seq 0 (S (Z.to_nat ((hi - lo) / step)))).

(** The table, checked once: every step is positive, and the lower case
    of a code point is a valid code point that is its own lower case. *)
Definition lower_fixed (c : Z) : bool :=
  match lower_cp c with [d] => (d =? c)%Z | _ => false end.

Definition lower_table_ok : bool :=
  forallb (fun r =>
    let '(lo, hi, step, delta) := r in
    (0 <? step)%Z && (lo <=? hi)%Z
    && forallb (fun c => valid_cp (c + delta) && lower_fixed (c + delta))
         (run_members r)) LOWER_RUNS
  && lower_fixed 105 && lower_fixed 775.

Lemma lower_table_ok_true : lower_table_ok = true.
Proof. vm_compute. reflexivity. Qed.

Lemma lower_fixed_spec c : lower_fixed c = true -> lower_cp c = [c].
Proof.
  unfold lower_fixed. destruct (lower_cp c) as [|d [|e l]]; try discriminate.
  intros H. apply Z.eqb_eq in H. subst d. reflexivity.
Qed.

Lemma in_run_members c lo hi step delta : (0 < step)%Z ->
  in_run c (lo, hi, step, delta) = true -> In c (run_members (lo, hi, step, delta)).
Proof.
  intros Hs Hr. unfold in_run in Hr.
  apply andb_prop in Hr as [Hr Hm]. apply andb_prop in Hr as [Hlo Hhi].
  apply Z.leb_le in Hlo, Hhi. apply Z.eqb_eq in Hm.
  unfold run_members. apply in_map_iff.
  exists (Z.to_nat ((c - lo) / step)). split.
  - rewrite Z2Nat.id by (apply Z.div_pos; lia).
    pose proof (proj2 (Z.div_exact (c - lo) step ltac:(lia)) Hm). lia.
  - apply in_seq. split; [lia|].
    assert (((c - lo) / step <= (hi - lo) / step)%Z) by (apply Z.div_le_mono; lia).
    assert (0 <= (c - lo) / step)%Z by (apply Z.div_pos; lia).
    lia.
Qed.

Lemma lower_table_facts :
  (forall lo hi step delta, In (lo, hi, step, delta) LOWER_RUNS ->
     (0 < step)%Z /\ forall c, In c (run_members (lo, hi, step, delta)) ->
     valid_cp (c + delta) = true /\ lower_cp (c + delta) = [c + delta]%Z)
  /\ lower_cp 105 = [105]%Z /\ lower_cp 775 = [775]%Z.
Proof.
  pose proof lower_table_ok_true as Ht. unfold lower_table_ok in Ht.
  apply andb_prop in Ht as [Ht H775]. apply andb_prop in Ht as [Ht H105].
  split; [|split; apply lower_fixed_spec; assumption].
  intros lo hi step delta Hin. rewrite forallb_forall in Ht.
  specialize (Ht _ Hin). cbv beta iota zeta in Ht.
  apply andb_prop in Ht as [Ht Hall]. apply andb_prop in Ht as [Hs _].
  apply Z.ltb_lt in Hs. split; [exact Hs|].
  intros c Hc. rewrite forallb_forall in Hall. specialize (Hall c Hc).
  apply andb_prop in Hall as [Hv Hf]. split; [exact Hv|apply lower_fixed_spec, Hf].
Qed.

Lemma lower_cp_cases c :
  (c = 304%Z /\ lower_cp c = [105; 775]%Z)
  \/ (exists lo hi step delta, In (lo, hi, step, delta) LOWER_RUNS
      /\ in_run c (lo, hi, step, delta) = true /\ lower_cp c = [c + delta]%Z)
  \/ lower_cp c = [c].
Proof.
  unfold lower_cp. destruct (Z.eqb_spec c 304) as [->|Hc]; [left; auto|right].
  destruct (find (in_run c) LOWER_RUNS) as [[[[lo hi] step] delta]|] eqn:E.
  - left. apply find_some in E as [Hin Hr]. exists lo, hi, step, delta. auto.
  - right. reflexivity.
Qed.

(** [str.lower] is idempotent on every code point it produces. *)
Lemma lower_cp_idem c x : In x (lower_cp c) -> lower_cp x = [x].
Proof.
  destruct lower_table_facts as (Hruns & H105 & H775).
  destruct (lower_cp_cases c) as [[_ ->]|[(lo & hi & step & delta & Hin & Hr & ->)|E]].
  - intros [<-|[<-|[]]]; assumption.
  - intros [<-|[]]. destruct (Hruns _ _ _ _ Hin) as [Hs Hm].
    apply (Hm c). apply in_run_members; assumption.
  - rewrite E. intros [<-|[]]. exact E.
Qed.

Lemma lower_cp_valid c x :
  valid_cp c = true -> In x (lower_cp c) -> valid_cp x = true.
Proof.
  destruct lower_table_facts as (Hruns & _ & _).
  destruct (lower_cp_cases c) as [[_ ->]|[(lo & hi & step & delta & Hin & Hr & ->)| ->]].
  - intros _ [<-|[<-|[]]]; reflexivity.
  - intros _ [<-|[]]. destruct (Hruns _ _ _ _ Hin) as [Hs Hm].
    apply (Hm c). apply in_run_members; assumption.
  - intros Hc [<-|[]]. exact Hc.
Qed.

Lemma lower_cps_app a b : lower_cps (a ++ b) = lower_cps a ++ lower_cps b.
Proof. unfold lower_cps. apply flat_map_app. Qed.

Lemma lower_cps_valid l :
  Forall (fun c => valid_cp c = true) l ->
  Forall (fun c => valid_cp c = true) (lower_cps l).
Proof.
  rewrite !Forall_forall. intros H x Hx. unfold lower_cps in Hx.
  apply in_flat_map in Hx as [c [Hc Hx]]. exact (lower_cp_valid c x (H c Hc) Hx).
Qed.

Lemma lower_cps_fixed l : (forall x, In x l -> lower_cp x = [x]) -> lower_cps l = l.
Proof.
  induction l as [|c l IH]; intros H; [reflexivity|].
  change (lower_cps (c :: l)) with (lower_cp c ++ lower_cps l).
  rewrite H by (left; reflexivity). rewrite IH by (intros x Hx; apply H; right; exact Hx).
  reflexivity.
Qed.



End Utf8.

(* ================================================================== *)
(** ** Text utilities *)

Module Text.
Import Utf8.

Local Open Scope string_scope.
Local Open Scope list_scope.

Definition in_range (lo hi : nat) (c : ascii) : bool :=
  (lo <=? nat_of_ascii c)%nat && (nat_of_ascii c <=? hi)%nat.

(** Case folding of the byte patterns of [highlight] and
    [extract_tech_terms] ([re.IGNORECASE]), on ASCII letters. *)
Definition ascii_lower (c : ascii) : ascii :=
  if in_range 65 90 c then ascii_of_nat (nat_of_ascii c + 32) else c.

(** [str.lower]: code point by code point, with [lower_cp]. *)
Definition str_lower (s : string) : string :=
  utf8_encode (lower_cps (utf8_decode s)).

(** Regex word characters ([\w]) of the byte patterns: ASCII letters,
    digits and underscore. *)
Definition is_word (c : ascii) : bool :=
  in_range 48 57 c || in_range 65 90 c || in_range 97 122 c
  || Ascii.eqb c "_"%char.

(** [\s], [str.isspace] and what [str.strip()] removes (Python 3.11). *)
Definition is_space_cp (c : Z) : bool :=
  (9 <=? c)%Z && (c <=? 13)%Z || (28 <=? c)%Z && (c <=? 32)%Z
  || (c =? 133)%Z || (c =? 160)%Z || (c =? 5760)%Z
  || (8192 <=? c)%Z && (c <=? 8202)%Z || (c =? 8232)%Z || (c =? 8233)%Z
  || (c =? 8239)%Z || (c =? 8287)%Z || (c =? 12288)%Z.

(** *** normalize_ws: [re.sub(r"\s+", " ", s).strip()] *)

Fixpoint collapse_ws (in_ws : bool) (l : list Z) : list Z :=
  match l with
  | [] => []
  | c :: l' =>
      if is_space_cp c then
        if in_ws then collapse_ws true l' else 32%Z :: collapse_ws true l'
      else c :: collapse_ws false l'
  end.

Fixpoint lstrip (l : list Z) : list Z :=
  match l with
  | [] => []
  | c :: l' => if is_space_cp c then lstrip l' else l
  end.

Fixpoint rstrip (l : list Z) : list Z :=
  match l with
  | [] => []
  | c :: l' =>
      match rstrip l' with
      | [] => if is_space_cp c then [] else [c]
      | r => c :: r
      end
  end.

(** [re.sub(r"\s+", " ", s)] *)
Definition re_sub_ws (s : string) : string :=
  utf8_encode (collapse_ws false (utf8_decode s)).

(** [s.strip()] *)
Definition py_strip (s : string) : string :=
  utf8_encode (rstrip (lstrip (utf8_decode s))).

Definition normalize_ws (s : string) : string := py_strip (re_sub_ws s).

(** [str.replace(old, new)]: left-to-right, non-overlapping. [fuel] bounds
    the number of characters scanned; [S (length s)] is always enough. *)
Fixpoint replace_go (fuel : nat) (old new s : string) : string :=
  match fuel with
  | O => s
  | S fuel' =>
      if String.prefix old s then
        new ++ replace_go fuel' old new (substring (String.length old)
                                           (String.length s) s)
      else match s with
           | EmptyString => EmptyString
           | String c s' => String c (replace_go fuel' old new s')
           end
  end.

Definition py_replace (old new s : string) : string :=
  replace_go (S (String.length s)) old new s.

(** *** Regular expressions of the form [\b<literal>\b] *)

Inductive re_tok := ReWB | ReChar (c : ascii).

(** [\b] between the previous character (if any) and the next one. *)
Definition at_wb (prev : option ascii) (s : string) : bool :=
  let w1 := match prev with Some c => is_word c | None => false end in
  let w2 := match s with String c _ => is_word c | EmptyString => false end in
  xorb w1 w2.

(** Case-insensitive match of the token list at the start of [s];
    returns the matched text (with its original case) and the rest. *)
Fixpoint match_here (p : list re_tok) (prev : option ascii) (s : string)
  : option (string * string) :=
  match p with
  | [] => Some (EmptyString, s)
  | ReWB :: p' => if at_wb prev s then match_here p' prev s else None
  | ReChar c :: p' =>
      match s with
      | EmptyString => None
      | String d s' =>
          if Ascii.eqb (ascii_lower c) (ascii_lower d) then
            match match_here p' (Some d) s' with
            | Some (m, r) => Some (String d m, r)
            | None => None
            end
          else None
      end
  end.

(** [re.search]: a match at some position. *)
Fixpoint re_search (p : list re_tok) (prev : option ascii) (s : string) : bool :=
  match match_here p prev s with
  | Some _ => true
  | None =>
      match s with
      | EmptyString => false
      | String c s' => re_search p (Some c) s'
      end
  end.

(** Compiles the pattern sources of [TECH_PATTERNS]: [\b] is a word
    boundary, [\x] the literal [x], any other character itself. *)
Fixpoint compile_pattern (p : string) : list re_tok :=
  match p with
  | EmptyString => []
  | String c rest =>
      if Ascii.eqb c "\"%char then
        match rest with
        | String d rest' =>
            if Ascii.eqb d "b"%char then ReWB :: compile_pattern rest'
            else ReChar d :: compile_pattern rest'
        | EmptyString => []
        end
      else ReChar c :: compile_pattern rest
  end.

Fixpoint last_char (m : string) (prev : option ascii) : option ascii :=
  match m with
  | EmptyString => prev
  | String c m' => last_char m' (Some c)
  end.

(** [re.sub(pattern, r"[\1]", s)] where group 1 is the whole literal:
    each match [m] becomes ["[" ++ m ++ "]"]; an empty match inserts
    ["[]"] and the scan moves on by one character. *)
Fixpoint sub_go (fuel : nat) (p : list re_tok) (prev : option ascii) (s : string)
  : string :=
  match fuel with
  | O => s
  | S fuel' =>
      let copy_one :=
        match s with
        | EmptyString => EmptyString
        | String c s' => String c (sub_go fuel' p (Some c) s')
        end in
      match match_here p prev s with
      | Some (EmptyString, _) => "[]" ++ copy_one
      | Some (m, r) => "[" ++ m ++ "]" ++ sub_go fuel' p (last_char m prev) r
      | None => copy_one
      end
  end.

(** [rf"(?i)\b({re.escape(kw)})\b"] *)
Definition kw_pattern (kw : string) : list re_tok :=
  [ReWB] ++ map ReChar (list_ascii_of_string kw) ++ [ReWB].

Definition re_sub_bracket (kw s : string) : string :=
  sub_go (S (String.length s)) (kw_pattern kw) None s.

(** Order-preserving de-duplication ([dict.fromkeys]). *)
Fixpoint uniq_from (seen : list string) (l : list string) : list string :=
  match l with
  | [] => []
  | x :: xs =>
      if existsb (String.eqb x) seen then uniq_from seen xs
      else x :: uniq_from (x :: seen) xs
  end.

(** [sorted(..., key=len, reverse=True)]: stable, longest first. *)
Fixpoint insert_len_desc (x : string) (l : list string) : list string :=
  match l with
  | [] => [x]
  | y :: ys =>
      if (String.length y <=? String.length x)%nat then x :: y :: ys
      else y :: insert_len_desc x ys
  end.

Definition sort_len_desc (l : list string) : list string :=
  fold_right insert_len_desc [] l.

(** [highlight]. The iteration order of [set(keywords)] is CPython's hash
    order; it is modelled as first-occurrence order, which only matters
    among keywords of equal length. *)
Definition highlight (text : string) (keywords : list string) : string :=
  match keywords with
  | [] => text
  | _ => fold_left (fun out kw => re_sub_bracket kw out)
           (sort_len_desc (uniq_from [] keywords)) text
  end.

Definition TECH_PATTERNS : list string :=
  [ "\bjava\b"; "\bspring\b"; "\bspring boot\b"; "\bpython\b"; "\bgo\b";
    "\bjavascript\b"; "\btypescript\b";
    "\bsql\b"; "\bpostgres\b"; "\bpostgresql\b"; "\bclickhouse\b";
    "\bmysql\b"; "\bmongodb\b";
    "\bairflow\b"; "\bkafka\b"; "\bredis\b"; "\bkubernetes\b"; "\bdocker\b";
    "\bterraform\b";
    "\bhadoop\b"; "\bspark\b"; "\bflink\b"; "\bdatabricks\b";
    "\betl\b"; "\belt\b"; "\bdwh\b"; "\bmlops\b"; "\bci\/cd\b" ].

(** [p.replace(r"\b", "").replace("\\", "").strip()] *)
Definition pattern_term (p : string) : string :=
  py_strip (py_replace "\" "" (py_replace "\b" "" p)).

Definition extract_tech_terms (text : string) : list string :=
  let t := str_lower text in
  let found :=
    flat_map (fun p => if re_search (compile_pattern p) None t
                       then [pattern_term p] else []) TECH_PATTERNS in
  uniq_from [] found.

(** *** Evidence formatting in [search] *)

(** [s[:m]] *)
Definition py_slice_to (s : string) (m : Z) : string :=
  let n := Z.of_nat (String.length s) in
  let stop := if (m <? 0)%Z then Z.max 0 (n + m) else Z.min m n in
  substring 0 (Z.to_nat stop) s.

Definition format_evidence (text : string) (keywords : list string)
    (max_quote : Z) (do_highlight : bool) : string :=
  let txt := normalize_ws text in
  let txt := if do_highlight then highlight txt keywords else txt in
  if (Z.of_nat (String.length txt) >? max_quote)%Z
  then py_slice_to txt max_quote ++ "..."
  else txt.



(** *** Shape of the whitespace in a decoded string *)

Definition starts_space (l : list Z) : bool :=
  match l with
  | [] => false
  | c :: _ => is_space_cp c
  end.

Fixpoint ends_space (l : list Z) : bool :=
  match l with
  | [] => false
  | [c] => is_space_cp c
  | _ :: l' => ends_space l'
  end.

(** Every whitespace code point is a plain space followed by a
    non-whitespace one. *)
Fixpoint spaces_ok (l : list Z) : bool :=
  match l with
  | [] => true
  | c :: l' =>
      (negb (is_space_cp c) || (c =? 32)%Z && negb (starts_space l'))
      && spaces_ok l'
  end.

(** Words separated by single spaces, nothing around them. *)
Definition ws_normal (s : string) : bool :=
  let l := utf8_decode s in
  negb (starts_space l) && negb (ends_space l) && spaces_ok l.

Example tech_terms_sample :
  extract_tech_terms "Python, SQL and CI/CD" = ["python"; "sql"; "ci/cd"].
Proof. vm_compute. reflexivity. Qed.

Example highlight_sample :
  highlight "Spring Boot developer" ["spring"; "spring boot"]
  = "[[Spring] Boot] developer".
Proof. vm_compute. reflexivity. Qed.

Example normalize_ws_sample :
  normalize_ws "a b " = "a b"
  /\ normalize_ws " 　x   y	" = "x y".
Proof. vm_compute. split; reflexivity. Qed.

Example str_lower_sample :
  str_lower "Разработчик Python, ΣQL" = "разработчик python, σql".
Proof. vm_compute. reflexivity. Qed.

Example format_sample :
  format_evidence "  python   dev " ["python"] 800 true = "[python] dev".
Proof. vm_compute. reflexivity. Qed.

(** *** Markers inserted by [highlight] *)






(** *** What [normalize_ws] keeps *)

Lemma collapse_ws_in b l x : In x (collapse_ws b l) -> In x l \/ x = 32%Z.
Proof.
  revert b. induction l as [|c l IH]; simpl; intros b H; [contradiction|].
  destruct (is_space_cp c); [destruct b|].
  - destruct (IH _ H); auto.
  - destruct H as [<-|H]; [auto|]. destruct (IH _ H); auto.
  - destruct H as [<-|H]; [auto|]. destruct (IH _ H); auto.
Qed.

Lemma lstrip_in l x : In x (lstrip l) -> In x l.
Proof.
  induction l as [|c l IH]; simpl; [auto|].
  destruct (is_space_cp c); [auto|]. auto.
Qed.

Lemma rstrip_in l x : In x (rstrip l) -> In x l.
Proof.
  induction l as [|c l IH]; simpl; [auto|].
  destruct (rstrip l) as [|d r]; [destruct (is_space_cp c)|];
    simpl; intros H; try contradiction; destruct H as [<-|H]; auto.
Qed.

Lemma normalize_ws_in s x :
  In x (rstrip (lstrip (collapse_ws false (utf8_decode s)))) ->
  In x (utf8_decode s) \/ x = 32%Z.
Proof. intros H. apply rstrip_in, lstrip_in, collapse_ws_in in H. exact H. Qed.

Lemma normalize_ws_valid s :
  Forall (fun c => valid_cp c = true)
    (rstrip (lstrip (collapse_ws false (utf8_decode s)))).
Proof.
  apply Forall_forall. intros x Hx. apply normalize_ws_in in Hx as [Hx| ->];
    [|reflexivity].
  pose proof (decode_valid s) as Hv. rewrite Forall_forall in Hv. auto.
Qed.

Lemma collapse_ws_valid s :
  Forall (fun c => valid_cp c = true) (collapse_ws false (utf8_decode s)).
Proof.
  apply Forall_forall. intros x Hx. apply collapse_ws_in in Hx as [Hx| ->];
    [|reflexivity].
  pose proof (decode_valid s) as Hv. rewrite Forall_forall in Hv. auto.
Qed.

Lemma normalize_ws_cps s :
  normalize_ws s = utf8_encode (rstrip (lstrip (collapse_ws false (utf8_decode s)))).
Proof.
  unfold normalize_ws, py_strip, re_sub_ws.
  rewrite decode_encode by apply collapse_ws_valid. reflexivity.
Qed.







(** C7 (amended): on ["Spring Boot developer"] the extraction yields both
    ["spring"] and ["spring boot"], once each and in pattern order, since
    both patterns match and [dict.fromkeys] only merges equal terms; the
    highlighting wraps ["Spring Boot"] first (longest keyword first) and
    then wraps the inner ["Spring"] again. *)
Theorem spring_boot_terms :
  extract_tech_terms "Spring Boot developer" = ["spring"; "spring boot"]
  /\ highlight "Spring Boot developer" ["spring"; "spring boot"]
     = "[[Spring] Boot] developer"
  /\ highlight "Spring Boot developer" ["spring boot"; "spring"]
     = "[[Spring] Boot] developer".
Proof. vm_compute. repeat split; reflexivity. Qed.

(** C7 fails as stated: a separate ["spring"] hit is extracted, and the
    inner ["Spring"] is wrapped a second time. *)
Lemma spring_boot_terms_counterexample :
  In "spring" (extract_tech_terms "Spring Boot developer")
  /\ In "spring boot" (extract_tech_terms "Spring Boot developer")
  /\ highlight "Spring Boot developer" ["spring"; "spring boot"]
     <> "[Spring Boot] developer".
Proof.
  vm_compute. split; [left; reflexivity|split; [right; left; reflexivity|]].
  discriminate.
Qed.

(** *** Properties of [normalize_ws] and [extract_tech_terms] *)

Lemma collapse_ws_shape b l :
  spaces_ok (collapse_ws b l) = true
  /\ (b = true -> starts_space (collapse_ws b l) = false).
Proof.
  revert b. induction l as [|c l IH]; intros b; simpl; [auto|].
  destruct (is_space_cp c) eqn:Ec.
  - destruct b.
    + apply IH.
    + destruct (IH true) as [H1 H2]. simpl. rewrite H1, H2 by reflexivity.
      split; [reflexivity|discriminate].
  - destruct (IH false) as [H1 _]. simpl. rewrite Ec, H1. auto.
Qed.

Lemma spaces_ok_lstrip l : spaces_ok l = true ->
  spaces_ok (lstrip l) = true /\ starts_space (lstrip l) = false.
Proof.
  induction l as [|c l IH]; simpl; [auto|].
  intros H. apply andb_prop in H as [_ H].
  destruct (is_space_cp c) eqn:Ec; [auto|].
  simpl. rewrite Ec, H. auto.
Qed.

Lemma spaces_ok_rstrip l : spaces_ok l = true ->
  spaces_ok (rstrip l) = true /\ ends_space (rstrip l) = false
  /\ (starts_space l = false -> starts_space (rstrip l) = false).
Proof.
  induction l as [|c l IH]; [simpl; auto|].
  intros H. simpl in H. apply andb_prop in H as [Hc H].
  destruct (IH H) as (H1 & H2 & H3).
  change (rstrip (c :: l)) with
    (match rstrip l with
     | [] => if is_space_cp c then [] else [c]
     | r => c :: r end).
  destruct (rstrip l) as [|d r] eqn:Er.
  - destruct (is_space_cp c) eqn:Ec; simpl; [auto|].
    rewrite Ec. auto.
  - change (spaces_ok (c :: d :: r)) with
      ((negb (is_space_cp c) || (c =? 32)%Z
         && negb (starts_space (d :: r))) && spaces_ok (d :: r)).
    rewrite H1, andb_true_r. split; [|split].
    + destruct (is_space_cp c) eqn:Ec; simpl in *; [|reflexivity].
      apply andb_prop in Hc as [Hc Hs]. rewrite Hc, H3; [reflexivity|].
      apply negb_true_iff. exact Hs.
    + exact H2.
    + simpl. auto.
Qed.

Lemma collapse_ws_id b l : spaces_ok l = true ->
  (starts_space l = false \/ b = false) -> collapse_ws b l = l.
Proof.
  revert b. induction l as [|c l IH]; intros b; simpl; [auto|].
  intros H Hb. apply andb_prop in H as [Hc H].
  destruct (is_space_cp c) eqn:Ec; simpl in *.
  - destruct Hb as [Hb| ->]; [discriminate|].
    apply andb_prop in Hc as [Hc Hs]. apply Z.eqb_eq in Hc. subst c.
    rewrite IH; [reflexivity|exact H|left; apply negb_true_iff; exact Hs].
  - rewrite IH; auto.
Qed.

Lemma lstrip_id l : starts_space l = false -> lstrip l = l.
Proof. destruct l as [|c l]; simpl; [auto|]. intros ->. reflexivity. Qed.

Lemma rstrip_id l : ends_space l = false -> rstrip l = l.
Proof.
  induction l as [|c l IH]; simpl; [auto|].
  destruct l as [|d l].
  - simpl. intros ->. reflexivity.
  - intros H. rewrite (IH H). reflexivity.
Qed.

Lemma normalize_ws_shape s :
  let l := rstrip (lstrip (collapse_ws false (utf8_decode s))) in
  starts_space l = false /\ ends_space l = false /\ spaces_ok l = true.
Proof.
  cbv zeta.
  destruct (collapse_ws_shape false (utf8_decode s)) as [H _].
  destruct (spaces_ok_lstrip _ H) as [H1 H2].
  destruct (spaces_ok_rstrip _ H1) as (H3 & H4 & H5). auto.
Qed.

Lemma ws_normal_fixed l :
  Forall (fun c => valid_cp c = true) l ->
  starts_space l = false -> ends_space l = false -> spaces_ok l = true ->
  normalize_ws (utf8_encode l) = utf8_encode l.
Proof.
  intros Hv Hs He Hok. rewrite normalize_ws_cps, decode_encode by exact Hv.
  rewrite collapse_ws_id by auto. rewrite lstrip_id, rstrip_id by auto.
  reflexivity.
Qed.

(** [normalize_ws] returns words separated by single plain spaces, with no
    whitespace at either end. *)
Theorem normalize_ws_normal s : ws_normal (normalize_ws s) = true.
Proof.
  unfold ws_normal. rewrite normalize_ws_cps, decode_encode by apply normalize_ws_valid.
  destruct (normalize_ws_shape s) as (H1 & H2 & H3). rewrite H1, H2, H3. reflexivity.
Qed.

(** [normalize_ws] is idempotent. *)
Theorem normalize_ws_idempotent s : normalize_ws (normalize_ws s) = normalize_ws s.
Proof.
  rewrite (normalize_ws_cps s). destruct (normalize_ws_shape s) as (H1 & H2 & H3).
  apply ws_normal_fixed; [apply normalize_ws_valid|assumption..].
Qed.

(** *** [str.lower] *)

Lemma str_lower_cps s : utf8_decode (str_lower s) = lower_cps (utf8_decode s).
Proof. unfold str_lower. apply decode_encode, lower_cps_valid, decode_valid. Qed.

Lemma lower_cps_lower s x : In x (utf8_decode (str_lower s)) -> lower_cp x = [x].
Proof.
  rewrite str_lower_cps. unfold lower_cps. intros Hx.
  apply in_flat_map in Hx as [c [_ Hx]]. exact (lower_cp_idem c x Hx).
Qed.

(** A string made of lower-case code points is its own lower case. *)
Lemma str_lower_fixed l :
  Forall (fun c => valid_cp c = true) l -> (forall x, In x l -> lower_cp x = [x]) ->
  str_lower (utf8_encode l) = utf8_encode l.
Proof.
  intros Hv H. unfold str_lower. rewrite decode_encode by exact Hv.
  rewrite lower_cps_fixed by exact H. reflexivity.
Qed.

Lemma utf8_encode_space a b :
  utf8_encode (a ++ 32%Z :: b) = (utf8_encode a ++ String " " (utf8_encode b))%string.
Proof. rewrite utf8_encode_app. reflexivity. Qed.

Lemma str_lower_app_space a b :
  str_lower (a ++ String " " b) = (str_lower a ++ String " " (str_lower b))%string.
Proof.
  unfold str_lower. rewrite decode_app_ascii by (vm_compute; reflexivity).
  rewrite lower_cps_app. change (lower_cps (byte_of " " :: utf8_decode b))
    with (lower_cp 32 ++ lower_cps (utf8_decode b)).
  replace (lower_cp 32) with [32%Z] by (vm_compute; reflexivity).
  cbn [app]. rewrite utf8_encode_space. reflexivity.
Qed.

Lemma uniq_from_spec seen l :
  NoDup (uniq_from seen l)
  /\ forall x, In x (uniq_from seen l) -> In x l /\ ~ In x seen.
Proof.
  revert seen. induction l as [|y l IH]; intros seen; simpl.
  - split; [constructor|tauto].
  - destruct (existsb (String.eqb y) seen) eqn:E.
    + destruct (IH seen) as [H1 H2]. split; [exact H1|].
      intros x Hx. destruct (H2 x Hx). auto.
    + destruct (IH (y :: seen)) as [H1 H2]. split.
      * constructor; [|exact H1]. intros Hy. apply H2 in Hy as [_ Hy].
        apply Hy. left. reflexivity.
      * intros x [->|Hx].
        -- split; [left; reflexivity|]. intros Hin.
           assert (existsb (String.eqb x) seen = true) as E'
             by (apply existsb_exists; exists x; split;
                 [exact Hin|apply String.eqb_refl]).
           congruence.
        -- apply H2 in Hx as [Hx Hn]. split; [right; exact Hx|].
           intros Hin. apply Hn. right. exact Hin.
Qed.

Lemma tech_terms_props text :
  NoDup (extract_tech_terms text)
  /\ incl (extract_tech_terms text) (map pattern_term TECH_PATTERNS)
  /\ (List.length (extract_tech_terms text) <= 28)%nat.
Proof.
  unfold extract_tech_terms. cbv zeta.
  destruct (uniq_from_spec [] (flat_map (fun p => if re_search (compile_pattern p)
    None (str_lower text) then [pattern_term p] else []) TECH_PATTERNS)) as [Hn Hi].
  assert (Hinc : incl (uniq_from [] (flat_map (fun p => if re_search
    (compile_pattern p) None (str_lower text) then [pattern_term p] else [])
    TECH_PATTERNS)) (map pattern_term TECH_PATTERNS)).
  { intros x Hx. apply Hi in Hx as [Hx _]. apply in_flat_map in Hx as [p [Hp Hx]].
    destruct (re_search _ _ _); [|contradiction].
    destruct Hx as [<-|[]]. apply in_map. exact Hp. }
  split; [exact Hn|split; [exact Hinc|]].
  change 28%nat with (List.length (map pattern_term TECH_PATTERNS)).
  apply NoDup_incl_length; assumption.
Qed.

(** [extract_tech_terms] lists each term at most once, every term is one
    of the terms of [TECH_PATTERNS], so at most 28 terms are returned. *)
Theorem tech_terms_distinct_known text :
  NoDup (extract_tech_terms text)
  /\ incl (extract_tech_terms text) (map pattern_term TECH_PATTERNS)
  /\ (List.length (extract_tech_terms text) <= 28)%nat.
Proof. exact (tech_terms_props text). Qed.

End Text.

(* ================================================================== *)
(** ** SQL building blocks *)

Module Sql.

(** [select distinct] and [dict.fromkeys]: first occurrences, in order. *)
Fixpoint uniq_by {A} (eqb : A -> A -> bool) (seen : list A) (l : list A) : list A :=
  match l with
  | [] => []
  | x :: xs =>
      if existsb (eqb x) seen then uniq_by eqb seen xs
      else x :: uniq_by eqb (x :: seen) xs
  end.

(** The largest [bigint]. *)
Definition BIGINT_MAX : Z := (2 ^ 63 - 1)%Z.

(** [limit n]: the count is a [bigint]. PostgreSQL rejects a negative
    count ("LIMIT must not be negative"), and a Python [int] beyond
    [BIGINT_MAX], which psycopg sends as [numeric], fails its conversion
    to [bigint] ("bigint out of range"); both errors are [None]. *)
Definition sql_limit {A} (n : Z) (l : list A) : option (list A) :=
  if (n <? 0)%Z || (BIGINT_MAX <? n)%Z then None
  else Some (firstn (Z.to_nat n) l).

Lemma sql_limit_some {A} n (l l' : list A) :
  sql_limit n l = Some l' -> (0 <= n <= BIGINT_MAX)%Z /\ l' = firstn (Z.to_nat n) l.
Proof.
  unfold sql_limit. destruct (Z.ltb_spec n 0), (Z.ltb_spec BIGINT_MAX n);
    simpl; try discriminate. intros [= <-]. split; [lia|reflexivity].
Qed.

Lemma sql_limit_in_range {A} n (l : list A) :
  (0 <= n <= BIGINT_MAX)%Z -> sql_limit n l = Some (firstn (Z.to_nat n) l).
Proof.
  unfold sql_limit. intros Hn. destruct (Z.ltb_spec n 0), (Z.ltb_spec BIGINT_MAX n);
    simpl; [lia|lia|lia|reflexivity].
Qed.

Lemma sql_limit_none_iff {A} n (l : list A) :
  sql_limit n l = None <-> (n < 0 \/ BIGINT_MAX < n)%Z.
Proof.
  unfold sql_limit. destruct (Z.ltb_spec n 0), (Z.ltb_spec BIGINT_MAX n); simpl;
    split; intros Hx; try reflexivity; try discriminate; lia.
Qed.

(** Two sorting procedures that meet the contract of [order by]: a
    stable insertion sort and one that puts later rows first among ties. *)
Fixpoint ins {A} (le : A -> A -> bool) (x : A) (l : list A) : list A :=
  match l with
  | [] => [x]
  | y :: ys => if le x y then x :: y :: ys else y :: ins le x ys
  end.

Definition isort {A} (le : A -> A -> bool) (l : list A) : list A :=
  fold_right (ins le) [] l.

Fixpoint ins_rev {A} (le : A -> A -> bool) (x : A) (l : list A) : list A :=
  match l with
  | [] => [x]
  | y :: ys => if le y x then y :: ins_rev le x ys else x :: y :: ys
  end.

Definition isort_rev {A} (le : A -> A -> bool) (l : list A) : list A :=
  fold_right (ins_rev le) [] l.

Definition total {A} (le : A -> A -> bool) : Prop :=
  forall a b, le a b = true \/ le b a = true.

Lemma ins_perm {A} (le : A -> A -> bool) x l : Permutation (x :: l) (ins le x l).
Proof.
  induction l as [|y ys IH]; simpl; [constructor; constructor|].
  destruct (le x y); [reflexivity|].
  transitivity (y :: x :: ys); [constructor|constructor; exact IH].
Qed.

Lemma isort_perm {A} (le : A -> A -> bool) l : Permutation l (isort le l).
Proof.
  induction l as [|x xs IH]; simpl; [constructor|].
  rewrite <- ins_perm. constructor. exact IH.
Qed.

Lemma ins_sorted {A} (le : A -> A -> bool) (Ht : total le) x l :
  Sorted (fun a b => le a b = true) l ->
  Sorted (fun a b => le a b = true) (ins le x l).
Proof.
  induction 1 as [|y ys Hs IH Hh]; simpl; [repeat constructor|].
  destruct (le x y) eqn:Exy; [repeat constructor; auto|].
  constructor; [exact IH|].
  destruct ys as [|z zs]; simpl.
  - constructor. destruct (Ht x y); congruence.
  - inversion Hh; subst. destruct (le x z); constructor; auto.
    destruct (Ht x y); congruence.
Qed.

Lemma isort_sorted {A} (le : A -> A -> bool) (Ht : total le) l :
  Sorted (fun a b => le a b = true) (isort le l).
Proof.
  induction l; simpl; [constructor|]. apply ins_sorted; auto.
Qed.

Lemma ins_rev_perm {A} (le : A -> A -> bool) x l :
  Permutation (x :: l) (ins_rev le x l).
Proof.
  induction l as [|y ys IH]; simpl; [constructor; constructor|].
  destruct (le y x); [|reflexivity].
  transitivity (y :: x :: ys); [constructor|constructor; exact IH].
Qed.

Lemma isort_rev_perm {A} (le : A -> A -> bool) l : Permutation l (isort_rev le l).
Proof.
  induction l as [|x xs IH]; simpl; [constructor|].
  rewrite <- ins_rev_perm. constructor. exact IH.
Qed.

Lemma ins_rev_sorted {A} (le : A -> A -> bool) (Ht : total le) x l :
  Sorted (fun a b => le a b = true) l ->
  Sorted (fun a b => le a b = true) (ins_rev le x l).
Proof.
  induction 1 as [|y ys Hs IH Hh]; simpl; [repeat constructor|].
  destruct (le y x) eqn:Eyx.
  - constructor; [exact IH|].
    destruct ys as [|z zs]; simpl; [constructor; exact Eyx|].
    inversion Hh; subst. destruct (le z x); constructor; auto.
  - repeat constructor; auto. destruct (Ht x y); congruence.
Qed.

Lemma isort_rev_sorted {A} (le : A -> A -> bool) (Ht : total le) l :
  Sorted (fun a b => le a b = true) (isort_rev le l).
Proof.
  induction l; simpl; [constructor|]. apply ins_rev_sorted; auto.
Qed.

(** A list has no two elements that compare both ways. *)
Fixpoint no_ties {A} (le : A -> A -> bool) (l : list A) : bool :=
  match l with
  | [] => true
  | x :: xs => forallb (fun y => negb (le x y && le y x)) xs && no_ties le xs
  end.

Lemma in_uniq_by {A} (eqb : A -> A -> bool) seen l y :
  In y (uniq_by eqb seen l) -> In y l /\ existsb (eqb y) seen = false.
Proof.
  revert seen. induction l as [|x xs IH]; simpl; intros seen H; [contradiction|].
  destruct (existsb (eqb x) seen) eqn:E.
  - apply IH in H. tauto.
  - destruct H as [<-|H]; [auto|].
    apply IH in H as [H1 H2]. simpl in H2.
    apply orb_false_iff in H2 as [_ H2]. auto.
Qed.

Lemma uniq_by_NoDup {A} (eqb : A -> A -> bool) (Hr : forall x, eqb x x = true)
  seen l : NoDup (uniq_by eqb seen l).
Proof.
  revert seen. induction l as [|x xs IH]; simpl; intros seen; [constructor|].
  destruct (existsb (eqb x) seen); [apply IH|].
  constructor; [|apply IH].
  intros H. apply in_uniq_by in H as [_ H]. simpl in H.
  rewrite Hr in H. discriminate.
Qed.

Lemma uniq_by_StronglySorted {A} (R : A -> A -> Prop) eqb seen l :
  StronglySorted R l -> StronglySorted R (uniq_by eqb seen l).
Proof.
  revert seen. induction l as [|x xs IH]; simpl; intros seen Hs; [constructor|].
  apply StronglySorted_inv in Hs as [Hs Hf].
  destruct (existsb (eqb x) seen); [auto|].
  constructor; [auto|].
  apply Forall_forall. intros y Hy. apply in_uniq_by in Hy as [Hy _].
  rewrite Forall_forall in Hf. auto.
Qed.

Lemma existsb_Zeqb_false x l : existsb (Z.eqb x) l = false <-> ~ In x l.
Proof.
  induction l as [|y ys IH]; simpl; [tauto|].
  rewrite orb_false_iff, IH, Z.eqb_neq. intuition.
Qed.

Lemma uniq_by_Z_NoDup_id seen l :
  NoDup l -> (forall x, In x l -> ~ In x seen) -> uniq_by Z.eqb seen l = l.
Proof.
  revert seen. induction l as [|x xs IH]; simpl; intros seen Hn Hs; [reflexivity|].
  inversion Hn; subst.
  assert (existsb (Z.eqb x) seen = false) as E
    by (apply existsb_Zeqb_false; auto).
  rewrite E. f_equal. apply IH; auto.
  intros y Hy [<-|Hy']; [contradiction|]. apply (Hs y); auto.
Qed.

Lemma map_uniq_by_key {A} (key : A -> Z) seen l :
  map key (uniq_by (fun a b => Z.eqb (key a) (key b)) seen l)
  = uniq_by Z.eqb (map key seen) (map key l).
Proof.
  revert seen. induction l as [|x xs IH]; simpl; intros seen; [reflexivity|].
  assert (existsb (fun b => Z.eqb (key x) (key b)) seen
          = existsb (Z.eqb (key x)) (map key seen)) as E.
  { clear. induction seen; simpl; congruence. }
  rewrite E. destruct (existsb (Z.eqb (key x)) (map key seen)); simpl;
    rewrite IH; reflexivity.
Qed.

Lemma sorted_perm_unique {A} (le : A -> A -> bool)
  (Htr : forall a b c, le a b = true -> le b c = true -> le a c = true)
  l1 l2 :
  Sorted (fun a b => le a b = true) l1 -> Sorted (fun a b => le a b = true) l2 ->
  Permutation l1 l2 -> no_ties le l1 = true -> l1 = l2.
Proof.
  intros S1 S2. apply Sorted_StronglySorted in S1; [|exact Htr].
  apply Sorted_StronglySorted in S2; [|exact Htr].
  revert l2 S2. induction S1 as [|a l1 S1 IH F1]; intros l2 S2 P Hn.
  - symmetry. apply Permutation_nil. exact P.
  - destruct l2 as [|b l2]; [apply Permutation_sym, Permutation_nil in P; discriminate|].
    apply StronglySorted_inv in S2 as [S2 F2].
    simpl in Hn. apply andb_true_iff in Hn as [Hn1 Hn2].
    assert (a = b) as <-.
    { assert (Ha : In a (b :: l2)) by (apply (Permutation_in a P); left; auto).
      assert (Hb : In b (a :: l1))
        by (apply (Permutation_in b (Permutation_sym P)); left; auto).
      destruct Hb as [->|Hb]; [reflexivity|].
      destruct Ha as [->|Ha]; [reflexivity|].
      rewrite Forall_forall in F1, F2.
      rewrite forallb_forall in Hn1. specialize (Hn1 b Hb).
      rewrite (F1 b Hb), (F2 a Ha) in Hn1. discriminate. }
    f_equal. apply IH; auto. apply Permutation_cons_inv in P. exact P.
Qed.

End Sql.

(* ================================================================== *)
(** ** Query keywords: [extract_query_keywords] *)

Module Keywords.
Import Utf8 Text.
Local Open Scope string_scope.
Local Open Scope list_scope.

(** [[a-zа-я0-9\+\#\.]] under [re.IGNORECASE]: the letters that match
    case-insensitively include [İ ı ſ K] and the Cyrillic forms
    U+1C80..U+1C86. *)
Definition is_token_cp_i (c : Z) : bool :=
  (c =? 35)%Z || (c =? 43)%Z || (c =? 46)%Z || (48 <=? c)%Z && (c <=? 57)%Z
  || (65 <=? c)%Z && (c <=? 90)%Z || (97 <=? c)%Z && (c <=? 122)%Z
  || (304 <=? c)%Z && (c <=? 305)%Z || (c =? 383)%Z
  || (1040 <=? c)%Z && (c <=? 1103)%Z || (7296 <=? c)%Z && (c <=? 7302)%Z
  || (c =? 8490)%Z.

(** [[a-zа-я0-9\+\#\.]] without flags. *)
Definition is_token_cp (c : Z) : bool :=
  (c =? 35)%Z || (c =? 43)%Z || (c =? 46)%Z || (48 <=? c)%Z && (c <=? 57)%Z
  || (97 <=? c)%Z && (c <=? 122)%Z || (1072 <=? c)%Z && (c <=? 1103)%Z.

(** Leading run of code points satisfying [P], and the maximal runs after
    it. *)
Fixpoint split_runs (P : Z -> bool) (l : list Z) : list Z * list (list Z) :=
  match l with
  | [] => ([], [])
  | c :: l' =>
      let '(lead, rest) := split_runs P l' in
      if P c then (c :: lead, rest)
      else ([], match lead with [] => rest | _ => lead :: rest end)
  end.

(** [re.findall(r"[...]{3,}", q)]: the maximal runs of at least three
    code points of the class. *)
Definition find_tokens (P : Z -> bool) (l : list Z) : list (list Z) :=
  let '(lead, rest) := split_runs P l in
  filter (fun t => (3 <=? List.length t)%nat)
    (match lead with [] => rest | _ => lead :: rest end).

Definition RU_STOP : list string :=
  ["и"; "в"; "во"; "на"; "по"; "к"; "ко"; "из"; "у"; "за"; "для"; "про";
   "под"; "над"; "с"; "со"; "о"; "об"; "от"; "до"; "при"; "как"; "а"; "но";
   "или"; "что"; "это";
   "мы"; "вы"; "они"; "он"; "она"; "оно"; "я"; "ты"; "его"; "ее"; "их";
   "наш"; "ваш";
   "требуется"; "нужен"; "нужна"; "нужны"; "ищем"; "работа"; "вакансия";
   "стажировка"; "intern"; "internship"; "junior"; "middle"; "senior"].

Definition EN_STOP : list string :=
  ["and"; "or"; "the"; "a"; "an"; "to"; "for"; "of"; "in"; "on"; "with";
   "from"; "as"; "is"; "are"; "be"; "this"; "that";
   "job"; "vacancy"; "needed"; "looking"].

Definition count_of (l : list string) (w : string) : nat :=
  List.length (filter (String.eqb w) l).

(** Stable insertion by descending count. *)
Fixpoint insert_count_desc (cnt : string -> nat) (x : string) (l : list string)
  : list string :=
  match l with
  | [] => [x]
  | y :: ys =>
      if (cnt y <=? cnt x)%nat then x :: y :: ys
      else y :: insert_count_desc cnt x ys
  end.

(** [Counter(tokens).most_common(n)]: by count, ties in insertion order. *)
Definition most_common (tokens : list string) (n : nat) : list string :=
  firstn n (fold_right (insert_count_desc (count_of tokens)) []
              (uniq_from [] tokens)).

(** The tokens of a text: [re.findall] on its lower case, as strings. *)
Definition tokens_of (P : Z -> bool) (txt : string) : list string :=
  map utf8_encode (find_tokens P (utf8_decode (str_lower txt))).

Definition not_stop (t : string) : bool :=
  negb (existsb (String.eqb t) RU_STOP) && negb (existsb (String.eqb t) EN_STOP).

Definition extract_query_keywords (query : string) (max_words : nat)
  : list string :=
  let tokens := tokens_of is_token_cp_i query in
  let tokens := filter not_stop tokens in
  most_common tokens max_words.

Example keywords_sample :
  extract_query_keywords "Senior Python developer, python and SQL" 12
  = ["python"; "developer"; "sql"].
Proof. vm_compute. reflexivity. Qed.

Example keywords_cyrillic_sample :
  extract_query_keywords "Требуется Разработчик Python" 12
  = ["разработчик"; "python"].
Proof. vm_compute. reflexivity. Qed.

(** *** Properties of [Counter.most_common] and [extract_query_keywords] *)

Lemma insert_count_desc_perm cnt x l :
  Permutation (x :: l) (insert_count_desc cnt x l).
Proof.
  induction l as [|y l IH]; simpl; [auto|].
  destruct (cnt y <=? cnt x)%nat; [auto|].
  eapply perm_trans; [apply perm_swap|]. constructor. exact IH.
Qed.

Lemma insert_count_desc_sorted cnt x l :
  Sorted (fun a b => cnt b <= cnt a)%nat l ->
  Sorted (fun a b => cnt b <= cnt a)%nat (insert_count_desc cnt x l).
Proof.
  induction l as [|y l IH]; simpl; intros H; [auto|].
  destruct (Nat.leb_spec (cnt y) (cnt x)) as [E|E].
  - constructor; [exact H|constructor; exact E].
  - inversion H as [|? ? Hs Hh]; subst. constructor; [apply IH; exact Hs|].
    destruct l as [|z l]; simpl; [constructor; lia|].
    inversion Hh; subst.
    destruct (cnt z <=? cnt x)%nat; constructor; lia.
Qed.

Lemma StronglySorted_app_rel {A} (R : A -> A -> Prop) l1 l2 x y :
  StronglySorted R (l1 ++ l2) -> In x l1 -> In y l2 -> R x y.
Proof.
  induction l1 as [|a l1 IH]; simpl; [tauto|].
  intros H [<-|Hx] Hy; inversion H as [|? ? Hs Hf]; subst.
  - rewrite Forall_forall in Hf. apply Hf, in_or_app. right. exact Hy.
  - apply IH; assumption.
Qed.

Lemma uniq_from_cover seen l w :
  In w l -> In w seen \/ In w (uniq_from seen l).
Proof.
  revert seen. induction l as [|y l IH]; simpl; intros seen Hw; [contradiction|].
  destruct (existsb (String.eqb y) seen) eqn:E.
  - destruct Hw as [<-|Hw]; [|apply IH; exact Hw].
    left. apply existsb_exists in E as [z [Hz Ez]].
    apply String.eqb_eq in Ez. subst z. exact Hz.
  - destruct Hw as [<-|Hw]; [right; left; reflexivity|].
    destruct (IH (y :: seen) Hw) as [[<-|H]|H].
    + right. left. reflexivity.
    + left. exact H.
    + right. right. exact H.
Qed.

Lemma StronglySorted_app_l {A} (R : A -> A -> Prop) l1 l2 :
  StronglySorted R (l1 ++ l2) -> StronglySorted R l1.
Proof.
  induction l1 as [|a l1 IH]; simpl; intros H; [constructor|].
  inversion H as [|? ? Hs Hf]; subst. constructor; [apply IH; exact Hs|].
  rewrite Forall_forall in *. intros x Hx. apply Hf, in_or_app. left. exact Hx.
Qed.

(** The full ranking behind [most_common]. *)
Lemma most_common_spec tokens n :
  let full := fold_right (insert_count_desc (count_of tokens)) []
                (uniq_from [] tokens) in
  most_common tokens n = firstn n full
  /\ Permutation (uniq_from [] tokens) full
  /\ StronglySorted (fun a b => count_of tokens b <= count_of tokens a)%nat full.
Proof.
  cbv zeta. split; [reflexivity|split].
  - induction (uniq_from [] tokens) as [|x l IH]; simpl; [auto|].
    eapply perm_trans; [constructor; exact IH|apply insert_count_desc_perm].
  - apply Sorted_StronglySorted; [intros a b c; simpl; lia|].
    induction (uniq_from [] tokens) as [|x l IH]; simpl; [constructor|].
    apply insert_count_desc_sorted. exact IH.
Qed.

Lemma most_common_props tokens n :
  let top := most_common tokens n in
  NoDup top /\ incl top tokens
  /\ List.length top = Nat.min n (List.length (uniq_from [] tokens))
  /\ Sorted (fun a b => count_of tokens b <= count_of tokens a)%nat top
  /\ forall w r, In w tokens -> ~ In w top -> In r top ->
     (count_of tokens w <= count_of tokens r)%nat.
Proof.
  destruct (most_common_spec tokens n) as (E & Hp & Hs). cbv zeta in *.
  set (full := fold_right _ [] _) in *. rewrite E.
  destruct (uniq_from_spec [] tokens) as [Hn Hi].
  assert (Hnf : NoDup full) by (eapply Permutation_NoDup; eassumption).
  assert (Hsplit := firstn_skipn n full).
  split; [|split; [|split; [|split]]].
  - apply (NoDup_app_remove_r _ (skipn n full)). rewrite Hsplit. exact Hnf.
  - intros x Hx.
    assert (Hx' : In x full) by (rewrite <- Hsplit; apply in_or_app; left; exact Hx).
    apply (Permutation_in _ (Permutation_sym Hp)), Hi in Hx'. tauto.
  - rewrite length_firstn, (Permutation_length Hp). reflexivity.
  - apply StronglySorted_Sorted.
    rewrite <- Hsplit in Hs. apply StronglySorted_app_l in Hs. exact Hs.
  - intros w r Hw Hnw Hr.
    assert (Hwf : In w full).
    { apply (Permutation_in _ Hp). destruct (in_dec string_dec w
        (uniq_from [] tokens)) as [Hu|Hu]; [exact Hu|exfalso].
      destruct (uniq_from_cover [] tokens w Hw) as [[]|H]; contradiction. }
    rewrite <- Hsplit in Hwf. apply in_app_or in Hwf as [Hwf|Hwf]; [contradiction|].
    rewrite <- Hsplit in Hs.
    exact (StronglySorted_app_rel _ _ _ _ _ Hs Hr Hwf).
Qed.

(** [Counter.most_common(n)] lists distinct tokens of the input, the
    [min n (number of distinct tokens)] most frequent ones, by descending
    count; no token left out is more frequent than a listed one. *)
Theorem most_common_ranks tokens n :
  let top := most_common tokens n in
  NoDup top /\ incl top tokens
  /\ List.length top = Nat.min n (List.length (uniq_from [] tokens))
  /\ Sorted (fun a b => count_of tokens b <= count_of tokens a)%nat top
  /\ forall w r, In w tokens -> ~ In w top -> In r top ->
     (count_of tokens w <= count_of tokens r)%nat.
Proof. exact (most_common_props tokens n). Qed.

Lemma split_runs_sub P l :
  let '(lead, rest) := split_runs P l in
  (Forall (fun c => P c = true) lead /\ incl lead l)
  /\ Forall (fun t => Forall (fun c => P c = true) t /\ incl t l) rest.
Proof.
  induction l as [|c l IH]; simpl; [repeat split; auto; intros x []|].
  destruct (split_runs P l) as [lead rest]. destruct IH as [[H1 H2] H3].
  assert (H3' : Forall (fun t => Forall (fun c => P c = true) t /\ incl t (c :: l)) rest)
    by (eapply Forall_impl; [|exact H3]; intros t [Ht Hi]; split;
        [exact Ht|apply incl_tl, Hi]).
  destruct (P c) eqn:Ec.
  - split; [|exact H3']. split; [constructor; assumption|].
    apply incl_cons; [left; reflexivity|apply incl_tl, H2].
  - split; [split; [constructor|intros x []]|].
    destruct lead; [exact H3'|]. constructor; [|exact H3'].
    split; [exact H1|apply incl_tl, H2].
Qed.

Lemma find_tokens_sub P l t : In t (find_tokens P l) ->
  (3 <= List.length t)%nat /\ Forall (fun c => P c = true) t /\ incl t l.
Proof.
  unfold find_tokens. pose proof (split_runs_sub P l) as Hs.
  destruct (split_runs P l) as [lead rest]. destruct Hs as [H1 H2].
  intros Ht. apply filter_In in Ht as [Ht Hl]. apply Nat.leb_le in Hl.
  split; [exact Hl|].
  assert (Hall : Forall (fun t => Forall (fun c => P c = true) t /\ incl t l)
    (match lead with [] => rest | _ => lead :: rest end)) by (destruct lead; auto).
  rewrite Forall_forall in Hall. apply Hall, Ht.
Qed.

Lemma existsb_eqb_false w l : existsb (String.eqb w) l = false -> ~ In w l.
Proof.
  intros E Hin. assert (existsb (String.eqb w) l = true) as E'
    by (apply existsb_exists; exists w; split; [exact Hin|apply String.eqb_refl]).
  congruence.
Qed.

Lemma not_stop_spec t : not_stop t = true -> ~ In t RU_STOP /\ ~ In t EN_STOP.
Proof.
  unfold not_stop. intros H. apply andb_prop in H as [H1 H2].
  apply negb_true_iff in H1, H2. split; apply existsb_eqb_false; assumption.
Qed.

Lemma tokens_of_spec P txt w : In w (tokens_of P txt) ->
  exists t, w = utf8_encode t /\ utf8_decode w = t /\ (3 <= List.length t)%nat
  /\ Forall (fun c => P c = true) t /\ str_lower w = w.
Proof.
  unfold tokens_of. intros Hw. apply in_map_iff in Hw as [t [<- Ht]].
  apply find_tokens_sub in Ht as (H3 & HP & Hi).
  assert (Hv : Forall (fun c => valid_cp c = true) t).
  { pose proof (decode_valid (str_lower txt)) as Hd. rewrite Forall_forall in *.
    intros x Hx. apply Hd, Hi, Hx. }
  exists t. split; [reflexivity|]. split; [apply decode_encode, Hv|].
  split; [exact H3|split; [exact HP|]].
  apply str_lower_fixed; [exact Hv|]. intros x Hx.
  apply (lower_cps_lower txt), Hi, Hx.
Qed.

Lemma query_keywords_props query max_words :
  let kws := extract_query_keywords query max_words in
  (List.length kws <= max_words)%nat /\ NoDup kws
  /\ forall w, In w kws ->
     exists t, w = utf8_encode t /\ utf8_decode w = t /\ (3 <= List.length t)%nat
     /\ Forall (fun c => is_token_cp_i c = true) t
     /\ str_lower w = w /\ ~ In w RU_STOP /\ ~ In w EN_STOP.
Proof.
  cbv zeta. unfold extract_query_keywords. cbv zeta.
  set (toks := filter not_stop (tokens_of is_token_cp_i query)).
  destruct (most_common_props toks max_words) as (Hn & Hi & Hl & _).
  cbv zeta in *. split; [rewrite Hl; lia|split; [exact Hn|]].
  intros w Hw. apply Hi in Hw. unfold toks in Hw.
  apply filter_In in Hw as [Hw Hs]. apply not_stop_spec in Hs as [Hs1 Hs2].
  destruct (tokens_of_spec _ _ _ Hw) as (t & E1 & E2 & H3 & HP & Hlow).
  exists t. repeat split; assumption.
Qed.

(** [extract_query_keywords] returns at most [max_words] distinct keywords;
    each is the UTF-8 text of at least three code points of the token
    pattern [[a-zа-я0-9\+\#\.]] (under [re.IGNORECASE]), in lower case,
    and no stop word of [RU_STOP] or [EN_STOP]. *)
Theorem query_keywords_shape query max_words :
  let kws := extract_query_keywords query max_words in
  (List.length kws <= max_words)%nat /\ NoDup kws
  /\ forall w, In w kws ->
     exists t, w = utf8_encode t /\ utf8_decode w = t /\ (3 <= List.length t)%nat
     /\ Forall (fun c => is_token_cp_i c = true) t
     /\ str_lower w = w /\ ~ In w RU_STOP /\ ~ In w EN_STOP.
Proof. exact (query_keywords_props query max_words). Qed.

End Keywords.

(* ================================================================== *)
(** ** Retrieval: [SQL_V2_*], [retrieve_vacancies], [search] *)

Module Retrieval.
Import Sql.
Local Open Scope list_scope.

(** Columns of [vacancies] selected by the queries. *)
Record vac_meta := mk_meta {
  name : string; employer_name : string; area_name : string; url : string }.

Definition meta_eqb (a b : vac_meta) : bool :=
  String.eqb (name a) (name b) && String.eqb (employer_name a) (employer_name b)
  && String.eqb (area_name a) (area_name b) && String.eqb (url a) (url b).

(** A row of [vacancy_chunks]; [V] is the type of embedding vectors. *)
Record chunk (V : Type) := mk_chunk {
  c_vacancy_id : Z; c_chunk_no : Z; c_text : string; c_embedding : option V }.
Arguments mk_chunk {V}.
Arguments c_vacancy_id {V}. Arguments c_chunk_no {V}.
Arguments c_text {V}. Arguments c_embedding {V}.

(** The database: [vacancies] keyed by [vacancy_id] (the scripts upsert
    with [on conflict (vacancy_id)]), [vacancy_chunks], and whether the
    [pg_trgm] extension is installed ([has_pg_trgm]). *)
Record db (V : Type) := mk_db {
  vacancies : Z -> option vac_meta;
  vacancy_chunks : list (chunk V);
  pg_trgm : bool }.
Arguments mk_db {V}.
Arguments vacancies {V}. Arguments vacancy_chunks {V}. Arguments pg_trgm {V}.

(** A row of the [scored] CTE. *)
Record scored_row := mk_scored {
  s_vacancy_id : Z; s_meta : vac_meta; s_chunk_no : Z; s_text : string;
  s_dist : Q; s_kw_sim : Q; s_score : Q }.

(** A row of the [ranked] CTE: [rn] and [best_score] added. *)
Record ranked_row := mk_ranked { r_row : scored_row; r_rn : Z; r_best : Q }.

(** A row of [top_vacs]. *)
Record top_row := mk_top { t_vacancy_id : Z; t_meta : vac_meta; t_best : Q }.

(** A row of the final [select]. *)
Record out_row := mk_out {
  o_vacancy_id : Z; o_meta : vac_meta; o_chunk_no : Z; o_text : string;
  o_dist : Q; o_kw_sim : Q; o_score : Q; o_rn : Z; o_best : Q }.

(** Which of the two statements is executed. *)
Inductive sql_variant := WITH_TRGM (kw_weight : Q) | NO_TRGM.

(** The Python side: an evidence dict and a [vac_map] entry. *)
Record evidence := mk_evidence {
  e_chunk_no : Z; e_text : string; e_dist : Q; e_kw_sim : Q; e_score : Q;
  e_rank_in_vacancy : Z }.

Record vac_item := mk_item {
  v_vacancy_id : Z; v_meta : vac_meta; v_best_score : Q;
  v_evidence : list evidence }.

(** The JSON returned by [search]. *)
Record response := mk_response {
  resp_query : string; hybrid_used : bool; kw_weight_used : Q;
  resp_k : Z; resp_per_vac : Z; results : list vac_item }.

(** The JSON returned by [ask]: the reasons of a result, a result, the
    summary and the response. *)
Record why_entry := mk_why { why_type : string; why_items : list string }.

Record ask_item := mk_ask_item { a_item : vac_item; a_why : list why_entry }.

Record summary := mk_summary {
  sum_text : string; query_keywords : list string; tech_signals : list string;
  notes : list string }.

Record ask_response := mk_ask_response {
  ask_query : string; ask_hybrid_used : bool; ask_kw_weight_used : Q;
  ask_k : Z; ask_per_vac : Z; ask_summary : summary;
  ask_results : list ask_item }.

(** Python's [needle in hay] on strings. *)
Fixpoint str_contains (needle hay : string) : bool :=
  String.prefix needle hay
  || match hay with
     | EmptyString => false
     | String _ hay' => str_contains needle hay'
     end.

Definition sql_min (a b : Q) : Q := if Qle_bool a b then a else b.

(** Python's [x > 0] on a float. *)
Definition gt0 (x : Q) : bool := negb (Qle_bool x 0).

Section Engine.

Variable vector : Type.
(** [_embedder.embed] *)
Variable embed : string -> vector.
(** pgvector's cosine distance [<=>] *)
Variable cosine_distance : vector -> vector -> Q.
(** pg_trgm's [similarity] *)
Variable similarity : string -> string -> Q.
(** [order by]: PostgreSQL returns the rows sorted, in an order among
    ties that the statement does not fix. *)
Variable sort_by : forall A : Type, (A -> A -> bool) -> list A -> list A.

(** *** [scored] *)

Definition scored_columns (v : sql_variant) (query : string) (q_vec : vector)
    (c : chunk vector) (m : vac_meta) (e : vector) : scored_row :=
  let dist := cosine_distance e q_vec in
  match v with
  | WITH_TRGM w =>
      let sim := similarity (Text.str_lower (c_text c)) (Text.str_lower query) in
      mk_scored (c_vacancy_id c) m (c_chunk_no c) (c_text c) dist sim
        (dist - w * sim)%Q
  | NO_TRGM =>
      mk_scored (c_vacancy_id c) m (c_chunk_no c) (c_text c) dist 0%Q dist
  end.

(** [from vacancy_chunks c join vacancies v ... where c.embedding is not null] *)
Definition joined_rows (v : sql_variant) (query : string) (q_vec : vector)
    (d : db vector) : list scored_row :=
  flat_map (fun c =>
      match c_embedding c, vacancies d (c_vacancy_id c) with
      | Some e, Some m => [scored_columns v query q_vec c m e]
      | _, _ => []
      end) (vacancy_chunks d).

Definition dist_le (a b : scored_row) : bool := Qle_bool (s_dist a) (s_dist b).

Definition scored (v : sql_variant) (query : string) (q_vec : vector)
    (d : db vector) (candidates : Z) : option (list scored_row) :=
  sql_limit candidates (sort_by _ dist_le (joined_rows v query q_vec d)).

(** *** [ranked]: [row_number()] and [min(score)] over each vacancy *)

Definition score_le (a b : scored_row) : bool := Qle_bool (s_score a) (s_score b).

Definition partition_of (v : Z) (l : list scored_row) : list scored_row :=
  filter (fun r => Z.eqb (s_vacancy_id r) v) l.

Definition min_score (l : list scored_row) : Q :=
  match l with
  | [] => 0%Q
  | x :: xs => fold_left (fun m r => sql_min m (s_score r)) xs (s_score x)
  end.

Fixpoint number_rows (n : Z) (best : Q) (l : list scored_row) : list ranked_row :=
  match l with
  | [] => []
  | x :: xs => mk_ranked x n best :: number_rows (n + 1)%Z best xs
  end.

Definition rank_partition (part : list scored_row) : list ranked_row :=
  number_rows 1%Z (min_score part) (sort_by _ score_le part).

Definition ranked (sc : list scored_row) : list ranked_row :=
  flat_map (fun v => rank_partition (partition_of v sc))
    (uniq_by Z.eqb [] (map s_vacancy_id sc)).

(** *** [top_vacs] *)

Definition to_top (r : ranked_row) : top_row :=
  mk_top (s_vacancy_id (r_row r)) (s_meta (r_row r)) (r_best r).

Definition top_eqb (a b : top_row) : bool :=
  Z.eqb (t_vacancy_id a) (t_vacancy_id b) && meta_eqb (t_meta a) (t_meta b)
  && Qeq_bool (t_best a) (t_best b).

Definition top_le (a b : top_row) : bool := Qle_bool (t_best a) (t_best b).

Definition top_vacs (rk : list ranked_row) (k : Z) : option (list top_row) :=
  sql_limit k (sort_by _ top_le (uniq_by top_eqb [] (map to_top rk))).

(** *** The final [select ... join top_vacs using (vacancy_id)
    where r.rn <= per_vac order by t.best_score asc, r.rn asc] *)

Definition out_of (r : ranked_row) (t : top_row) : out_row :=
  let s := r_row r in
  mk_out (s_vacancy_id s) (s_meta s) (s_chunk_no s) (s_text s) (s_dist s)
    (s_kw_sim s) (s_score s) (r_rn r) (t_best t).

Definition join_top (rk : list ranked_row) (tv : list top_row) (per_vac : Z)
  : list out_row :=
  flat_map (fun r =>
      flat_map (fun t =>
          if Z.eqb (s_vacancy_id (r_row r)) (t_vacancy_id t) && (r_rn r <=? per_vac)%Z
          then [out_of r t] else []) tv) rk.

Definition final_le (a b : out_row) : bool :=
  if Qeq_bool (o_best a) (o_best b) then (o_rn a <=? o_rn b)%Z
  else Qle_bool (o_best a) (o_best b).

Definition run_query (v : sql_variant) (query : string) (q_vec : vector)
    (d : db vector) (candidates k per_vac : Z) : option (list out_row) :=
  match scored v query q_vec d candidates with
  | None => None
  | Some sc =>
      let rk := ranked sc in
      match top_vacs rk k with
      | None => None
      | Some tv => Some (sort_by _ final_le (join_top rk tv per_vac))
      end
  end.

(** *** [retrieve_vacancies] *)

Fixpoint lookup (m : list (Z * vac_item)) (k : Z) : option vac_item :=
  match m with
  | [] => None
  | (k', it) :: m' => if Z.eqb k k' then Some it else lookup m' k
  end.

Fixpoint update (m : list (Z * vac_item)) (k : Z) (f : vac_item -> vac_item)
  : list (Z * vac_item) :=
  match m with
  | [] => []
  | (k', it) :: m' =>
      if Z.eqb k k' then (k', f it) :: m' else (k', it) :: update m' k f
  end.

Definition evidence_of (r : out_row) : evidence :=
  mk_evidence (o_chunk_no r) (o_text r) (o_dist r) (o_kw_sim r) (o_score r)
    (o_rn r).

(** One iteration of [for r in rows]. *)
Definition add_row (st : list (Z * vac_item) * list Z) (r : out_row)
  : list (Z * vac_item) * list Z :=
  let '(vac_map, vac_order) := st in
  let vid := o_vacancy_id r in
  let '(vac_map, vac_order) :=
    match lookup vac_map vid with
    | None => (vac_map ++ [(vid, mk_item vid (o_meta r) (o_best r) [])],
               vac_order ++ [vid])
    | Some _ => (vac_map, vac_order)
    end in
  (update vac_map vid (fun it =>
      mk_item (v_vacancy_id it) (v_meta it) (v_best_score it)
        (v_evidence it ++ [evidence_of r])), vac_order).

Definition retrieve_vacancies (d : db vector) (query : string)
    (k per_vac candidates : Z) (kw_weight : Q)
  : option (list Z * list (Z * vac_item) * bool * Q) :=
  let q_vec := embed query in
  let trgm := pg_trgm d in
  let kw_weight := if trgm then kw_weight else 0%Q in
  let variant := if trgm && gt0 kw_weight then WITH_TRGM kw_weight else NO_TRGM in
  match run_query variant query q_vec d candidates k per_vac with
  | None => None
  | Some rows =>
      let '(vac_map, vac_order) := fold_left add_row rows ([], []) in
      let vac_order := uniq_by Z.eqb [] vac_order in
      Some (vac_order, vac_map, trgm, kw_weight)
  end.

(** *** [search] *)

Definition format_item (keywords : list string) (max_quote : Z)
    (do_highlight : bool) (it : vac_item) : vac_item :=
  mk_item (v_vacancy_id it) (v_meta it) (v_best_score it)
    (map (fun ev =>
        mk_evidence (e_chunk_no ev)
          (Text.format_evidence (e_text ev) keywords max_quote do_highlight)
          (e_dist ev) (e_kw_sim ev) (e_score ev) (e_rank_in_vacancy ev))
       (v_evidence it)).

Fixpoint map_lookup (m : list (Z * vac_item)) (ids : list Z)
  : option (list vac_item) :=
  match ids with
  | [] => Some []
  | vid :: ids' =>
      match lookup m vid, map_lookup m ids' with
      | Some it, Some its => Some (it :: its)
      | _, _ => None
      end
  end.

Definition search (d : db vector) (q : string) (k per_vac candidates : Z)
    (kw_weight : Q) (max_quote : Z) (do_highlight : bool) : option response :=
  match retrieve_vacancies d q k per_vac candidates kw_weight with
  | None => None
  | Some (vac_order, vac_map, trgm, kw_used) =>
      let keywords := Keywords.extract_query_keywords q 12 in
      match map_lookup vac_map vac_order with
      | None => None
      | Some items =>
          Some (mk_response q (trgm && gt0 kw_used) kw_used k per_vac
                  (map (format_item keywords max_quote do_highlight) items))
      end
  end.

(** *** Characterisation of the Python loop over [rows] *)

Definition same_vac (a b : out_row) : bool := Z.eqb (o_vacancy_id a) (o_vacancy_id b).

(** The first row of each vacancy, in row order. *)
Definition first_rows (rows : list out_row) : list out_row := uniq_by same_vac [] rows.

Definition item_of (rows : list out_row) (r : out_row) : vac_item :=
  mk_item (o_vacancy_id r) (o_meta r) (o_best r)
    (map evidence_of (filter (same_vac r) rows)).

Definition vac_map_of (rows : list out_row) : list (Z * vac_item) :=
  map (fun r => (o_vacancy_id r, item_of rows r)) (first_rows rows).

(** The candidate pool of a call: the [scored] CTE as executed. *)
Definition candidate_pool (d : db vector) (query : string) (candidates : Z)
    (kw_weight : Q) : option (list scored_row) :=
  let trgm := pg_trgm d in
  let kw_weight := if trgm then kw_weight else 0%Q in
  let variant := if trgm && gt0 kw_weight then WITH_TRGM kw_weight else NO_TRGM in
  scored variant query (embed query) d candidates.

(** *** [ask] *)

(** The [why] list of one vacancy, from the raw texts of its evidence. *)
Definition ask_why (keywords : list string) (it : vac_item) : list why_entry :=
  let joined := Text.str_lower (String.concat " " (map e_text (v_evidence it))) in
  let hit_kw := firstn 10 (filter (fun kw => str_contains kw joined) keywords) in
  let hit_tech := firstn 12 (Text.extract_tech_terms joined) in
  (match hit_kw with [] => [] | _ => [mk_why "query_match" hit_kw] end)
  ++ (match hit_tech with [] => [] | _ => [mk_why "tech_terms" hit_tech] end).

Definition summary_fallback : string :=
  "Результаты сформированы по семантической близости и цитатам.".

Definition ask_summary_of (keywords tech_signals : list string) : summary :=
  let parts :=
    (match tech_signals with
     | [] => []
     | _ => [("Технологии/сигналы: " ++ String.concat ", " tech_signals)%string]
     end)
    ++ (match keywords with
        | [] => []
        | _ => [("Ключевые слова запроса: " ++ String.concat ", " keywords)%string]
        end) in
  mk_summary
    (match parts with [] => summary_fallback | _ => String.concat " | " parts end)
    keywords tech_signals
    ["Результаты сгруппированы по вакансиям (не по чанкам)."%string;
     "Цитаты — фрагменты текста вакансий, которые служат доказательствами релевантности (retrieval evidence)."%string].

Definition ask (d : db vector) (q : string) (k per_vac candidates : Z)
    (kw_weight : Q) (max_quote : Z) (do_highlight : bool) : option ask_response :=
  match retrieve_vacancies d q k per_vac candidates kw_weight with
  | None => None
  | Some (vac_order, vac_map, trgm, kw_used) =>
      let keywords := Keywords.extract_query_keywords q 12 in
      match map_lookup vac_map vac_order with
      | None => None
      | Some items =>
          let tech := flat_map (fun it => flat_map (fun ev =>
                        Text.extract_tech_terms (e_text ev)) (v_evidence it)) items in
          let tech_signals := Keywords.most_common tech 10 in
          let results := map (fun it =>
                mk_ask_item (format_item keywords max_quote do_highlight it)
                  (ask_why keywords it)) items in
          Some (mk_ask_response q (trgm && gt0 kw_used) kw_used k per_vac
                  (ask_summary_of keywords tech_signals) results)
      end
  end.

(** ** Properties *)

Hypothesis sort_by_perm :
  forall A (le : A -> A -> bool) l, Permutation l (sort_by A le l).
Hypothesis sort_by_sorted :
  forall A (le : A -> A -> bool), total le ->
  forall l, Sorted (fun a b => le a b = true) (sort_by A le l).

Lemma Qle_bool_refl x : Qle_bool x x = true.
Proof. apply Qle_bool_iff, Qle_refl. Qed.

Lemma Qle_bool_total x y : Qle_bool x y = true \/ Qle_bool y x = true.
Proof.
  rewrite !Qle_bool_iff. destruct (Qlt_le_dec x y) as [H|H]; [left|right]; auto.
  apply Qlt_le_weak, H.
Qed.

Lemma Qle_bool_trans x y z :
  Qle_bool x y = true -> Qle_bool y z = true -> Qle_bool x z = true.
Proof. rewrite !Qle_bool_iff. apply Qle_trans. Qed.

Lemma score_le_total : total score_le.
Proof. intros a b. apply Qle_bool_total. Qed.

Lemma score_le_trans a b c :
  score_le a b = true -> score_le b c = true -> score_le a c = true.
Proof. apply Qle_bool_trans. Qed.

Lemma final_le_total : total final_le.
Proof.
  intros a b. unfold final_le.
  destruct (Qeq_bool (o_best a) (o_best b)) eqn:E1;
  destruct (Qeq_bool (o_best b) (o_best a)) eqn:E2.
  - rewrite !Z.leb_le. lia.
  - apply Qeq_bool_iff in E1. rewrite <- Qeq_bool_iff in E1.
    apply Qeq_bool_sym in E1. congruence.
  - apply Qeq_bool_iff in E2. apply Qeq_sym, Qeq_bool_iff in E2. congruence.
  - apply Qle_bool_total.
Qed.

Lemma final_le_best a b :
  final_le a b = true -> (o_best a <= o_best b)%Q.
Proof.
  unfold final_le. destruct (Qeq_bool (o_best a) (o_best b)) eqn:E.
  - intros _. apply Qeq_bool_iff in E. rewrite E. apply Qle_refl.
  - apply Qle_bool_iff.
Qed.

Lemma final_le_spec a b :
  final_le a b = true <->
  (o_best a < o_best b)%Q \/ (o_best a == o_best b /\ (o_rn a <= o_rn b)%Z)%Q.
Proof.
  unfold final_le. destruct (Qeq_bool (o_best a) (o_best b)) eqn:E.
  - apply Qeq_bool_iff in E. rewrite Z.leb_le. split; [auto|].
    intros [H|[_ H]]; auto. rewrite E in H. destruct (Qlt_irrefl _ H).
  - apply Qeq_bool_neq in E. rewrite Qle_bool_iff. split.
    + intros H. left. apply Qle_lteq in H as [H|H]; [exact H|contradiction].
    + intros [H|[H _]]; [apply Qlt_le_weak, H|contradiction].
Qed.

Lemma final_le_trans a b c :
  final_le a b = true -> final_le b c = true -> final_le a c = true.
Proof.
  rewrite !final_le_spec.
  intros [H1|[E1 R1]] [H2|[E2 R2]].
  - left. apply Qlt_trans with (o_best b); auto.
  - left. rewrite <- E2. exact H1.
  - left. rewrite E1. exact H2.
  - right. split; [rewrite E1; exact E2|lia].
Qed.

Lemma Permutation_filter' {A} (f : A -> bool) l l' :
  Permutation l l' -> Permutation (filter f l) (filter f l').
Proof.
  induction 1; simpl; try destruct (f x); try destruct (f y); eauto using Permutation.
Qed.

Lemma in_sql_limit {A} n (l l' : list A) x :
  sql_limit n l = Some l' -> In x l' -> In x l.
Proof.
  intros E H. apply sql_limit_some in E as [_ ->].
  rewrite <- (firstn_skipn (Z.to_nat n) l).
  apply in_or_app. auto.
Qed.

Lemma in_sort_by {A} (le : A -> A -> bool) l x : In x (sort_by A le l) -> In x l.
Proof. apply Permutation_in. apply Permutation_sym, sort_by_perm. Qed.

Lemma in_joined_rows v query q_vec d r :
  In r (joined_rows v query q_vec d) ->
  exists c m e, In c (vacancy_chunks d) /\ c_embedding c = Some e
    /\ vacancies d (c_vacancy_id c) = Some m
    /\ r = scored_columns v query q_vec c m e.
Proof.
  unfold joined_rows. intros H. apply in_flat_map in H as [c [Hc H]].
  destruct (c_embedding c) as [e|] eqn:Ee; [|contradiction].
  destruct (vacancies d (c_vacancy_id c)) as [m|] eqn:Em; [|contradiction].
  destruct H as [<-|[]]. exists c, m, e. auto.
Qed.

Lemma in_scored v query q_vec d cand sc r :
  scored v query q_vec d cand = Some sc -> In r sc ->
  In r (joined_rows v query q_vec d).
Proof.
  unfold scored. intros H Hr. eapply in_sort_by, in_sql_limit; eauto.
Qed.

Lemma scored_meta v query q_vec d cand sc r :
  scored v query q_vec d cand = Some sc -> In r sc ->
  vacancies d (s_vacancy_id r) = Some (s_meta r).
Proof.
  intros H Hr. eapply in_scored in Hr; eauto.
  apply in_joined_rows in Hr as (c & m & e & _ & _ & Hm & ->).
  destruct v; exact Hm.
Qed.

Lemma in_number_rows n b l x :
  In x (number_rows n b l) ->
  In (r_row x) l /\ r_best x = b /\ (n <= r_rn x)%Z.
Proof.
  revert n. induction l as [|y ys IH]; simpl; intros n H; [contradiction|].
  destruct H as [<-|H]; simpl; [split; [left; reflexivity|split; [reflexivity|lia]]|].
  apply IH in H as (H1 & H2 & H3). repeat split; auto. lia.
Qed.

Lemma in_rank_partition part x :
  In x (rank_partition part) ->
  In (r_row x) part /\ r_best x = min_score part /\ (1 <= r_rn x)%Z.
Proof.
  unfold rank_partition. intros H. apply in_number_rows in H as (H1 & H2 & H3).
  repeat split; auto. eapply in_sort_by; eauto.
Qed.

Lemma in_partition_of v l r :
  In r (partition_of v l) <-> In r l /\ s_vacancy_id r = v.
Proof. unfold partition_of. rewrite filter_In, Z.eqb_eq. tauto. Qed.

Lemma in_ranked sc x :
  In x (ranked sc) ->
  In x (rank_partition (partition_of (s_vacancy_id (r_row x)) sc))
  /\ In (r_row x) sc
  /\ r_best x = min_score (partition_of (s_vacancy_id (r_row x)) sc)
  /\ (1 <= r_rn x)%Z.
Proof.
  unfold ranked. intros H. apply in_flat_map in H as [u [_ H]].
  pose proof (in_rank_partition _ _ H) as (H1 & H2 & H3).
  apply in_partition_of in H1 as [H1 <-]. auto.
Qed.

(** *** The Python loop *)

Lemma uniq_by_snoc {A} (eqb : A -> A -> bool)
  (Htr : forall a b c, eqb a b = true -> eqb b c = true -> eqb a c = true)
  seen l x :
  uniq_by eqb seen (l ++ [x])
  = uniq_by eqb seen l ++ (if existsb (eqb x) (seen ++ l) then [] else [x]).
Proof.
  revert seen. induction l as [|y ys IH]; simpl; intros seen.
  - rewrite app_nil_r. destruct (existsb (eqb x) seen); reflexivity.
  - destruct (existsb (eqb y) seen) eqn:Ey.
    + rewrite IH. f_equal. rewrite !existsb_app. simpl.
      destruct (eqb x y) eqn:Exy; simpl; [|reflexivity].
      apply existsb_exists in Ey as [z [Hz Ez]].
      replace (existsb (eqb x) seen) with true; [reflexivity|].
      symmetry. apply existsb_exists. exists z. split; eauto.
    + simpl. rewrite IH. f_equal. f_equal. simpl. rewrite !existsb_app. simpl.
      destruct (eqb x y), (existsb (eqb x) seen); reflexivity.
Qed.

Lemma same_vac_trans a b c :
  same_vac a b = true -> same_vac b c = true -> same_vac a c = true.
Proof. unfold same_vac. rewrite !Z.eqb_eq. congruence. Qed.

Lemma same_vac_refl a : same_vac a a = true.
Proof. apply Z.eqb_refl. Qed.

Lemma first_rows_snoc pre r :
  first_rows (pre ++ [r])
  = first_rows pre ++ (if existsb (same_vac r) pre then [] else [r]).
Proof. unfold first_rows. rewrite uniq_by_snoc; [reflexivity|apply same_vac_trans]. Qed.

Lemma first_rows_key_NoDup rows : NoDup (map o_vacancy_id (first_rows rows)).
Proof.
  unfold first_rows, same_vac. rewrite map_uniq_by_key.
  apply uniq_by_NoDup. apply Z.eqb_refl.
Qed.

Lemma in_first_rows rows x : In x (first_rows rows) -> In x rows.
Proof. intros H. apply in_uniq_by in H. tauto. Qed.

Lemma first_rows_cover seen l y :
  In y l ->
  In (o_vacancy_id y) (map o_vacancy_id seen)
  \/ exists x, In x (uniq_by same_vac seen l) /\ o_vacancy_id x = o_vacancy_id y.
Proof.
  revert seen. induction l as [|z zs IH]; simpl; intros seen Hy; [contradiction|].
  destruct (existsb (same_vac z) seen) eqn:Ez.
  - destruct Hy as [<-|Hy]; [|apply IH; auto].
    left. apply existsb_exists in Ez as [w [Hw Ew]].
    unfold same_vac in Ew. apply Z.eqb_eq in Ew. rewrite Ew. apply in_map. auto.
  - destruct Hy as [<-|Hy]; [right; exists z; simpl; auto|].
    destruct (IH (z :: seen) Hy) as [H|[x [Hx Ex]]].
    + simpl in H. destruct H as [H|H]; [right; exists z; simpl; auto|left; auto].
    + right. exists x. simpl. auto.
Qed.

Lemma lookup_map_none {A} (key : A -> Z) (g : A -> vac_item) L v :
  (forall x, In x L -> key x <> v) -> lookup (map (fun x => (key x, g x)) L) v = None.
Proof.
  induction L as [|x xs IH]; simpl; intros H; [reflexivity|].
  destruct (Z.eqb_spec v (key x)) as [E|E].
  - exfalso. apply (H x); auto.
  - apply IH. intros y Hy. apply H. auto.
Qed.

Lemma lookup_map_in {A} (key : A -> Z) (g : A -> vac_item) L x :
  NoDup (map key L) -> In x L ->
  lookup (map (fun y => (key y, g y)) L) (key x) = Some (g x).
Proof.
  induction L as [|y ys IH]; simpl; intros Hn Hx; [contradiction|].
  inversion Hn as [|? ? Hy Hn']; subst.
  destruct (Z.eqb_spec (key x) (key y)) as [E|E].
  - destruct Hx as [<-|Hx]; [reflexivity|].
    exfalso. apply Hy. rewrite <- E. apply in_map. exact Hx.
  - destruct Hx as [<-|Hx]; [contradiction|]. apply IH; auto.
Qed.

Lemma update_map {A} (key : A -> Z) (g : A -> vac_item) f L v :
  NoDup (map key L) ->
  update (map (fun x => (key x, g x)) L) v f
  = map (fun x => (key x, if Z.eqb (key x) v then f (g x) else g x)) L.
Proof.
  induction L as [|x xs IH]; simpl; intros Hn; [reflexivity|].
  inversion Hn as [|? ? Hx Hn']; subst.
  rewrite (Z.eqb_sym (key x) v).
  destruct (Z.eqb_spec v (key x)) as [E|E]; f_equal; [|apply IH; auto].
  apply map_ext_in. intros y Hy.
  destruct (Z.eqb_spec (key y) v) as [E'|E']; [|reflexivity].
  exfalso. apply Hx. rewrite <- E, <- E'. apply in_map. exact Hy.
Qed.

Lemma update_app_fresh m v f k it :
  (forall k' it', In (k', it') m -> k' <> v) -> k = v ->
  update (m ++ [(k, it)]) v f = m ++ [(k, f it)].
Proof.
  intros H ->. induction m as [|[k' it'] m IH]; simpl.
  - rewrite Z.eqb_refl. reflexivity.
  - destruct (Z.eqb_spec v k') as [E|E].
    + exfalso. subst. apply (H k' it'); simpl; auto.
    + f_equal. apply IH. intros. eapply H. right. eauto.
Qed.

Lemma filter_all_false {A} (f : A -> bool) l :
  (forall z, In z l -> f z = false) -> filter f l = [].
Proof.
  induction l as [|x xs IH]; simpl; intros H; [reflexivity|].
  rewrite H by auto. apply IH. auto.
Qed.

Lemma add_row_step pre r :
  add_row (vac_map_of pre, map o_vacancy_id (first_rows pre)) r
  = (vac_map_of (pre ++ [r]), map o_vacancy_id (first_rows (pre ++ [r]))).
Proof.
  unfold add_row.
  change (vac_map_of (pre ++ [r])) with
    (map (fun x => (o_vacancy_id x, item_of (pre ++ [r]) x)) (first_rows (pre ++ [r]))).
  rewrite first_rows_snoc.
  destruct (existsb (same_vac r) pre) eqn:E.
  - (* the vacancy was seen before *)
    apply existsb_exists in E as [y [Hy Ey]].
    destruct (first_rows_cover [] pre y Hy) as [[]|[x [Hx Ex]]].
    unfold same_vac in Ey. apply Z.eqb_eq in Ey.
    fold (first_rows pre) in Hx.
    assert (lookup (vac_map_of pre) (o_vacancy_id r) = Some (item_of pre x)) as L.
    { unfold vac_map_of. rewrite Ey, <- Ex.
      apply lookup_map_in; [apply first_rows_key_NoDup|exact Hx]. }
    rewrite L, !app_nil_r. f_equal. unfold vac_map_of.
    rewrite update_map by apply first_rows_key_NoDup.
    apply map_ext_in. intros z Hz. f_equal.
    unfold item_of, same_vac. rewrite filter_app. simpl.
    destruct (Z.eqb (o_vacancy_id z) (o_vacancy_id r)); simpl.
    + rewrite map_app. reflexivity.
    + rewrite app_nil_r. reflexivity.
  - (* a new vacancy *)
    assert (Hfresh : forall z, In z pre -> o_vacancy_id z <> o_vacancy_id r).
    { intros z Hz Ez. assert (existsb (same_vac r) pre = true); [|congruence].
      apply existsb_exists. exists z. split; auto.
      unfold same_vac. rewrite Ez. apply Z.eqb_refl. }
    assert (lookup (vac_map_of pre) (o_vacancy_id r) = None) as L.
    { apply lookup_map_none. intros z Hz. apply Hfresh, in_first_rows, Hz. }
    rewrite L, !map_app. simpl. f_equal.
    rewrite update_app_fresh; [|intros k' it' H|reflexivity].
    + unfold vac_map_of. f_equal.
      * apply map_ext_in. intros z Hz. unfold item_of, same_vac.
        rewrite filter_app. simpl.
        destruct (Z.eqb_spec (o_vacancy_id z) (o_vacancy_id r)) as [Ez|Ez].
        -- exfalso. apply (Hfresh z); auto. apply in_first_rows, Hz.
        -- rewrite app_nil_r. reflexivity.
      * unfold item_of. rewrite filter_app. simpl. rewrite same_vac_refl.
        replace (filter (same_vac r) pre) with (@nil out_row); [reflexivity|].
        symmetry. apply filter_all_false. intros z Hz.
        unfold same_vac. apply Z.eqb_neq. intros Ez. apply (Hfresh z); auto.
    + unfold vac_map_of in H. apply in_map_iff in H as [z [Ez Hz]].
      injection Ez as <- _. apply Hfresh, in_first_rows, Hz.
Qed.

Lemma fold_add_row rows :
  fold_left add_row rows ([], [])
  = (vac_map_of rows, map o_vacancy_id (first_rows rows)).
Proof.
  induction rows as [|rows r IH] using rev_ind; [reflexivity|].
  rewrite fold_left_app, IH. simpl. apply add_row_step.
Qed.

Lemma map_lookup_first_rows rows :
  map_lookup (vac_map_of rows) (map o_vacancy_id (first_rows rows))
  = Some (map (item_of rows) (first_rows rows)).
Proof.
  pose proof (first_rows_key_NoDup rows) as Hn.
  assert (forall L, incl L (first_rows rows) ->
            map_lookup (vac_map_of rows) (map o_vacancy_id L)
            = Some (map (item_of rows) L)) as HL.
  { induction L as [|x xs IH]; simpl; intros Hi; [reflexivity|].
    unfold vac_map_of at 1.
    rewrite lookup_map_in; [|exact Hn|apply Hi; left; reflexivity].
    rewrite IH; [reflexivity|]. intros y Hy. apply Hi. right. exact Hy. }
  apply HL, incl_refl.
Qed.

Lemma search_spec d q k per_vac cand kw_weight max_quote do_highlight resp :
  search d q k per_vac cand kw_weight max_quote do_highlight = Some resp ->
  let trgm := pg_trgm d in
  let w := if trgm then kw_weight else 0%Q in
  exists rows,
    run_query (if trgm && gt0 w then WITH_TRGM w else NO_TRGM) q (embed q) d
      cand k per_vac = Some rows
    /\ hybrid_used resp = trgm && gt0 w
    /\ kw_weight_used resp = w
    /\ results resp
       = map (fun x => format_item (Keywords.extract_query_keywords q 12)
                         max_quote do_highlight (item_of rows x))
           (first_rows rows).
Proof.
  unfold search, retrieve_vacancies. simpl.
  destruct (run_query _ _ _ _ _ _ _) as [rows|] eqn:Hq; [|discriminate].
  rewrite fold_add_row.
  rewrite uniq_by_Z_NoDup_id;
    [|apply first_rows_key_NoDup|intros ? ? []].
  rewrite map_lookup_first_rows. intros [= <-]. exists rows.
  simpl. repeat split; auto. rewrite map_map. reflexivity.
Qed.

(** *** The SQL side *)

Lemma run_query_inv v q q_vec d cand k per_vac rows :
  run_query v q q_vec d cand k per_vac = Some rows ->
  exists sc tv, scored v q q_vec d cand = Some sc
    /\ top_vacs (ranked sc) k = Some tv
    /\ rows = sort_by _ final_le (join_top (ranked sc) tv per_vac).
Proof.
  unfold run_query. cbv zeta.
  destruct (scored v q q_vec d cand) as [sc|] eqn:Hs; [|discriminate].
  destruct (top_vacs (ranked sc) k) as [tv|] eqn:Ht; [|discriminate].
  intros [= <-]. exists sc, tv. auto.
Qed.

Lemma in_top_vacs rk k tv t :
  top_vacs rk k = Some tv -> In t tv -> exists r, In r rk /\ t = to_top r.
Proof.
  unfold top_vacs. intros H Ht.
  eapply in_sql_limit in Ht; [|exact H]. apply in_sort_by in Ht.
  apply in_uniq_by in Ht as [Ht _]. apply in_map_iff in Ht as [r [<- Hr]]. eauto.
Qed.

Lemma in_join_top rk tv per_vac o :
  In o (join_top rk tv per_vac) ->
  exists r t, In r rk /\ In t tv /\ s_vacancy_id (r_row r) = t_vacancy_id t
    /\ (r_rn r <= per_vac)%Z /\ o = out_of r t.
Proof.
  unfold join_top. intros H. apply in_flat_map in H as [r [Hr H]].
  apply in_flat_map in H as [t [Ht H]].
  destruct (Z.eqb_spec (s_vacancy_id (r_row r)) (t_vacancy_id t)) as [E|E];
  destruct (Z.leb_spec (r_rn r) per_vac) as [P|P]; simpl in H;
    try contradiction.
  destruct H as [<-|[]]. exists r, t. auto.
Qed.

(** Every returned row comes from a ranked row of the candidate pool;
    its [best_score] is the minimum score of its vacancy's candidates. *)
Lemma out_row_origin v q q_vec d cand sc k tv per_vac o :
  scored v q q_vec d cand = Some sc ->
  top_vacs (ranked sc) k = Some tv ->
  In o (sort_by _ final_le (join_top (ranked sc) tv per_vac)) ->
  exists r, In r (ranked sc)
    /\ o_vacancy_id o = s_vacancy_id (r_row r)
    /\ o_rn o = r_rn r /\ o_score o = s_score (r_row r)
    /\ o_dist o = s_dist (r_row r) /\ o_kw_sim o = s_kw_sim (r_row r)
    /\ (r_rn r <= per_vac)%Z
    /\ o_best o = min_score (partition_of (o_vacancy_id o) sc).
Proof.
  intros Hs Ht Ho. apply in_sort_by, in_join_top in Ho
    as (r & t & Hr & Htv & Evt & Hp & ->).
  exists r. simpl. repeat split; auto.
  destruct (in_top_vacs _ _ _ _ Ht Htv) as (r' & Hr' & ->).
  simpl in *. rewrite Evt.
  apply in_ranked in Hr' as (_ & _ & -> & _). reflexivity.
Qed.

Lemma number_rows_score_mono n b l :
  StronglySorted (fun a c => score_le a c = true) l ->
  forall x y, In x (number_rows n b l) -> In y (number_rows n b l) ->
  (r_rn x <= r_rn y)%Z -> (s_score (r_row x) <= s_score (r_row y))%Q.
Proof.
  intros Hs. revert n. induction Hs as [|h l Hs IH Hf]; simpl; intros n x y Hx Hy Hxy;
    [contradiction|].
  rewrite Forall_forall in Hf.
  destruct Hx as [<-|Hx]; destruct Hy as [<-|Hy]; simpl in *.
  - apply Qle_refl.
  - apply in_number_rows in Hy as (Hy & _ & _). apply Qle_bool_iff, Hf, Hy.
  - apply in_number_rows in Hx as (_ & _ & Hn). lia.
  - eapply IH; eauto.
Qed.

Lemma rank_partition_score_mono part x y :
  In x (rank_partition part) -> In y (rank_partition part) ->
  (r_rn x <= r_rn y)%Z -> (s_score (r_row x) <= s_score (r_row y))%Q.
Proof.
  apply number_rows_score_mono. apply Sorted_StronglySorted.
  - intros a b c. apply score_le_trans.
  - apply sort_by_sorted, score_le_total.
Qed.

Lemma sql_min_spec a b :
  (sql_min a b = a \/ sql_min a b = b)
  /\ (sql_min a b <= a)%Q /\ (sql_min a b <= b)%Q.
Proof.
  unfold sql_min. destruct (Qle_bool a b) eqn:E.
  - apply Qle_bool_iff in E. split; [left; reflexivity|split; auto].
    apply Qle_refl.
  - split; [right; reflexivity|split; [|apply Qle_refl]].
    destruct (Qle_bool_total a b) as [H|H]; [congruence|].
    apply Qle_bool_iff, H.
Qed.

Lemma fold_min_spec xs m :
  let f := fold_left (fun m r => sql_min m (s_score r)) xs m in
  (f = m \/ In f (map s_score xs)) /\ (f <= m)%Q
  /\ forall r, In r xs -> (f <= s_score r)%Q.
Proof.
  revert m. induction xs as [|y ys IH]; simpl; intros m.
  - split; [left; reflexivity|split; [apply Qle_refl|intros _ []]].
  - destruct (sql_min_spec m (s_score y)) as (E & L1 & L2).
    destruct (IH (sql_min m (s_score y))) as (F & M1 & M2).
    split; [|split].
    + destruct F as [F|F]; [destruct E as [E|E]|].
      * left. congruence.
      * right. left. congruence.
      * right. right. exact F.
    + apply Qle_trans with (sql_min m (s_score y)); auto.
    + intros r [Er|Hr]; [subst r|auto].
      apply Qle_trans with (sql_min m (s_score y)); auto.
Qed.

Lemma min_score_spec l :
  l <> [] ->
  In (min_score l) (map s_score l) /\ forall r, In r l -> (min_score l <= s_score r)%Q.
Proof.
  destruct l as [|x xs]; [congruence|intros _]. unfold min_score.
  destruct (fold_min_spec xs (s_score x)) as (H1 & H2 & H3). simpl.
  split.
  - destruct H1 as [H1|H1]; [left; auto|right; exact H1].
  - intros r [<-|Hr]; auto.
Qed.

(** *** Sortedness of the returned rows *)

Lemma StronglySorted_filter {A} (R : A -> A -> Prop) (f : A -> bool) l :
  StronglySorted R l -> StronglySorted R (filter f l).
Proof.
  induction 1 as [|a l Hs IH Hf]; simpl; [constructor|].
  destruct (f a); [|exact IH]. constructor; [exact IH|].
  rewrite Forall_forall in *. intros x Hx. apply filter_In in Hx. apply Hf, Hx.
Qed.

Lemma StronglySorted_map_Sorted {A B} (R : A -> A -> Prop) (S : B -> B -> Prop)
  (f : A -> B) l :
  StronglySorted R l ->
  (forall a b, In a l -> In b l -> R a b -> S (f a) (f b)) ->
  Sorted S (map f l).
Proof.
  induction 1 as [|a l Hs IH Hf]; simpl; intros H; [constructor|].
  constructor.
  - apply IH. intros x y Hx Hy. apply H; right; assumption.
  - destruct l as [|b l]; simpl; constructor.
    apply H; [left; reflexivity|right; left; reflexivity|].
    inversion Hf; assumption.
Qed.

Lemma rows_sorted rk tv per_vac :
  StronglySorted (fun a b => final_le a b = true)
    (sort_by _ final_le (join_top rk tv per_vac)).
Proof.
  apply Sorted_StronglySorted; [intros a b c; apply final_le_trans|].
  apply sort_by_sorted, final_le_total.
Qed.

(** *** At most [per_vac] rows of a vacancy *)

Lemma number_rows_count n b l p :
  (List.length (filter (fun r => (r_rn r <=? p)%Z) (number_rows n b l))
   <= Z.to_nat (p - n + 1))%nat.
Proof.
  revert n. induction l as [|x xs IH]; simpl; intros n; [lia|].
  specialize (IH (n + 1)%Z).
  destruct (Z.leb_spec n p); simpl; lia.
Qed.

Lemma in_ranked_block sc v x :
  In x (rank_partition (partition_of v sc)) -> s_vacancy_id (r_row x) = v.
Proof.
  intros H. apply in_rank_partition in H as (H & _).
  apply in_partition_of in H. tauto.
Qed.

Lemma ranked_count sc vid p :
  (List.length (filter (fun r => Z.eqb (s_vacancy_id (r_row r)) vid && (r_rn r <=? p)%Z)
             (ranked sc)) <= Z.to_nat p)%nat.
Proof.
  set (F := fun r => Z.eqb (s_vacancy_id (r_row r)) vid && (r_rn r <=? p)%Z).
  assert (Hb : (List.length (filter F (rank_partition (partition_of vid sc)))
                <= Z.to_nat p)%nat).
  { rewrite (filter_ext_in F (fun r => (r_rn r <=? p)%Z)).
    - unfold rank_partition. pose proof (number_rows_count 1 (min_score
        (partition_of vid sc)) (sort_by _ score_le (partition_of vid sc)) p).
      replace (p - 1 + 1)%Z with p in H by lia. exact H.
    - intros x Hx. apply in_ranked_block in Hx. unfold F. rewrite Hx, Z.eqb_refl.
      reflexivity. }
  assert (Ho : forall v, v <> vid -> filter F (rank_partition (partition_of v sc)) = []).
  { intros v Hv. apply filter_all_false. intros x Hx. apply in_ranked_block in Hx.
    unfold F. apply andb_false_intro1. apply Z.eqb_neq. congruence. }
  unfold ranked.
  assert (HU : NoDup (uniq_by Z.eqb [] (map s_vacancy_id sc)))
    by (apply uniq_by_NoDup, Z.eqb_refl).
  enough (forall U, NoDup U ->
    (List.length (filter F (flat_map (fun v => rank_partition (partition_of v sc)) U))
     <= if existsb (Z.eqb vid) U then Z.to_nat p else 0)%nat) as HE.
  { specialize (HE _ HU). destruct (existsb _ _); lia. }
  induction U as [|v U IH]; simpl; intros Hn; [lia|].
  inversion Hn as [|? ? Hv Hn']; subst.
  rewrite filter_app, length_app. specialize (IH Hn').
  destruct (Z.eqb_spec vid v) as [<-|Hne]; simpl.
  - assert (existsb (Z.eqb vid) U = false) as Ef
      by (apply existsb_Zeqb_false; exact Hv).
    rewrite Ef in IH. lia.
  - rewrite Ho by congruence. simpl. exact IH.
Qed.

Lemma join_row_count r tv per_vac vid :
  (List.length (filter (fun o => Z.eqb (o_vacancy_id o) vid)
     (flat_map (fun t =>
        if Z.eqb (s_vacancy_id (r_row r)) (t_vacancy_id t) && (r_rn r <=? per_vac)%Z
        then [out_of r t] else []) tv))
   <= if Z.eqb (s_vacancy_id (r_row r)) vid && (r_rn r <=? per_vac)%Z
      then List.length (filter (fun t => Z.eqb (t_vacancy_id t) vid) tv) else 0)%nat.
Proof.
  induction tv as [|t tv IH]; simpl; [destruct (_ && _); lia|].
  rewrite filter_app, length_app.
  destruct (Z.eqb_spec (s_vacancy_id (r_row r)) vid) as [E1|E1];
  destruct (Z.leb_spec (r_rn r) per_vac) as [E2|E2];
  destruct (Z.eqb_spec (s_vacancy_id (r_row r)) (t_vacancy_id t)) as [E3|E3];
  destruct (Z.eqb_spec (t_vacancy_id t) vid) as [E4|E4];
  simpl in *; rewrite ?E1, ?Z.eqb_refl in *; simpl in *;
  try (apply Z.eqb_neq in E1; rewrite E1 in *); simpl in *; try lia;
  exfalso; congruence.
Qed.

Lemma join_count rk tv per_vac vid :
  (forall v, (List.length (filter (fun t => Z.eqb (t_vacancy_id t) v) tv) <= 1)%nat) ->
  (List.length (filter (fun o => Z.eqb (o_vacancy_id o) vid) (join_top rk tv per_vac))
   <= List.length (filter (fun r => Z.eqb (s_vacancy_id (r_row r)) vid
                               && (r_rn r <=? per_vac)%Z) rk))%nat.
Proof.
  intros Htv. induction rk as [|r rk IH]; simpl; [lia|].
  unfold join_top in *. simpl. rewrite filter_app, length_app.
  pose proof (join_row_count r tv per_vac vid) as H. specialize (Htv vid).
  destruct (_ && _); simpl in *; lia.
Qed.

Lemma top_eqb_refl t : top_eqb t t = true.
Proof.
  unfold top_eqb, meta_eqb. rewrite Z.eqb_refl, !String.eqb_refl, Qeq_bool_refl.
  reflexivity.
Qed.

Lemma top_vacs_NoDup rk k tv : top_vacs rk k = Some tv -> NoDup tv.
Proof.
  unfold top_vacs. intros E. apply sql_limit_some in E as [_ ->].
  match goal with |- NoDup (firstn ?n ?l) =>
    apply (NoDup_app_remove_r _ (skipn n l)); rewrite firstn_skipn end.
  eapply Permutation_NoDup; [apply sort_by_perm|].
  apply uniq_by_NoDup, top_eqb_refl.
Qed.

(** [top_vacs] has one row per vacancy: [select distinct] merges the
    rows of a vacancy, which agree on all three columns. *)
Lemma top_vacs_one v q q_vec d cand sc k tv vid :
  scored v q q_vec d cand = Some sc -> top_vacs (ranked sc) k = Some tv ->
  (List.length (filter (fun t => Z.eqb (t_vacancy_id t) vid) tv) <= 1)%nat.
Proof.
  intros Hs Ht. pose proof (NoDup_filter (fun t => Z.eqb (t_vacancy_id t) vid)
                              (top_vacs_NoDup _ _ _ Ht)) as Hn.
  assert (Hin : forall t, In t (filter (fun t => Z.eqb (t_vacancy_id t) vid) tv) ->
    exists r, In r (ranked sc) /\ t = to_top r /\ s_vacancy_id (r_row r) = vid).
  { intros t Hx. apply filter_In in Hx as [Hx E]. apply Z.eqb_eq in E.
    destruct (in_top_vacs _ _ _ _ Ht Hx) as (r & Hr & ->). eauto. }
  destruct (filter _ tv) as [|a [|b rest]]; simpl; [lia|lia|exfalso].
  destruct (Hin a (or_introl eq_refl)) as (ra & Ha & -> & Ea).
  destruct (Hin b (or_intror (or_introl eq_refl))) as (rb & Hb & -> & Eb).
  assert (to_top ra = to_top rb) as Eq.
  { apply in_ranked in Ha as (_ & Ha & Ba & _).
    apply in_ranked in Hb as (_ & Hb & Bb & _).
    pose proof (scored_meta _ _ _ _ _ _ _ Hs Ha) as Ma.
    pose proof (scored_meta _ _ _ _ _ _ _ Hs Hb) as Mb.
    unfold to_top. rewrite Ba, Bb, Ea, Eb. rewrite Eb in Mb. rewrite Ea, Mb in Ma.
    injection Ma as ->. reflexivity. }
  inversion Hn as [|? ? Hnot]; subst. apply Hnot. rewrite Eq. left. reflexivity.
Qed.

(** *** From [search] to the rows of the query *)

Lemma search_rows d q k per_vac cand kw_weight max_quote do_highlight resp :
  search d q k per_vac cand kw_weight max_quote do_highlight = Some resp ->
  exists sc tv rows,
    candidate_pool d q cand kw_weight = Some sc
    /\ top_vacs (ranked sc) k = Some tv
    /\ rows = sort_by _ final_le (join_top (ranked sc) tv per_vac)
    /\ results resp
       = map (fun x => format_item (Keywords.extract_query_keywords q 12)
                         max_quote do_highlight (item_of rows x))
           (first_rows rows).
Proof.
  intros H. apply search_spec in H. cbv zeta in H.
  destruct H as (rows & Hq & _ & _ & Hr).
  apply run_query_inv in Hq as (sc & tv & Hs & Ht & Hrows).
  exists sc, tv, rows. auto.
Qed.

Lemma in_results_item rows kws max_quote do_highlight it :
  In it (map (fun x => format_item kws max_quote do_highlight (item_of rows x))
           (first_rows rows)) ->
  exists x, In x rows /\ v_vacancy_id it = o_vacancy_id x
    /\ v_best_score it = o_best x
    /\ map e_score (v_evidence it) = map o_score (filter (same_vac x) rows)
    /\ List.length (v_evidence it) = List.length (filter (same_vac x) rows)
    /\ forall e, In e (v_evidence it) ->
       exists o, In o rows /\ e_dist e = o_dist o /\ e_kw_sim e = o_kw_sim o
         /\ e_score e = o_score o.
Proof.
  intros H. apply in_map_iff in H as [x [<- Hx]].
  apply in_first_rows in Hx. exists x. simpl.
  split; [exact Hx|split; [reflexivity|split; [reflexivity|split]]].
  - rewrite !map_map. reflexivity.
  - split; [rewrite !length_map; reflexivity|].
    intros e He. apply in_map_iff in He as [ev [<- He]].
    apply in_map_iff in He as [o [<- Ho]]. apply filter_In in Ho as [Ho _].
    exists o. simpl. auto.
Qed.

(** Rows of the [NO_TRGM] statement carry [kw_sim = 0] and
    [score = dist]. *)
Lemma no_trgm_rows q q_vec d cand k per_vac rows o :
  run_query NO_TRGM q q_vec d cand k per_vac = Some rows -> In o rows ->
  o_score o = o_dist o /\ o_kw_sim o = 0%Q.
Proof.
  intros Hq Ho. apply run_query_inv in Hq as (sc & tv & Hs & Ht & ->).
  destruct (out_row_origin _ _ _ _ _ _ _ _ _ _ Hs Ht Ho)
    as (r & Hr & _ & _ & E1 & E2 & E3 & _).
  apply in_ranked in Hr as (_ & Hr & _).
  eapply in_scored in Hr; [|exact Hs].
  apply in_joined_rows in Hr as (c & m & e & _ & _ & _ & Er).
  rewrite E1, E2, E3, Er. split; reflexivity.
Qed.

Lemma search_distance_only d q k per_vac cand kw_weight max_quote do_highlight
    resp :
  search d q k per_vac cand kw_weight max_quote do_highlight = Some resp ->
  pg_trgm d && gt0 (if pg_trgm d then kw_weight else 0%Q) = false ->
  hybrid_used resp = false
  /\ forall it e, In it (results resp) -> In e (v_evidence it) ->
     e_score e = e_dist e /\ e_kw_sim e = 0%Q.
Proof.
  intros H Hc. apply search_spec in H. cbv zeta in H.
  destruct H as (rows & Hq & Hh & _ & Hr). rewrite Hc in Hq, Hh.
  split; [exact Hh|]. intros it e Hit He. rewrite Hr in Hit.
  destruct (in_results_item _ _ _ _ _ Hit) as (x & _ & _ & _ & _ & _ & Hev).
  destruct (Hev e He) as (o & Ho & E1 & E2 & E3).
  destruct (no_trgm_rows _ _ _ _ _ _ _ _ Hq Ho) as [F1 F2].
  rewrite E1, E2, E3, F1, F2. split; reflexivity.
Qed.


Lemma join_top_nil_rk tv per_vac : join_top [] tv per_vac = [].
Proof. reflexivity. Qed.




Lemma search_negative_k d q k per_vac cand kw_weight max_quote do_highlight :
  (k < 0)%Z -> search d q k per_vac cand kw_weight max_quote do_highlight = None.
Proof.
  intros Hk. unfold search, retrieve_vacancies, run_query. cbv zeta.
  destruct (scored _ _ _ _ _); [|reflexivity].
  unfold top_vacs.
  match goal with |- context [sql_limit k ?l] =>
    rewrite (proj2 (sql_limit_none_iff k l)) by lia end.
  reflexivity.
Qed.

(** ** The claims *)

(** C1: when the caller's weight is 0 or [pg_trgm] is absent, every
    evidence fragment of a result has its combined score equal to its
    cosine distance, and its [kw_sim] field is 0. *)
Theorem zero_weight_distance_only d q k per_vac cand kw_weight max_quote
    do_highlight resp :
  ((kw_weight == 0)%Q \/ pg_trgm d = false) ->
  search d q k per_vac cand kw_weight max_quote do_highlight = Some resp ->
  forall it e, In it (results resp) -> In e (v_evidence it) ->
  e_score e = e_dist e /\ e_kw_sim e = 0%Q.
Proof.
  intros Hw H. apply (search_distance_only _ _ _ _ _ _ _ _ _ H).
  destruct (pg_trgm d); [|reflexivity].
  destruct Hw as [Hw|Hw]; [|discriminate]. simpl. unfold gt0.
  rewrite Hw. reflexivity.
Qed.

(** C2: without [pg_trgm] the effective weight is 0, [hybrid_used] is
    false and the scores are distance-only, whatever the caller's weight. *)
Theorem no_trgm_downgrade d q k per_vac cand kw_weight max_quote do_highlight
    resp :
  pg_trgm d = false ->
  search d q k per_vac cand kw_weight max_quote do_highlight = Some resp ->
  kw_weight_used resp = 0%Q /\ hybrid_used resp = false
  /\ forall it e, In it (results resp) -> In e (v_evidence it) ->
     e_score e = e_dist e /\ e_kw_sim e = 0%Q.
Proof.
  intros Ht H.
  destruct (search_distance_only _ _ _ _ _ _ _ _ _ H) as [Hh He];
    [rewrite Ht; reflexivity|].
  apply search_spec in H. cbv zeta in H. destruct H as (rows & _ & _ & Hw & _).
  rewrite Ht in Hw. auto.
Qed.

(** C3: the vacancy ids of the results are pairwise distinct. *)
Theorem results_unique_ids d q k per_vac cand kw_weight max_quote do_highlight
    resp :
  search d q k per_vac cand kw_weight max_quote do_highlight = Some resp ->
  NoDup (map v_vacancy_id (results resp)).
Proof.
  intros H. apply search_spec in H. cbv zeta in H.
  destruct H as (rows & _ & _ & _ & ->). rewrite map_map. simpl.
  apply first_rows_key_NoDup.
Qed.

(** C4 (amended): the results are sorted by [best_score] ascending; the
    order among equal scores is the one [order by t.best_score asc,
    r.rn asc] happens to produce, which the statement does not fix. *)
Theorem results_sorted_by_best d q k per_vac cand kw_weight max_quote
    do_highlight resp :
  search d q k per_vac cand kw_weight max_quote do_highlight = Some resp ->
  Sorted Qle (map v_best_score (results resp)).
Proof.
  intros H. apply search_rows in H as (sc & tv & rows & _ & _ & Hrows & ->).
  rewrite map_map. simpl. unfold first_rows.
  apply (StronglySorted_map_Sorted (fun a b => final_le a b = true)).
  - apply uniq_by_StronglySorted. rewrite Hrows. apply rows_sorted.
  - intros a b _ _. apply final_le_best.
Qed.

(** C5: within each result, the evidence is sorted by combined score
    ascending and holds at most [per_vac] fragments, and [best_score] is
    the least combined score among the vacancy's fragments in the
    candidate pool. *)
Theorem evidence_per_vacancy d q k per_vac cand kw_weight max_quote do_highlight
    resp sc it :
  search d q k per_vac cand kw_weight max_quote do_highlight = Some resp ->
  candidate_pool d q cand kw_weight = Some sc ->
  In it (results resp) ->
  Sorted Qle (map e_score (v_evidence it))
  /\ (Z.of_nat (List.length (v_evidence it)) <= per_vac)%Z
  /\ In (v_best_score it) (map s_score (partition_of (v_vacancy_id it) sc))
  /\ (forall r, In r sc -> s_vacancy_id r = v_vacancy_id it ->
      (v_best_score it <= s_score r)%Q).
Proof.
  intros H Hpool Hit.
  apply search_rows in H as (sc' & tv & rows & Hp' & Ht & Hrows & Hres).
  rewrite Hpool in Hp'. injection Hp' as <-.
  unfold candidate_pool in Hpool. cbv zeta in Hpool.
  rewrite Hres in Hit.
  destruct (in_results_item _ _ _ _ _ Hit) as (x & Hx & Eid & Eb & Es & El & _).
  assert (Horig : forall o, In o rows -> exists r, In r (ranked sc)
    /\ o_vacancy_id o = s_vacancy_id (r_row r)
    /\ o_rn o = r_rn r /\ o_score o = s_score (r_row r)
    /\ o_dist o = s_dist (r_row r) /\ o_kw_sim o = s_kw_sim (r_row r)
    /\ (r_rn r <= per_vac)%Z
    /\ o_best o = min_score (partition_of (o_vacancy_id o) sc)).
  { intros o Ho. rewrite Hrows in Ho. exact (out_row_origin _ _ _ _ _ _ _ _ _ _
      Hpool Ht Ho). }
  split; [|split; [|split]].
  - rewrite Es. apply (StronglySorted_map_Sorted (fun a b => final_le a b = true)).
    + apply StronglySorted_filter. rewrite Hrows. apply rows_sorted.
    + intros a b Ha Hb Hab.
      apply filter_In in Ha as [Ha Sa]. apply filter_In in Hb as [Hb Sb].
      unfold same_vac in Sa, Sb. apply Z.eqb_eq in Sa, Sb.
      destruct (Horig a Ha) as (ra & Hra & Va & Ra & Ca & _ & _ & _ & Ba).
      destruct (Horig b Hb) as (rb & Hrb & Vb & Rb & Cb & _ & _ & _ & Bb).
      assert (o_best a = o_best b) as EB by (rewrite Ba, Bb, <- Sa, <- Sb; reflexivity).
      unfold final_le in Hab. rewrite EB, Qeq_bool_refl in Hab.
      apply Z.leb_le in Hab. rewrite Ca, Cb.
      apply in_ranked in Hra as (Hra & _). apply in_ranked in Hrb as (Hrb & _).
      rewrite <- Va in Hra. rewrite <- Vb, <- Sb, Sa in Hrb.
      apply (rank_partition_score_mono _ _ _ Hra Hrb). lia.
  - rewrite El.
    assert (Hpos : (0 < List.length (filter (same_vac x) rows))%nat).
    { destruct (filter (same_vac x) rows) eqn:E; simpl; [|lia].
      assert (In x (filter (same_vac x) rows)) as Hin
        by (apply filter_In; split; [exact Hx|apply same_vac_refl]).
      rewrite E in Hin. contradiction. }
    assert (filter (same_vac x) rows
            = filter (fun o => Z.eqb (o_vacancy_id o) (o_vacancy_id x)) rows) as Ef
      by (apply filter_ext; intros o; apply Z.eqb_sym).
    rewrite Ef in *.
    assert (Hle : (List.length (filter (fun o => Z.eqb (o_vacancy_id o) (o_vacancy_id x))
                    rows) <= Z.to_nat per_vac)%nat).
    { rewrite Hrows. erewrite <- Permutation_length;
        [|apply Permutation_filter', sort_by_perm].
      eapply Nat.le_trans; [apply join_count|apply ranked_count].
      intros v. eapply top_vacs_one; eassumption. }
    lia.
  - rewrite Eid, Eb.
    destruct (Horig x Hx) as (rx & Hrx & Vx & _ & _ & _ & _ & _ & Bx).
    rewrite Bx. apply min_score_spec.
    apply in_ranked in Hrx as (_ & Hrx & _).
    intros E. assert (In (r_row rx) (partition_of (o_vacancy_id x) sc)) as Hin
      by (apply in_partition_of; auto). rewrite E in Hin. contradiction.
  - intros r Hr Er. rewrite Eid in Er. rewrite Eb.
    destruct (Horig x Hx) as (rx & _ & _ & _ & _ & _ & _ & _ & Bx).
    rewrite Bx. apply min_score_spec.
    + intros E. assert (In r (partition_of (o_vacancy_id x) sc)) as Hin
        by (apply in_partition_of; auto). rewrite E in Hin. contradiction.
    + apply in_partition_of; auto.
Qed.


(** C10: a weight [<= 0] selects the distance-only statement even with
    [pg_trgm] installed: scores are distances, [kw_sim] is 0 and
    [hybrid_used] is false. *)
Theorem nonpositive_weight_distance_only d q k per_vac cand kw_weight max_quote
    do_highlight resp :
  (kw_weight <= 0)%Q ->
  search d q k per_vac cand kw_weight max_quote do_highlight = Some resp ->
  hybrid_used resp = false
  /\ forall it e, In it (results resp) -> In e (v_evidence it) ->
     e_score e = e_dist e /\ e_kw_sim e = 0%Q.
Proof.
  intros Hw H. apply (search_distance_only _ _ _ _ _ _ _ _ _ H).
  destruct (pg_trgm d); [|reflexivity]. simpl. unfold gt0.
  apply Qle_bool_iff in Hw. rewrite Hw. reflexivity.
Qed.

(** *** Where the results of a search come from *)


Lemma s_dist_scored_columns v q q_vec c m e :
  s_dist (scored_columns v q q_vec c m e) = cosine_distance e q_vec.
Proof. destruct v; reflexivity. Qed.

(** Each row of the final [select] is a chunk with an embedding, joined
    with its vacancy, with the columns the [scored] CTE computes. *)
Lemma row_source v q q_vec d cand k per_vac rows o :
  run_query v q q_vec d cand k per_vac = Some rows -> In o rows ->
  exists c m e, In c (vacancy_chunks d) /\ c_embedding c = Some e
    /\ vacancies d (c_vacancy_id c) = Some m
    /\ o_vacancy_id o = c_vacancy_id c /\ o_meta o = m
    /\ o_chunk_no o = c_chunk_no c /\ o_text o = c_text c
    /\ o_dist o = s_dist (scored_columns v q q_vec c m e)
    /\ o_kw_sim o = s_kw_sim (scored_columns v q q_vec c m e)
    /\ o_score o = s_score (scored_columns v q q_vec c m e)
    /\ (1 <= o_rn o <= per_vac)%Z.
Proof.
  intros Hq Ho. apply run_query_inv in Hq as (sc & tv & Hs & Ht & ->).
  apply in_sort_by, in_join_top in Ho as (r & t & Hr & _ & _ & Hp & ->).
  apply in_ranked in Hr as (_ & Hr & _ & H1).
  eapply in_scored in Hr; [|exact Hs].
  apply in_joined_rows in Hr as (c & m & e & Hc & He & Hm & Er).
  exists c, m, e. unfold out_of. rewrite Er.
  destruct v; simpl; repeat split; auto; lia.
Qed.

Lemma search_items d q k per_vac cand kw_weight max_quote do_highlight resp it :
  search d q k per_vac cand kw_weight max_quote do_highlight = Some resp ->
  In it (results resp) ->
  let trgm := pg_trgm d in
  let w := if trgm then kw_weight else 0%Q in
  exists rows x,
    run_query (if trgm && gt0 w then WITH_TRGM w else NO_TRGM) q (embed q) d
      cand k per_vac = Some rows
    /\ hybrid_used resp = trgm && gt0 w
    /\ kw_weight_used resp = w
    /\ In x rows
    /\ it = format_item (Keywords.extract_query_keywords q 12) max_quote
              do_highlight (item_of rows x).
Proof.
  intros H Hit. apply search_spec in H. cbv zeta in *.
  destruct H as (rows & Hq & Hh & Hw & Hr). rewrite Hr in Hit.
  apply in_map_iff in Hit as [x [<- Hx]].
  exists rows, x. repeat split; auto. apply in_first_rows. exact Hx.
Qed.

Lemma in_item_evidence kws max_quote do_highlight rows x e :
  In e (v_evidence (format_item kws max_quote do_highlight (item_of rows x))) ->
  exists o, In o rows /\ o_vacancy_id o = o_vacancy_id x
    /\ e = mk_evidence (o_chunk_no o)
             (Text.format_evidence (o_text o) kws max_quote do_highlight)
             (o_dist o) (o_kw_sim o) (o_score o) (o_rn o).
Proof.
  simpl. intros He. apply in_map_iff in He as [ev [<- He]].
  apply in_map_iff in He as [o [<- Ho]]. apply filter_In in Ho as [Ho E].
  unfold same_vac in E. apply Z.eqb_eq in E.
  exists o. auto.
Qed.


(** A search returns at most [k] vacancies. *)
Theorem results_at_most_k d q k per_vac cand kw_weight max_quote do_highlight
    resp :
  search d q k per_vac cand kw_weight max_quote do_highlight = Some resp ->
  (Z.of_nat (List.length (results resp)) <= k)%Z.
Proof.
  intros H. apply search_rows in H as (sc & tv & rows & _ & Ht & Hrows & ->).
  rewrite length_map.
  assert (Hk : (0 <= k)%Z /\ (List.length tv <= Z.to_nat k)%nat).
  { unfold top_vacs in Ht. apply sql_limit_some in Ht as [Hk0 ->].
    split; [lia|]. rewrite length_firstn. lia. }
  assert (Hincl : incl (map o_vacancy_id (first_rows rows)) (map t_vacancy_id tv)).
  { intros v Hv. apply in_map_iff in Hv as [o [<- Ho]].
    apply in_first_rows in Ho. rewrite Hrows in Ho.
    apply in_sort_by, in_join_top in Ho as (r & t & _ & Htv & E & _ & ->).
    simpl. rewrite E. apply in_map. exact Htv. }
  pose proof (NoDup_incl_length (first_rows_key_NoDup rows) Hincl) as Hl.
  rewrite !length_map in Hl. lia.
Qed.

(** Every vacancy of a search result shows at least one evidence
    fragment, and every fragment has its [rank_in_vacancy] between 1 and
    [per_vac]. *)
Theorem evidence_nonempty_ranked d q k per_vac cand kw_weight max_quote
    do_highlight resp it :
  search d q k per_vac cand kw_weight max_quote do_highlight = Some resp ->
  In it (results resp) ->
  v_evidence it <> []
  /\ forall e, In e (v_evidence it) -> (1 <= e_rank_in_vacancy e <= per_vac)%Z.
Proof.
  intros H Hit. destruct (search_items _ _ _ _ _ _ _ _ _ _ H Hit)
    as (rows & x & Hq & _ & _ & Hx & ->).
  split.
  - simpl. intros E. apply map_eq_nil, map_eq_nil in E.
    assert (Hin : In x (filter (same_vac x) rows))
      by (apply filter_In; split; [exact Hx|apply same_vac_refl]).
    rewrite E in Hin. contradiction.
  - intros e He. apply in_item_evidence in He as (o & Ho & _ & ->). simpl.
    destruct (row_source _ _ _ _ _ _ _ _ _ Hq Ho)
      as (c & m & e' & _ & _ & _ & _ & _ & _ & _ & _ & _ & _ & Hrn).
    exact Hrn.
Qed.

(** Every result is a vacancy of the [vacancies] table with its stored
    name, employer, area and url; every evidence fragment is the
    formatted text of a chunk of that vacancy that has an embedding, with
    that chunk's number and its cosine distance to the query. *)
Theorem evidence_provenance d q k per_vac cand kw_weight max_quote do_highlight
    resp it e :
  search d q k per_vac cand kw_weight max_quote do_highlight = Some resp ->
  In it (results resp) -> In e (v_evidence it) ->
  vacancies d (v_vacancy_id it) = Some (v_meta it)
  /\ exists c emb, In c (vacancy_chunks d) /\ c_vacancy_id c = v_vacancy_id it
     /\ c_embedding c = Some emb /\ e_chunk_no e = c_chunk_no c
     /\ e_text e = Text.format_evidence (c_text c)
                     (Keywords.extract_query_keywords q 12) max_quote do_highlight
     /\ e_dist e = cosine_distance emb (embed q).
Proof.
  intros H Hit He. destruct (search_items _ _ _ _ _ _ _ _ _ _ H Hit)
    as (rows & x & Hq & _ & _ & Hx & ->).
  split.
  - destruct (row_source _ _ _ _ _ _ _ _ _ Hq Hx)
      as (c & m & e' & _ & _ & Hm & Ev & Em & _).
    simpl. rewrite Ev, Em. exact Hm.
  - apply in_item_evidence in He as (o & Ho & Eo & ->).
    destruct (row_source _ _ _ _ _ _ _ _ _ Hq Ho)
      as (c & m & emb & Hc & He & _ & Ev & _ & Ec & Et & Ed & _).
    exists c, emb. simpl. rewrite <- Eo, Ev, Ec, Et, Ed, s_dist_scored_columns.
    repeat split; assumption.
Qed.

(** In hybrid mode every evidence fragment has the combined score
    [dist - kw_weight_used * kw_sim], where [kw_sim] is the trigram
    similarity of the lower-cased chunk text and the lower-cased query. *)
Theorem hybrid_scores d q k per_vac cand kw_weight max_quote do_highlight
    resp it e :
  search d q k per_vac cand kw_weight max_quote do_highlight = Some resp ->
  hybrid_used resp = true -> In it (results resp) -> In e (v_evidence it) ->
  e_score e = (e_dist e - kw_weight_used resp * e_kw_sim e)%Q
  /\ exists c, In c (vacancy_chunks d) /\ c_vacancy_id c = v_vacancy_id it
     /\ c_chunk_no c = e_chunk_no e
     /\ e_kw_sim e = similarity (Text.str_lower (c_text c)) (Text.str_lower q).
Proof.
  intros H Hh Hit He. destruct (search_items _ _ _ _ _ _ _ _ _ _ H Hit)
    as (rows & x & Hq & Eh & Ew & Hx & ->).
  rewrite Eh in Hh. rewrite Hh in Hq. rewrite Ew.
  apply in_item_evidence in He as (o & Ho & Eo & ->).
  destruct (row_source _ _ _ _ _ _ _ _ _ Hq Ho)
    as (c & m & emb & Hc & _ & _ & Ev & _ & Ec & _ & Ed & Ek & Es & _).
  simpl in *. rewrite Ed, Ek, Es. split; [reflexivity|].
  exists c. rewrite <- Eo, Ev, Ec. repeat split; assumption.
Qed.

(** *** Ranks inside a vacancy *)

Lemma number_rows_rn_NoDup n b l : NoDup (map r_rn (number_rows n b l)).
Proof.
  revert n. induction l as [|x xs IH]; simpl; intros n; constructor; [|apply IH].
  intros Hin. apply in_map_iff in Hin as [y [Ey Hy]].
  apply in_number_rows in Hy as (_ & _ & Hy). lia.
Qed.

Lemma NoDup_map_filter {A B} (f : A -> B) (P : A -> bool) l :
  NoDup (map f l) -> NoDup (map f (filter P l)).
Proof.
  induction l as [|a l IH]; simpl; intros H; [constructor|].
  inversion H as [|? ? Hn Hd]; subst. destruct (P a); simpl; [|auto].
  constructor; [|auto]. intros Hin. apply Hn. apply in_map_iff in Hin as [y [Ey Hy]].
  apply filter_In in Hy as [Hy _]. rewrite <- Ey. apply in_map. exact Hy.
Qed.

Lemma ranked_rn_NoDup sc vid :
  NoDup (map r_rn (filter (fun r => Z.eqb (s_vacancy_id (r_row r)) vid) (ranked sc))).
Proof.
  set (F := fun r => Z.eqb (s_vacancy_id (r_row r)) vid).
  unfold ranked.
  assert (HU : NoDup (uniq_by Z.eqb [] (map s_vacancy_id sc)))
    by (apply uniq_by_NoDup, Z.eqb_refl).
  revert HU. induction (uniq_by Z.eqb [] (map s_vacancy_id sc)) as [|v U IH];
    simpl; intros HU; [constructor|].
  inversion HU as [|? ? Hv Hn]; subst.
  rewrite filter_app, map_app.
  destruct (Z.eqb_spec v vid) as [<-|Hne].
  - assert (Hrest : filter F (flat_map (fun v => rank_partition (partition_of v sc)) U)
                    = []).
    { apply filter_all_false. intros x Hx. apply in_flat_map in Hx as [u [Hu Hx]].
      apply in_ranked_block in Hx. unfold F. apply Z.eqb_neq. congruence. }
    rewrite Hrest, app_nil_r. apply NoDup_map_filter, number_rows_rn_NoDup.
  - rewrite (filter_all_false F (rank_partition (partition_of v sc))); [simpl; auto|].
    intros x Hx. apply in_ranked_block in Hx. unfold F. apply Z.eqb_neq. congruence.
Qed.

Lemma join_rn_NoDup rk tv per_vac vid :
  (forall v, (List.length (filter (fun t => Z.eqb (t_vacancy_id t) v) tv) <= 1)%nat) ->
  NoDup (map r_rn (filter (fun r => Z.eqb (s_vacancy_id (r_row r)) vid) rk)) ->
  NoDup (map o_rn (filter (fun o => Z.eqb (o_vacancy_id o) vid)
                     (join_top rk tv per_vac))).
Proof.
  intros Htv. induction rk as [|r rk IH]; simpl; intros Hn; [constructor|].
  unfold join_top in *. simpl. rewrite filter_app, map_app.
  set (B := filter (fun o => Z.eqb (o_vacancy_id o) vid)
              (flat_map (fun t => if Z.eqb (s_vacancy_id (r_row r)) (t_vacancy_id t)
                 && (r_rn r <=? per_vac)%Z then [out_of r t] else []) tv)).
  assert (HB : forall o, In o B -> o_rn o = r_rn r /\ s_vacancy_id (r_row r) = vid).
  { intros o Ho. unfold B in Ho. apply filter_In in Ho as [Ho Ev].
    apply in_flat_map in Ho as [t [_ Ho]].
    destruct (_ && _); [|contradiction]. destruct Ho as [<-|[]].
    apply Z.eqb_eq in Ev. auto. }
  assert (HlB : (List.length B <= 1)%nat).
  { pose proof (join_row_count r tv per_vac vid) as H. fold B in H.
    specialize (Htv vid). destruct (_ && _); lia. }
  assert (Hrest : forall o, In o (filter (fun o => Z.eqb (o_vacancy_id o) vid)
      (flat_map (fun r => flat_map (fun t => if Z.eqb (s_vacancy_id (r_row r))
         (t_vacancy_id t) && (r_rn r <=? per_vac)%Z then [out_of r t] else []) tv) rk))
      -> In (o_rn o) (map r_rn (filter (fun r => Z.eqb (s_vacancy_id (r_row r)) vid) rk))).
  { intros o Ho. apply filter_In in Ho as [Ho Ev].
    apply (in_join_top rk tv per_vac) in Ho as (r' & t & Hr' & _ & _ & _ & ->).
    simpl in *. apply in_map. apply filter_In. split; [exact Hr'|exact Ev]. }
  destruct (Z.eqb_spec (s_vacancy_id (r_row r)) vid) as [E|E].
  - inversion Hn as [|? ? Hnin Hn']; subst.
    destruct B as [|o [|o2 B']]; simpl in *; [apply IH; exact Hn'| |lia].
    constructor; [|apply IH; exact Hn'].
    destruct (HB o (or_introl eq_refl)) as [Eo _]. rewrite Eo.
    intros Hin. apply in_map_iff in Hin as [o' [Eo' Ho']].
    apply Hrest in Ho'. rewrite Eo' in Ho'. contradiction.
  - destruct B as [|o B']; simpl; [apply IH; exact Hn|].
    exfalso. destruct (HB o (or_introl eq_refl)) as [_ E']. contradiction.
Qed.

Lemma StronglySorted_map {A B} (R : A -> A -> Prop) (S : B -> B -> Prop)
  (f : A -> B) l :
  StronglySorted R l ->
  (forall a b, In a l -> In b l -> R a b -> S (f a) (f b)) ->
  StronglySorted S (map f l).
Proof.
  induction 1 as [|a l Hs IH Hf]; simpl; intros H; [constructor|].
  constructor.
  - apply IH. intros x y Hx Hy. apply H; right; assumption.
  - rewrite Forall_forall in *. intros y Hy. apply in_map_iff in Hy as [b [<- Hb]].
    apply H; [left; reflexivity|right; exact Hb|apply Hf, Hb].
Qed.

Lemma StronglySorted_le_NoDup_lt l :
  StronglySorted Z.le l -> NoDup l -> Sorted Z.lt l.
Proof.
  induction 1 as [|a l Hs IH Hf]; intros Hn; [constructor|].
  inversion Hn as [|? ? Ha Hn']; subst. constructor; [apply IH, Hn'|].
  destruct l as [|b l]; constructor.
  inversion Hf; subst. assert (a <> b) by (intros ->; apply Ha; left; reflexivity).
  lia.
Qed.

(** Within each result, the evidence fragments have strictly increasing
    [rank_in_vacancy]: no rank is shown twice. *)
Theorem evidence_ranks_increasing d q k per_vac cand kw_weight max_quote
    do_highlight resp it :
  search d q k per_vac cand kw_weight max_quote do_highlight = Some resp ->
  In it (results resp) ->
  Sorted Z.lt (map e_rank_in_vacancy (v_evidence it)).
Proof.
  intros H Hit. apply search_rows in H as (sc & tv & rows & Hpool & Ht & Hrows & Hr).
  unfold candidate_pool in Hpool. cbv zeta in Hpool.
  rewrite Hr in Hit. apply in_map_iff in Hit as [x [<- Hx]].
  simpl. rewrite !map_map. simpl.
  set (vid := o_vacancy_id x).
  assert (Ef : filter (same_vac x) rows
               = filter (fun o => Z.eqb (o_vacancy_id o) vid) rows).
  { apply filter_ext. intros o. unfold same_vac, vid. apply Z.eqb_sym. }
  rewrite Ef. apply StronglySorted_le_NoDup_lt.
  - apply (StronglySorted_map (fun a b => final_le a b = true)).
    + rewrite Hrows. apply StronglySorted_filter, rows_sorted.
    + intros a b Ha Hb Hab. apply filter_In in Ha as [Ha Ea].
      apply filter_In in Hb as [Hb Eb]. apply Z.eqb_eq in Ea, Eb.
      rewrite Hrows in Ha, Hb.
      destruct (out_row_origin _ _ _ _ _ _ _ _ _ _ Hpool Ht Ha)
        as (_ & _ & _ & _ & _ & _ & _ & _ & Ba).
      destruct (out_row_origin _ _ _ _ _ _ _ _ _ _ Hpool Ht Hb)
        as (_ & _ & _ & _ & _ & _ & _ & _ & Bb).
      unfold final_le in Hab. rewrite Ba, Bb, Ea, Eb, Qeq_bool_refl in Hab.
      apply Z.leb_le. exact Hab.
  - rewrite Hrows. eapply Permutation_NoDup.
    + apply Permutation_map, Permutation_filter', sort_by_perm.
    + apply join_rn_NoDup; [|apply ranked_rn_NoDup].
      intros v. eapply top_vacs_one; eassumption.
Qed.

(** *** [ask] *)

Lemma ask_spec d q k per_vac cand kw_weight max_quote do_highlight r :
  ask d q k per_vac cand kw_weight max_quote do_highlight = Some r ->
  let trgm := pg_trgm d in
  let w := if trgm then kw_weight else 0%Q in
  let kws := Keywords.extract_query_keywords q 12 in
  exists rows,
    run_query (if trgm && gt0 w then WITH_TRGM w else NO_TRGM) q (embed q) d
      cand k per_vac = Some rows
    /\ ask_results r
       = map (fun x => mk_ask_item
                (format_item kws max_quote do_highlight (item_of rows x))
                (ask_why kws (item_of rows x))) (first_rows rows)
    /\ ask_summary r
       = ask_summary_of kws (Keywords.most_common
           (flat_map (fun it => flat_map (fun ev =>
              Text.extract_tech_terms (e_text ev)) (v_evidence it))
              (map (item_of rows) (first_rows rows))) 10).
Proof.
  unfold ask, retrieve_vacancies. simpl.
  destruct (run_query _ _ _ _ _ _ _) as [rows|] eqn:Hq; [|discriminate].
  rewrite fold_add_row.
  rewrite uniq_by_Z_NoDup_id; [|apply first_rows_key_NoDup|intros ? ? []].
  rewrite map_lookup_first_rows. intros [= <-]. exists rows. simpl.
  split; [reflexivity|split; [|reflexivity]]. rewrite map_map. reflexivity.
Qed.

Lemma str_lower_concat_space l :
  Text.str_lower (String.concat " " l) = String.concat " " (map Text.str_lower l).
Proof.
  induction l as [|x l IH]; [reflexivity|].
  destruct l as [|y l]; [reflexivity|].
  change (String.concat " " (x :: y :: l))
    with (x ++ String " " (String.concat " " (y :: l)))%string.
  change (map Text.str_lower (x :: y :: l))
    with (Text.str_lower x :: map Text.str_lower (y :: l)).
  change (String.concat " " (Text.str_lower x :: map Text.str_lower (y :: l)))
    with (Text.str_lower x ++ String " " (String.concat " " (map Text.str_lower (y :: l))))%string.
  rewrite Text.str_lower_app_space, IH. reflexivity.
Qed.

Lemma prefix_token_app_space x a b :
  ~ In 32%Z (Utf8.str_bytes x) ->
  String.prefix x (a ++ String " " b) = true -> String.prefix x a = true.
Proof.
  revert a. induction x as [|c x IH]; intros a Hx H; [destruct a; reflexivity|].
  simpl in Hx. assert (Hc : c <> " "%char) by (intros ->; apply Hx; left; reflexivity).
  assert (Hx' : ~ In 32%Z (Utf8.str_bytes x)) by (intros H'; apply Hx; right; exact H').
  destruct a as [|d a]; simpl in *.
  - destruct (ascii_dec c " "); [contradiction|discriminate].
  - destruct (ascii_dec c d); [|discriminate]. apply IH; [exact Hx'|exact H].
Qed.

Lemma contains_token_app_space x a b :
  ~ In 32%Z (Utf8.str_bytes x) ->
  str_contains x (a ++ String " " b) = true ->
  str_contains x a = true \/ str_contains x b = true.
Proof.
  intros Hx. induction a as [|d a IH]; simpl; intros H.
  - destruct x as [|c x]; [left; reflexivity|].
    simpl in Hx. assert (Hc : c <> " "%char) by (intros ->; apply Hx; left; reflexivity).
    simpl in H. destruct (ascii_dec c " "); [contradiction|].
    right. exact H.
  - apply orb_prop in H as [H|H].
    + left. apply orb_true_intro. left.
      exact (prefix_token_app_space x (String d a) b Hx H).
    + destruct (IH H) as [H'|H']; [left|right; exact H'].
      apply orb_true_intro. right. exact H'.
Qed.

Lemma contains_token_concat x l :
  ~ In 32%Z (Utf8.str_bytes x) -> x <> EmptyString ->
  str_contains x (String.concat " " l) = true ->
  exists y, In y l /\ str_contains x y = true.
Proof.
  intros Hx Hne. induction l as [|y l IH]; intros H.
  - destruct x; [contradiction|discriminate].
  - destruct l as [|z l].
    + exists y. split; [left; reflexivity|exact H].
    + change (String.concat " " (y :: z :: l))
        with (y ++ String " " (String.concat " " (z :: l)))%string in H.
      destruct (contains_token_app_space _ _ _ Hx H) as [H'|H'].
      * exists y. split; [left; reflexivity|exact H'].
      * destruct (IH H') as [y' [Hy' Ey']]. exists y'. split; [right|]; assumption.
Qed.

Lemma keyword_no_space q n y : In y (Keywords.extract_query_keywords q n) ->
  ~ In 32%Z (Utf8.str_bytes y) /\ y <> EmptyString.
Proof.
  intros Hin. destruct (Keywords.query_keywords_props q n) as (_ & _ & Hk).
  cbv zeta in Hk. destruct (Hk y Hin) as (t & Et & Ed & H3 & HP & _).
  assert (Hv : Forall (fun c => Utf8.valid_cp c = true) t)
    by (rewrite <- Ed; apply Utf8.decode_valid).
  split.
  - intros Hb. rewrite Et in Hb.
    pose proof (Utf8.encode_ascii_src t 32%Z Hv Hb ltac:(lia)) as H32.
    rewrite Forall_forall in HP. specialize (HP _ H32). discriminate HP.
  - intros ->. rewrite <- Ed in H3. simpl in H3. lia.
Qed.

(** [ask] returns the same vacancies, in the same order, with the same
    scores and formatted evidence, and the same [hybrid_used] and
    [kw_weight_used], as [search] called with the same arguments; one
    fails exactly when the other does. *)
Theorem ask_matches_search d q k per_vac cand kw_weight max_quote do_highlight :
  option_map (fun r => (ask_query r, ask_hybrid_used r, ask_kw_weight_used r,
                        ask_k r, ask_per_vac r, map a_item (ask_results r)))
    (ask d q k per_vac cand kw_weight max_quote do_highlight)
  = option_map (fun r => (resp_query r, hybrid_used r, kw_weight_used r,
                          resp_k r, resp_per_vac r, results r))
      (search d q k per_vac cand kw_weight max_quote do_highlight).
Proof.
  unfold ask, search.
  destruct (retrieve_vacancies _ _ _ _ _ _) as [[[[order vmap] trgm] w]|];
    [|reflexivity].
  destruct (map_lookup vmap order) as [items|]; [|reflexivity].
  simpl. rewrite map_map. reflexivity.
Qed.

(** Every reason [ask] gives for a vacancy is non-empty. A [query_match]
    reason lists at most 10 of the query keywords, each found in the
    lower-cased text of a chunk of that vacancy; a [tech_terms] reason
    lists at most 12 distinct terms of [TECH_PATTERNS]. *)
Theorem ask_why_reasons d q k per_vac cand kw_weight max_quote do_highlight
    r ai w :
  ask d q k per_vac cand kw_weight max_quote do_highlight = Some r ->
  In ai (ask_results r) -> In w (a_why ai) ->
  why_items w <> []
  /\ ((why_type w = "query_match"%string
       /\ (List.length (why_items w) <= 10)%nat
       /\ forall x, In x (why_items w) ->
          In x (query_keywords (ask_summary r))
          /\ exists c, In c (vacancy_chunks d)
             /\ c_vacancy_id c = v_vacancy_id (a_item ai)
             /\ str_contains x (Text.str_lower (c_text c)) = true)
      \/ (why_type w = "tech_terms"%string
          /\ (List.length (why_items w) <= 12)%nat /\ NoDup (why_items w)
          /\ incl (why_items w) (map Text.pattern_term Text.TECH_PATTERNS))).
Proof.
  intros H Hai Hw. apply ask_spec in H. cbv zeta in H.
  destruct H as (rows & Hq & Hres & Hsum).
  rewrite Hres in Hai. apply in_map_iff in Hai as [x [<- Hx]].
  apply in_first_rows in Hx. simpl in Hw |- *. rewrite Hsum. simpl.
  unfold ask_why in Hw. cbv zeta in Hw.
  set (kws := Keywords.extract_query_keywords q 12) in *.
  set (joined := Text.str_lower (String.concat " "
                   (map e_text (v_evidence (item_of rows x))))) in *.
  apply in_app_or in Hw as [Hw|Hw].
  - destruct (firstn 10 (filter (fun kw => str_contains kw joined) kws))
      as [|a l] eqn:Ek; [contradiction|].
    destruct Hw as [<-|[]]. rewrite <- Ek. cbn [why_items why_type].
    split; [rewrite Ek; discriminate|left].
    split; [reflexivity|]. split; [rewrite length_firstn; lia|].
    intros y Hy.
    assert (Hy' : In y (filter (fun kw => str_contains kw joined) kws))
      by (rewrite <- (firstn_skipn 10 (filter _ kws)); apply in_or_app; left;
          exact Hy).
    apply filter_In in Hy' as [Hin Hc]. split; [exact Hin|].
    destruct (keyword_no_space q 12 y Hin) as [Htok Hne].
    unfold joined in Hc. rewrite str_lower_concat_space in Hc.
    destruct (contains_token_concat y _ Htok Hne Hc) as [t [Ht Hct]].
    apply in_map_iff in Ht as [t0 [<- Ht0]].
    simpl in Ht0. rewrite map_map in Ht0.
    apply in_map_iff in Ht0 as [o [<- Ho]]. apply filter_In in Ho as [Ho Eo].
    destruct (row_source _ _ _ _ _ _ _ _ _ Hq Ho)
      as (c & m & emb & Hc' & _ & _ & Ev & _ & _ & Et & _).
    exists c. split; [exact Hc'|split].
    + simpl. unfold same_vac in Eo. apply Z.eqb_eq in Eo. rewrite Eo, Ev.
      reflexivity.
    + simpl in Hct. rewrite Et in Hct. exact Hct.
  - destruct (firstn 12 (Text.extract_tech_terms joined)) as [|a l] eqn:Et;
      [contradiction|].
    destruct Hw as [<-|[]]. rewrite <- Et. cbn [why_items why_type].
    split; [rewrite Et; discriminate|right].
    split; [reflexivity|].
    destruct (Text.tech_terms_props joined) as (Hn & Hi & _).
    split; [rewrite length_firstn; lia|split].
    + apply (NoDup_app_remove_r _ (skipn 12 (Text.extract_tech_terms joined))).
      rewrite firstn_skipn. exact Hn.
    + intros t Ht. apply Hi. rewrite <- (firstn_skipn 12 (Text.extract_tech_terms joined)).
      apply in_or_app. left. exact Ht.
Qed.

(** The summary of [ask] repeats the keywords of [extract_query_keywords]
    and lists at most 10 distinct technology signals, each a term of
    [TECH_PATTERNS]; its text is the fallback sentence exactly when both
    lists are empty. *)
Theorem ask_summary_shape d q k per_vac cand kw_weight max_quote do_highlight r :
  ask d q k per_vac cand kw_weight max_quote do_highlight = Some r ->
  let s := ask_summary r in
  query_keywords s = Keywords.extract_query_keywords q 12
  /\ (List.length (tech_signals s) <= 10)%nat /\ NoDup (tech_signals s)
  /\ incl (tech_signals s) (map Text.pattern_term Text.TECH_PATTERNS)
  /\ (sum_text s = summary_fallback
      <-> tech_signals s = [] /\ query_keywords s = []).
Proof.
  intros H. apply ask_spec in H. cbv zeta in H |- *.
  destruct H as (rows & _ & _ & ->).
  set (tech := flat_map _ (map (item_of rows) (first_rows rows))).
  assert (Htech : incl tech (map Text.pattern_term Text.TECH_PATTERNS)).
  { intros t Ht. unfold tech in Ht. apply in_flat_map in Ht as [it [_ Ht]].
    apply in_flat_map in Ht as [ev [_ Ht]].
    destruct (Text.tech_terms_props (e_text ev)) as (_ & Hi & _). apply Hi, Ht. }
  destruct (Keywords.most_common_props tech 10) as (Hn & Hi & Hl & _).
  cbv zeta in Hn, Hi, Hl.
  set (sig := Keywords.most_common tech 10) in *.
  set (kws := Keywords.extract_query_keywords q 12).
  unfold ask_summary_of. cbv zeta. cbn [query_keywords tech_signals sum_text].
  split; [reflexivity|split; [rewrite Hl; lia|split; [exact Hn|split]]].
  - intros t Ht. apply Htech, Hi, Ht.
  - unfold summary_fallback. clearbody sig kws.
    destruct sig as [|a l], kws as [|b l']; simpl;
      (split; [intros E; first [discriminate E | split; reflexivity]
              |intros [E1 E2]; first [discriminate E1 | discriminate E2
                                     | reflexivity]]).
Qed.

End Engine.

(* ------------------------------------------------------------------ *)
(** ** The market endpoints *)

Section Market.

(** [order by] of PostgreSQL, as in the section [Engine]. *)
Variable sort_by : forall A : Type, (A -> A -> bool) -> list A -> list A.

(** [market_tech_top]: [counter[t] += 1] for every term of every chunk
    text, then [most_common(limit)] and [len(counter)]. *)
Definition market_tech_top {V} (d : db V) (limit : Z) : list (string * nat) * nat :=
  let terms := flat_map (fun c => Text.extract_tech_terms (c_text c))
                 (vacancy_chunks d) in
  (map (fun t => (t, Keywords.count_of terms t))
     (Keywords.most_common terms (Z.to_nat limit)),
   List.length (Text.uniq_from [] terms)).

(** The tokens of one chunk in [market_keywords]. *)
Definition keyword_tokens (txt : string) : list string :=
  filter Keywords.not_stop (Keywords.tokens_of Keywords.is_token_cp txt).

(** [market_keywords]: [cnt.update(toks)] for every chunk, then
    [most_common(limit)]. *)
Definition market_keywords {V} (d : db V) (limit : Z) : list (string * nat) :=
  let toks := flat_map (fun c => keyword_tokens (c_text c)) (vacancy_chunks d) in
  map (fun t => (t, Keywords.count_of toks t))
    (Keywords.most_common toks (Z.to_nat limit)).

(** [group by] a column, with the [count] of each group. *)
Definition group_count {A} (eqb : A -> A -> bool) (vals : list A) : list (A * Z) :=
  map (fun v => (v, Z.of_nat (List.length (filter (eqb v) vals))))
    (uniq_by eqb [] vals).

(** [order by cnt desc] *)
Definition cnt_ge {A} (a b : A * Z) : bool := (snd b <=? snd a)%Z.

(** Equality of nullable text, [NULL] forming one group. *)
Definition opt_str_eqb (a b : option string) : bool :=
  match a, b with
  | Some x, Some y => String.eqb x y
  | None, None => true
  | _, _ => false
  end.

(** [market_geo] over the [area_name] column of [vacancies]. *)
Definition market_geo (area_col : list (option string)) (limit : Z)
  : option (list (option string * Z)) :=
  sql_limit limit (sort_by _ cnt_ge (group_count opt_str_eqb area_col)).

(** [market_employers] over the [employer_name] column of [vacancies]:
    [where employer_name is not null and employer_name <> ''] first. *)
Definition market_employers (employer_col : list (option string)) (limit : Z)
  : option (list (string * Z)) :=
  let names := flat_map (fun e => match e with
                 | Some s => if String.eqb s "" then [] else [s]
                 | None => []
                 end) employer_col in
  sql_limit limit (sort_by _ cnt_ge (group_count String.eqb names)).

Hypothesis sort_by_perm :
  forall A (le : A -> A -> bool) l, Permutation l (sort_by A le l).
Hypothesis sort_by_sorted :
  forall A (le : A -> A -> bool), total le ->
  forall l, Sorted (fun a b => le a b = true) (sort_by A le l).

(** *** Counting *)

Lemma count_of_app l1 l2 w :
  Keywords.count_of (l1 ++ l2) w
  = (Keywords.count_of l1 w + Keywords.count_of l2 w)%nat.
Proof. unfold Keywords.count_of. rewrite filter_app, length_app. reflexivity. Qed.

Lemma count_of_NoDup l w :
  NoDup l -> Keywords.count_of l w = if existsb (String.eqb w) l then 1%nat else 0%nat.
Proof.
  unfold Keywords.count_of. induction l as [|x l IH]; simpl; intros Hn; [reflexivity|].
  inversion Hn as [|? ? Hx Hn']; subst.
  destruct (String.eqb_spec w x) as [<-|Hne]; simpl.
  - rewrite IH by exact Hn'.
    destruct (existsb (String.eqb w) l) eqn:E; [|reflexivity].
    exfalso. apply existsb_exists in E as [y [Hy Ey]].
    apply String.eqb_eq in Ey. subst y. contradiction.
  - apply IH, Hn'.
Qed.

Lemma count_of_pos l w : In w l -> (1 <= Keywords.count_of l w)%nat.
Proof.
  unfold Keywords.count_of. intros H.
  destruct (filter (String.eqb w) l) eqn:E; simpl; [|lia].
  assert (Hin : In w (filter (String.eqb w) l))
    by (apply filter_In; split; [exact H|apply String.eqb_refl]).
  rewrite E in Hin. contradiction.
Qed.

Lemma count_of_absent l w : ~ In w l -> Keywords.count_of l w = 0%nat.
Proof.
  unfold Keywords.count_of. intros H. rewrite filter_all_false; [reflexivity|].
  intros z Hz. destruct (String.eqb_spec w z) as [<-|]; [contradiction|reflexivity].
Qed.

(** A term's count in [market_tech_top] is the number of chunks whose
    extracted terms contain it, as [extract_tech_terms] lists a term once. *)
Lemma tech_count_chunks {V} (cs : list (chunk V)) t :
  Keywords.count_of (flat_map (fun c => Text.extract_tech_terms (c_text c)) cs) t
  = List.length (filter (fun c => existsb (String.eqb t)
                   (Text.extract_tech_terms (c_text c))) cs).
Proof.
  induction cs as [|c cs IH]; simpl; [reflexivity|].
  rewrite count_of_app, IH, count_of_NoDup
    by apply (proj1 (Text.tech_terms_props (c_text c))).
  destruct (existsb _ _); reflexivity.
Qed.

Lemma Sorted_map_rel {A B} (P : A -> A -> Prop) (R : B -> B -> Prop) (f : A -> B) l :
  (forall a b, P a b -> R (f a) (f b)) -> Sorted P l -> Sorted R (map f l).
Proof.
  intros HPR. induction 1 as [|a l Hs IH Hh]; simpl; constructor; [exact IH|].
  destruct Hh; simpl; constructor. apply HPR. assumption.
Qed.

Lemma firstn_Sorted {A} (R : A -> A -> Prop) (Htr : forall a b c, R a b -> R b c -> R a c)
  n l : Sorted R l -> Sorted R (firstn n l).
Proof.
  intros H. apply StronglySorted_Sorted.
  apply (Keywords.StronglySorted_app_l _ _ (skipn n l)). rewrite firstn_skipn.
  apply Sorted_StronglySorted; assumption.
Qed.

Lemma firstn_NoDup {A} n (l : list A) : NoDup l -> NoDup (firstn n l).
Proof.
  intros H. apply (NoDup_app_remove_r _ (skipn n l)). rewrite firstn_skipn. exact H.
Qed.

Lemma in_firstn {A} n (l : list A) x : In x (firstn n l) -> In x l.
Proof.
  intros H. rewrite <- (firstn_skipn n l). apply in_or_app. left. exact H.
Qed.

(** *** [market_tech_top] *)

(** The count [market_tech_top] gives a term is the number of chunks
    whose text mentions it (a chunk mentioning it twice counts once), and
    is at least 1. *)
Theorem tech_top_counts {V} (d : db V) limit t n :
  In (t, n) (fst (market_tech_top d limit)) ->
  n = List.length (filter (fun c => existsb (String.eqb t)
         (Text.extract_tech_terms (c_text c))) (vacancy_chunks d))
  /\ (1 <= n)%nat.
Proof.
  unfold market_tech_top. simpl. intros H.
  apply in_map_iff in H as [t' [E Ht]]. injection E as <- <-.
  rewrite tech_count_chunks. split; [reflexivity|].
  rewrite <- tech_count_chunks. apply count_of_pos.
  destruct (Keywords.most_common_props
    (flat_map (fun c => Text.extract_tech_terms (c_text c)) (vacancy_chunks d))
    (Z.to_nat limit)) as (_ & Hi & _). apply Hi, Ht.
Qed.

(** [market_tech_top] lists [min(max(limit, 0), unique_terms)] distinct
    terms, by descending count; a term left out is mentioned by no more
    chunks than any listed one; [unique_terms] is at most 28. *)
Theorem tech_top_ranking {V} (d : db V) limit :
  let '(top, unique_terms) := market_tech_top d limit in
  (unique_terms <= 28)%nat
  /\ List.length top = Nat.min (Z.to_nat limit) unique_terms
  /\ NoDup (map fst top)
  /\ Sorted (fun a b => snd b <= snd a)%nat top
  /\ forall t p, ~ In t (map fst top) -> In p top ->
     (List.length (filter (fun c => existsb (String.eqb t)
        (Text.extract_tech_terms (c_text c))) (vacancy_chunks d)) <= snd p)%nat.
Proof.
  unfold market_tech_top. cbv zeta.
  set (terms := flat_map (fun c => Text.extract_tech_terms (c_text c))
                  (vacancy_chunks d)).
  destruct (Keywords.most_common_props terms (Z.to_nat limit))
    as (Hn & Hi & Hl & Hs & Htop). cbv zeta in *.
  rewrite map_map, length_map. simpl. rewrite map_id.
  split; [|split; [exact Hl|split; [exact Hn|split]]].
  - destruct (Text.uniq_from_spec [] terms) as [Hu Hui].
    change 28%nat with (List.length (map Text.pattern_term Text.TECH_PATTERNS)).
    apply NoDup_incl_length; [exact Hu|]. intros x Hx.
    apply Hui in Hx as [Hx _]. unfold terms in Hx.
    apply in_flat_map in Hx as [c [_ Hx]].
    apply (proj1 (proj2 (Text.tech_terms_props (c_text c)))), Hx.
  - eapply Sorted_map_rel; [|exact Hs]. intros a b H. exact H.
  - intros t p Ht Hp. apply in_map_iff in Hp as [r [<- Hr]]. simpl.
    rewrite <- !tech_count_chunks. fold terms.
    destruct (in_dec string_dec t terms) as [Hin|Hin].
    + apply Htop; assumption.
    + rewrite count_of_absent by exact Hin. lia.
Qed.

(** *** [market_keywords] *)

(** Every token [market_keywords] lists is the UTF-8 text of at least
    three code points of the token pattern [[a-zа-я0-9\+\#\.]] (no
    flags), is its own lower case, is no stop word and has a count of at
    least 1; the tokens are distinct, by descending count, and
    a [limit] of 0 or less gives an empty list. *)
Theorem market_keywords_shape {V} (d : db V) limit :
  let top := market_keywords d limit in
  NoDup (map fst top) /\ Sorted (fun a b => snd b <= snd a)%nat top
  /\ ((limit <= 0)%Z -> top = [])
  /\ forall t n, In (t, n) top ->
     (exists l, t = Utf8.utf8_encode l /\ Utf8.utf8_decode t = l
        /\ (3 <= List.length l)%nat
        /\ Forall (fun c => Keywords.is_token_cp c = true) l)
     /\ Text.str_lower t = t /\ ~ In t Keywords.RU_STOP
     /\ ~ In t Keywords.EN_STOP /\ (1 <= n)%nat.
Proof.
  unfold market_keywords. cbv zeta.
  set (toks := flat_map (fun c => keyword_tokens (c_text c)) (vacancy_chunks d)).
  destruct (Keywords.most_common_props toks (Z.to_nat limit))
    as (Hn & Hi & Hl & Hs & _). cbv zeta in *.
  split; [rewrite map_map; simpl; rewrite map_id; exact Hn|].
  split; [eapply Sorted_map_rel; [|exact Hs]; intros a b H; exact H|].
  split.
  - intros Hlim. replace (Z.to_nat limit) with 0%nat by lia. reflexivity.
  - intros t n Htn. apply in_map_iff in Htn as [t' [E Ht]]. injection E as <- <-.
    apply Hi in Ht. pose proof (count_of_pos _ _ Ht) as Hpos.
    unfold toks in Ht. apply in_flat_map in Ht as [c [_ Ht]].
    unfold keyword_tokens in Ht. apply filter_In in Ht as [Ht Hst].
    apply Keywords.not_stop_spec in Hst as [Hs1 Hs2].
    destruct (Keywords.tokens_of_spec _ _ _ Ht) as (l & E1 & E2 & H3 & HP & Hlow).
    split; [exists l; auto|]. auto.
Qed.

(** *** [group by ... order by cnt desc limit] *)

Lemma opt_str_eqb_spec a b : opt_str_eqb a b = true <-> a = b.
Proof.
  destruct a as [x|], b as [y|]; simpl; split; intros H; try discriminate; try reflexivity.
  - apply String.eqb_eq in H. subst. reflexivity.
  - injection H as <-. apply String.eqb_refl.
Qed.

Lemma cnt_ge_total {A} : total (@cnt_ge A).
Proof. intros a b. unfold cnt_ge. destruct (Z.leb_spec (snd b) (snd a)); [left|right]; lia. Qed.

Lemma cnt_ge_trans {A} (a b c : A * Z) :
  cnt_ge a b = true -> cnt_ge b c = true -> cnt_ge a c = true.
Proof. unfold cnt_ge. rewrite !Z.leb_le. lia. Qed.

Lemma uniq_by_cover {A} (eqb : A -> A -> bool) (Heq : forall a b, eqb a b = true <-> a = b)
  l : forall seen y, In y l -> In y seen \/ In y (uniq_by eqb seen l).
Proof.
  induction l as [|x xs IH]; simpl; intros seen y Hy; [contradiction|].
  destruct (existsb (eqb x) seen) eqn:E.
  - destruct Hy as [<-|Hy]; [|apply IH, Hy].
    left. apply existsb_exists in E as [z [Hz Ez]]. apply Heq in Ez. subst. exact Hz.
  - destruct Hy as [<-|Hy]; [right; left; reflexivity|].
    destruct (IH (x :: seen) y Hy) as [[<-|Hs]|Hu].
    + right; left; reflexivity.
    + left; exact Hs.
    + right; right; exact Hu.
Qed.

Lemma length_uniq_by {A} (eqb : A -> A -> bool) l :
  forall seen, (List.length (uniq_by eqb seen l) <= List.length l)%nat.
Proof.
  induction l as [|x xs IH]; simpl; intros seen; [lia|].
  destruct (existsb (eqb x) seen); simpl; [specialize (IH seen)|specialize (IH (x :: seen))]; lia.
Qed.

Lemma group_count_spec {A} (eqb : A -> A -> bool)
  (Heq : forall a b, eqb a b = true <-> a = b) vals :
  NoDup (map fst (group_count eqb vals))
  /\ (forall v n, In (v, n) (group_count eqb vals) ->
      In v vals /\ n = Z.of_nat (List.length (filter (eqb v) vals)))
  /\ (forall v, In v vals ->
      In (v, Z.of_nat (List.length (filter (eqb v) vals))) (group_count eqb vals)).
Proof.
  unfold group_count. split; [|split].
  - rewrite map_map. simpl. rewrite map_id. apply uniq_by_NoDup.
    intros x. apply Heq. reflexivity.
  - intros v n H. apply in_map_iff in H as [u [E Hu]]. injection E as <- <-.
    apply in_uniq_by in Hu as [Hu _]. split; [exact Hu|reflexivity].
  - intros v Hv. apply in_map_iff. exists v. split; [reflexivity|].
    destruct (uniq_by_cover eqb Heq vals [] v Hv) as [[]|H]. exact H.
Qed.

Lemma filter_self_pos {A} (eqb : A -> A -> bool) (Heq : forall a b, eqb a b = true <-> a = b)
  vals v : In v vals -> (1 <= List.length (filter (eqb v) vals))%nat.
Proof.
  intros Hv. destruct (filter (eqb v) vals) eqn:E; simpl; [|lia].
  assert (H : In v (filter (eqb v) vals)) by (apply filter_In; split; [exact Hv|apply Heq; reflexivity]).
  rewrite E in H. contradiction.
Qed.

Lemma StronglySorted_app_cross {A} (R : A -> A -> Prop) l1 l2 a b :
  StronglySorted R (l1 ++ l2) -> In a l1 -> In b l2 -> R a b.
Proof.
  induction l1 as [|x l1 IH]; simpl; intros Hs Ha Hb; [contradiction|].
  inversion Hs as [|? ? Hs' Hf]; subst.
  destruct Ha as [<-|Ha]; [|apply IH; assumption].
  rewrite Forall_forall in Hf. apply Hf, in_or_app. right. exact Hb.
Qed.

Lemma sum_perm (l1 l2 : list Z) :
  Permutation l1 l2 -> fold_right Z.add 0%Z l1 = fold_right Z.add 0%Z l2.
Proof. induction 1; simpl; lia. Qed.

Lemma count_indicator_zero {A} (eqb : A -> A -> bool) (Heq : forall a b, eqb a b = true <-> a = b)
  U x : ~ In x U -> list_sum (map (fun v => if eqb v x then 1%nat else 0%nat) U) = 0%nat.
Proof.
  induction U as [|u U IH]; simpl; intros Hx; [reflexivity|].
  destruct (eqb u x) eqn:E; [apply Heq in E; subst; exfalso; apply Hx; left; reflexivity|].
  apply IH. intros H. apply Hx. right. exact H.
Qed.

Lemma count_indicator_one {A} (eqb : A -> A -> bool) (Heq : forall a b, eqb a b = true <-> a = b)
  U x : NoDup U -> In x U -> list_sum (map (fun v => if eqb v x then 1%nat else 0%nat) U) = 1%nat.
Proof.
  induction U as [|u U IH]; simpl; intros Hn Hx; [contradiction|].
  inversion Hn as [|? ? Hu Hn']; subst.
  destruct (eqb u x) eqn:E.
  - apply Heq in E. subst. rewrite (count_indicator_zero eqb Heq U x Hu). reflexivity.
  - destruct Hx as [->|Hx]; [rewrite (proj2 (Heq x x) eq_refl) in E; discriminate|].
    apply IH; assumption.
Qed.

(** Summing the group sizes over a duplicate-free cover of the values
    gives the number of values. *)
Lemma group_sizes_sum {A} (eqb : A -> A -> bool) (Heq : forall a b, eqb a b = true <-> a = b)
  U m : NoDup U -> (forall x, In x m -> In x U) ->
  list_sum (map (fun v => List.length (filter (eqb v) m)) U) = List.length m.
Proof.
  intros Hn. induction m as [|x m IH]; intros Hc; simpl.
  - clear. induction U as [|u U IH]; simpl; [reflexivity|]. exact IH.
  - transitivity (list_sum (map (fun v => if eqb v x then 1%nat else 0%nat) U)
                  + list_sum (map (fun v => List.length (filter (eqb v) m)) U))%nat.
    + clear. induction U as [|u U IH]; simpl; [reflexivity|].
      rewrite IH. destruct (eqb u x); simpl; lia.
    + rewrite (count_indicator_one eqb Heq U x Hn (Hc x (or_introl eq_refl))).
      rewrite IH; [reflexivity|]. intros y Hy. apply Hc. right. exact Hy.
Qed.

Lemma fold_add_of_nat (l : list nat) :
  fold_right Z.add 0%Z (map Z.of_nat l) = Z.of_nat (list_sum l).
Proof. induction l as [|x l IH]; simpl; [reflexivity|]. rewrite IH. lia. Qed.

Lemma group_count_sum {A} (eqb : A -> A -> bool) (Heq : forall a b, eqb a b = true <-> a = b)
  vals : fold_right Z.add 0%Z (map snd (group_count eqb vals)) = Z.of_nat (List.length vals).
Proof.
  unfold group_count. rewrite map_map. simpl.
  rewrite <- (map_map (fun v => List.length (filter (eqb v) vals)) Z.of_nat).
  rewrite fold_add_of_nat, group_sizes_sum; [reflexivity|exact Heq| |].
  - apply uniq_by_NoDup. intros x. apply Heq. reflexivity.
  - intros x Hx. destruct (uniq_by_cover eqb Heq vals [] x Hx) as [[]|H]. exact H.
Qed.

Lemma Sorted_cnt_ge {A} (l : list (A * Z)) :
  Sorted (fun a b => cnt_ge a b = true) l -> Sorted (fun a b => snd b <= snd a)%Z l.
Proof.
  intros H. rewrite <- (map_id l). eapply Sorted_map_rel; [|exact H].
  intros a b Hab. unfold cnt_ge in Hab. apply Z.leb_le in Hab. exact Hab.
Qed.

(** What a [group by v order by cnt desc limit n] query returns. *)
Lemma top_groups_spec {A} (eqb : A -> A -> bool) (Heq : forall a b, eqb a b = true <-> a = b)
  vals limit top :
  sql_limit limit (sort_by _ cnt_ge (group_count eqb vals)) = Some top ->
  NoDup (map fst top) /\ Sorted (fun a b => snd b <= snd a)%Z top
  /\ (forall v n, In (v, n) top ->
      In v vals /\ n = Z.of_nat (List.length (filter (eqb v) vals)) /\ (1 <= n)%Z)
  /\ (forall v p, In v vals -> ~ In v (map fst top) -> In p top ->
      (Z.of_nat (List.length (filter (eqb v) vals)) <= snd p)%Z).
Proof.
  intros E. apply sql_limit_some in E as [_ ->].
  set (G := group_count eqb vals).
  set (S := sort_by _ cnt_ge G).
  assert (Hp : Permutation G S) by apply sort_by_perm.
  assert (Hs : Sorted (fun a b => cnt_ge a b = true) S) by (apply sort_by_sorted, cnt_ge_total).
  destruct (group_count_spec eqb Heq vals) as (Hn & Hin & Hcov). fold G in Hn, Hin, Hcov.
  split; [|split; [|split]].
  - rewrite <- firstn_map. apply firstn_NoDup.
    apply (Permutation_NoDup (Permutation_map fst Hp)), Hn.
  - apply Sorted_cnt_ge, firstn_Sorted; [apply cnt_ge_trans|exact Hs].
  - intros v n Hv. apply in_firstn in Hv.
    apply (Permutation_in _ (Permutation_sym Hp)) in Hv.
    destruct (Hin v n Hv) as [Hv' ->]. split; [exact Hv'|split; [reflexivity|]].
    pose proof (filter_self_pos eqb Heq vals v Hv'). lia.
  - intros v p Hv Hnot Hp'.
    pose proof (Permutation_in _ Hp (Hcov v Hv)) as HS.
    rewrite <- (firstn_skipn (Z.to_nat limit) S) in HS.
    apply in_app_or in HS as [HS|HS].
    + exfalso. apply Hnot. apply in_map_iff. eexists; split; [|exact HS]. reflexivity.
    + assert (Hss : StronglySorted (fun a b => cnt_ge a b = true) S)
        by (apply Sorted_StronglySorted; [intros ? ? ?; apply cnt_ge_trans|exact Hs]).
      rewrite <- (firstn_skipn (Z.to_nat limit) S) in Hss.
      pose proof (StronglySorted_app_cross _ _ _ _ _ Hss Hp' HS) as Hge.
      unfold cnt_ge in Hge. apply Z.leb_le in Hge. exact Hge.
Qed.

(** *** [market_geo] *)

(** [market_geo] fails on a negative [limit] or one beyond [BIGINT_MAX];
    otherwise it lists distinct
    [area_name] values (NULL being one of them) by descending count, each
    with the number of vacancies having it (at least 1), and an area left
    out has no more vacancies than any listed one. *)
Theorem market_geo_rows area_col limit :
  (market_geo area_col limit = None <-> (limit < 0 \/ BIGINT_MAX < limit)%Z)
  /\ forall top, market_geo area_col limit = Some top ->
     NoDup (map fst top) /\ Sorted (fun a b => snd b <= snd a)%Z top
     /\ (forall a n, In (a, n) top ->
         n = Z.of_nat (List.length (filter (opt_str_eqb a) area_col)) /\ (1 <= n)%Z)
     /\ (forall a p, In a area_col -> ~ In a (map fst top) -> In p top ->
         (Z.of_nat (List.length (filter (opt_str_eqb a) area_col)) <= snd p)%Z).
Proof.
  split; [apply sql_limit_none_iff|]. intros top H.
  destruct (top_groups_spec opt_str_eqb opt_str_eqb_spec area_col limit top H)
    as (Hn & Hs & Hrow & Hout).
  repeat split; try assumption.
  - apply (Hrow a n H0).
  - apply (Hrow a n H0).
Qed.

(** When [limit] is at least the number of distinct [area_name] values
    (and within [BIGINT_MAX]), the counts [market_geo] returns add up to
    the number of vacancies. *)
Theorem market_geo_total area_col limit :
  (Z.of_nat (List.length (uniq_by opt_str_eqb [] area_col)) <= limit)%Z ->
  (limit <= BIGINT_MAX)%Z ->
  exists top, market_geo area_col limit = Some top
  /\ fold_right Z.add 0%Z (map snd top) = Z.of_nat (List.length area_col).
Proof.
  intros Hl Hmax. unfold market_geo. rewrite sql_limit_in_range by lia.
  eexists; split; [reflexivity|].
  rewrite firstn_all2.
  - rewrite <- (sum_perm _ _ (Permutation_map snd (sort_by_perm _ cnt_ge _))).
    apply group_count_sum, opt_str_eqb_spec.
  - rewrite <- (Permutation_length (sort_by_perm _ cnt_ge _)).
    unfold group_count. rewrite length_map. lia.
Qed.

(** *** [market_employers] *)

Lemma employer_names_count employer_col e : e <> ""%string ->
  let names := flat_map (fun e => match e with
                 | Some s => if String.eqb s "" then [] else [s]
                 | None => []
                 end) employer_col in
  List.length (filter (String.eqb e) names)
  = List.length (filter (opt_str_eqb (Some e)) employer_col).
Proof.
  intros He. cbv zeta. induction employer_col as [|[s|] col IH]; simpl; [reflexivity| |exact IH].
  destruct (String.eqb_spec s "") as [->|Hs]; simpl.
  - destruct (String.eqb_spec e "") as [->|_]; [contradiction|exact IH].
  - destruct (String.eqb e s); simpl; rewrite IH; reflexivity.
Qed.

Lemma employer_names_in employer_col e :
  let names := flat_map (fun e => match e with
                 | Some s => if String.eqb s "" then [] else [s]
                 | None => []
                 end) employer_col in
  In e names <-> In (Some e) employer_col /\ e <> ""%string.
Proof.
  cbv zeta. rewrite in_flat_map. split.
  - intros [[s|] [Hs Hin]]; [|contradiction].
    destruct (String.eqb_spec s "") as [->|Hne]; [contradiction|].
    destruct Hin as [<-|[]]. split; assumption.
  - intros [Hin He]. exists (Some e). split; [exact Hin|].
    destruct (String.eqb_spec e "") as [->|_]; [contradiction|left; reflexivity].
Qed.

(** [market_employers] fails on a negative [limit] or one beyond
    [BIGINT_MAX]; otherwise it lists
    distinct non-empty employer names by descending count, each with the
    number of vacancies naming it (at least 1); a non-empty name left out
    has no more vacancies than any listed one. *)
Theorem market_employers_rows employer_col limit :
  (market_employers employer_col limit = None <-> (limit < 0 \/ BIGINT_MAX < limit)%Z)
  /\ forall top, market_employers employer_col limit = Some top ->
     NoDup (map fst top) /\ Sorted (fun a b => snd b <= snd a)%Z top
     /\ (forall e n, In (e, n) top ->
         e <> ""%string
         /\ n = Z.of_nat (List.length (filter (opt_str_eqb (Some e)) employer_col))
         /\ (1 <= n)%Z)
     /\ (forall e p, In (Some e) employer_col -> e <> ""%string ->
         ~ In e (map fst top) -> In p top ->
         (Z.of_nat (List.length (filter (opt_str_eqb (Some e)) employer_col)) <= snd p)%Z).
Proof.
  split; [apply sql_limit_none_iff|]. intros top H.
  unfold market_employers in H.
  destruct (top_groups_spec String.eqb String.eqb_eq _ limit top H)
    as (Hn & Hs & Hrow & Hout).
  split; [exact Hn|split; [exact Hs|split]].
  - intros e n Hen. destruct (Hrow e n Hen) as (Hin & -> & Hpos).
    apply employer_names_in in Hin as [_ He].
    split; [exact He|split; [|exact Hpos]].
    rewrite (employer_names_count employer_col e He). reflexivity.
  - intros e p Hin He Hnot Hp.
    rewrite <- (employer_names_count employer_col e He).
    apply Hout; [apply employer_names_in; split|..]; assumption.
Qed.

End Market.

(** ** Results that do not depend on the order among ties

    When no [order by] of a call meets two rows that compare equal, every
    sorting procedure that meets the contract of [order by] returns the
    same rows; the call can then be evaluated with [isort]. *)

Section Determinism.

Variable vector : Type.
Variable cosine_distance : vector -> vector -> Q.
Variable similarity : string -> string -> Q.
Variable sort_by : forall A : Type, (A -> A -> bool) -> list A -> list A.
Hypothesis sort_by_perm :
  forall A (le : A -> A -> bool) l, Permutation l (sort_by A le l).
Hypothesis sort_by_sorted :
  forall A (le : A -> A -> bool), total le ->
  forall l, Sorted (fun a b => le a b = true) (sort_by A le l).

(** The [order by] steps of a call meet no ties (computed with [isort]). *)
Definition no_ties_run (v : sql_variant) (query : string) (q_vec : vector)
    (d : db vector) (candidates k per_vac : Z) : bool :=
  let J := joined_rows vector cosine_distance similarity v query q_vec d in
  no_ties dist_le (isort dist_le J)
  && match scored vector cosine_distance similarity (@isort) v query q_vec d
             candidates with
     | None => true
     | Some sc =>
         forallb (fun u => no_ties score_le (isort score_le (partition_of u sc)))
           (uniq_by Z.eqb [] (map s_vacancy_id sc))
         && let rk := ranked (@isort) sc in
            no_ties top_le (isort top_le (uniq_by top_eqb [] (map to_top rk)))
            && match top_vacs (@isort) rk k with
               | None => true
               | Some tv => no_ties final_le (isort final_le (join_top rk tv per_vac))
               end
     end.

Lemma dist_le_total : total dist_le.
Proof. intros a b. apply Qle_bool_total. Qed.

Lemma dist_le_trans a b c :
  dist_le a b = true -> dist_le b c = true -> dist_le a c = true.
Proof. intros H1 H2. eapply Qle_bool_trans; eassumption. Qed.

Lemma top_le_total : total top_le.
Proof. intros a b. apply Qle_bool_total. Qed.

Lemma top_le_trans a b c :
  top_le a b = true -> top_le b c = true -> top_le a c = true.
Proof. intros H1 H2. eapply Qle_bool_trans; eassumption. Qed.

Lemma sort_by_isort A (le : A -> A -> bool) l :
  total le -> (forall a b c, le a b = true -> le b c = true -> le a c = true) ->
  no_ties le (isort le l) = true -> sort_by A le l = isort le l.
Proof.
  intros Ht Htr Hn. symmetry. apply (sorted_perm_unique le Htr).
  - apply isort_sorted, Ht.
  - apply sort_by_sorted, Ht.
  - eapply Permutation_trans; [apply Permutation_sym, isort_perm|apply sort_by_perm].
  - exact Hn.
Qed.

Lemma ranked_isort sc :
  forallb (fun u => no_ties score_le (isort score_le (partition_of u sc)))
    (uniq_by Z.eqb [] (map s_vacancy_id sc)) = true ->
  ranked sort_by sc = ranked (@isort) sc.
Proof.
  unfold ranked, rank_partition.
  induction (uniq_by Z.eqb [] (map s_vacancy_id sc)) as [|u U IH]; simpl;
    [reflexivity|].
  intros H. apply andb_prop in H as [Hu HU].
  rewrite IH by exact HU.
  rewrite (sort_by_isort _ score_le _ score_le_total score_le_trans Hu).
  reflexivity.
Qed.

Lemma run_query_isort v query q_vec d candidates k per_vac :
  no_ties_run v query q_vec d candidates k per_vac = true ->
  run_query vector cosine_distance similarity sort_by v query q_vec d
    candidates k per_vac
  = run_query vector cosine_distance similarity (@isort) v query q_vec d
      candidates k per_vac.
Proof.
  unfold no_ties_run, run_query. cbv zeta. intros H.
  apply andb_prop in H as [H1 H].
  assert (Es : scored vector cosine_distance similarity sort_by v query q_vec d
                 candidates
               = scored vector cosine_distance similarity (@isort) v query q_vec d
                   candidates).
  { unfold scored. rewrite (sort_by_isort _ dist_le _ dist_le_total dist_le_trans H1).
    reflexivity. }
  rewrite Es. destruct (scored _ _ _ _ _ _ _ _ _) as [sc|]; [|reflexivity].
  apply andb_prop in H as [H2 H]. apply andb_prop in H as [H3 H4].
  rewrite (ranked_isort sc H2).
  assert (Et : top_vacs sort_by (ranked (@isort) sc) k
               = top_vacs (@isort) (ranked (@isort) sc) k).
  { unfold top_vacs. rewrite (sort_by_isort _ top_le _ top_le_total top_le_trans H3).
    reflexivity. }
  rewrite Et. destruct (top_vacs _ _ _) as [tv|]; [|reflexivity].
  rewrite (sort_by_isort _ final_le _ final_le_total final_le_trans H4).
  reflexivity.
Qed.

End Determinism.

(** ** A small instance

    Two postings: A (id 1) with two chunks, B (id 2) with one. Vectors
    are rationals and the cosine distance of a chunk is its vector, so the
    distances of the chunks can be set directly. *)

Local Open Scope string_scope.
Local Open Scope list_scope.

Definition meta_A : vac_meta :=
  mk_meta "Python developer" "Acme" "Moscow" "https://hh.ru/vacancy/1".
Definition meta_B : vac_meta :=
  mk_meta "Senior Python developer" "Beta" "Moscow" "https://hh.ru/vacancy/2".

Definition scenario_db {V} (trgm : bool) (eA0 eA1 eB0 : V) : db V :=
  mk_db (fun v => if Z.eqb v 1 then Some meta_A
                  else if Z.eqb v 2 then Some meta_B else None)
    [mk_chunk 1 0 "Python developer, Django" (Some eA0);
     mk_chunk 1 1 "Office in Moscow" (Some eA1);
     mk_chunk 2 0 "Senior Python developer" (Some eB0)] trgm.

(** A and B, one chunk each, at the same distance. *)
Definition tie_db : db Q :=
  mk_db (fun v => if Z.eqb v 1 then Some meta_A
                  else if Z.eqb v 2 then Some meta_B else None)
    [mk_chunk 1 0 "Python developer, Django" (Some (1#10));
     mk_chunk 2 0 "Senior Python developer" (Some (1#10))] true.

Definition embed0 (_ : string) : Q := 0.
Definition dist_q (e _ : Q) : Q := e.
Definition sim0 (_ _ : string) : Q := 0.

Definition demo_db (trgm : bool) : db Q := scenario_db trgm (1#10) (3#10) (5#100).

Definition demo_search (trgm : bool) (k per_vac : Z) (kw_weight : Q)
  : option response :=
  search Q embed0 dist_q sim0 (@isort) (demo_db trgm) "python developer"
    k per_vac 250 kw_weight 800 true.

Definition resp_of (r : option response) : response :=
  match r with Some x => x | None => mk_response "" false 0 0 0 [] end.

Definition demo_resp (trgm : bool) (k per_vac : Z) (kw_weight : Q) : response :=
  resp_of (demo_search trgm k per_vac kw_weight).

Definition demo_pool : list scored_row :=
  match candidate_pool Q embed0 dist_q sim0 (@isort) (demo_db true)
          "python developer" 250 0 with
  | Some sc => sc
  | None => []
  end.

Definition empty_item : vac_item := mk_item 0 meta_A 0 [].

(** C6: the scenario of the specification, for every embedding model
    giving the chunks the distances 0.10, 0.30 (A) and 0.05 (B) and every
    sorting procedure meeting the contract of [order by]: with [k = 2],
    [per_vac = 1] and weight 0 the results are [B; A], and A shows only
    its chunk at distance 0.10. *)
Theorem scenario_B_before_A V (embed : string -> V) (cosine_distance : V -> V -> Q)
    similarity sort_by
    (Hp : forall A (le : A -> A -> bool) l, Permutation l (sort_by A le l))
    (Hs : forall A (le : A -> A -> bool), total le ->
          forall l, Sorted (fun a b => le a b = true) (sort_by A le l))
    (eA0 eA1 eB0 : V) :
  cosine_distance eA0 (embed "python developer") = 1#10 ->
  cosine_distance eA1 (embed "python developer") = 3#10 ->
  cosine_distance eB0 (embed "python developer") = 5#100 ->
  exists resp,
    search V embed cosine_distance similarity sort_by
      (scenario_db true eA0 eA1 eB0) "python developer" 2 1 250 0 800 true
    = Some resp
    /\ map v_vacancy_id (results resp) = [2; 1]%Z
    /\ map (fun it => map e_dist (v_evidence it)) (results resp)
       = [[5#100]; [1#10]].
Proof.
  intros H1 H2 H3.
  assert (Hj : joined_rows V cosine_distance similarity NO_TRGM "python developer"
                 (embed "python developer") (scenario_db true eA0 eA1 eB0)
               = joined_rows Q dist_q sim0 NO_TRGM "python developer" 0
                   (demo_db true)).
  { unfold joined_rows. simpl. rewrite H1, H2, H3. reflexivity. }
  unfold search, retrieve_vacancies. cbv zeta.
  change (if pg_trgm (scenario_db true eA0 eA1 eB0) && _ then _ else _) with NO_TRGM.
  rewrite (run_query_isort V cosine_distance similarity sort_by Hp Hs).
  2:{ unfold no_ties_run, scored. cbv zeta. rewrite Hj. vm_compute. reflexivity. }
  unfold run_query, scored. rewrite Hj.
  eexists. split; [reflexivity|]. vm_compute. split; reflexivity.
Qed.

Lemma scenario_B_before_A_witness :
  exists resp,
    search Q embed0 dist_q sim0 (@isort) (scenario_db true (1#10) (3#10) (5#100))
      "python developer" 2 1 250 0 800 true = Some resp
    /\ map v_vacancy_id (results resp) = [2; 1]%Z
    /\ map (fun it => map e_dist (v_evidence it)) (results resp)
       = [[5#100]; [1#10]].
Proof.
  apply (scenario_B_before_A Q embed0 dist_q sim0 (@isort) (@isort_perm)
           (@isort_sorted) (1#10) (3#10) (5#100)); reflexivity.
Defined.

(** *** Witnesses of the claims on the instance *)

Lemma zero_weight_distance_only_witness :
  demo_search true 2 1 0 = Some (demo_resp true 2 1 0)
  /\ forall it e, In it (results (demo_resp true 2 1 0)) -> In e (v_evidence it) ->
     e_score e = e_dist e /\ e_kw_sim e = 0%Q.
Proof.
  assert (H : demo_search true 2 1 0 = Some (demo_resp true 2 1 0))
    by (vm_compute; reflexivity).
  split; [exact H|].
  exact (zero_weight_distance_only Q embed0 dist_q sim0 (@isort) (@isort_perm)
           (demo_db true) "python developer" 2 1 250 0 800 true _
           (or_introl (Qeq_refl 0)) H).
Defined.

Lemma no_trgm_downgrade_witness :
  demo_search false 2 1 (1#2) = Some (demo_resp false 2 1 (1#2))
  /\ kw_weight_used (demo_resp false 2 1 (1#2)) = 0%Q
  /\ hybrid_used (demo_resp false 2 1 (1#2)) = false
  /\ forall it e, In it (results (demo_resp false 2 1 (1#2))) ->
     In e (v_evidence it) -> e_score e = e_dist e /\ e_kw_sim e = 0%Q.
Proof.
  assert (H : demo_search false 2 1 (1#2) = Some (demo_resp false 2 1 (1#2)))
    by (vm_compute; reflexivity).
  split; [exact H|].
  exact (no_trgm_downgrade Q embed0 dist_q sim0 (@isort) (@isort_perm)
           (demo_db false) "python developer" 2 1 250 (1#2) 800 true _
           eq_refl H).
Defined.

Lemma results_unique_ids_witness :
  demo_search true 2 1 0 = Some (demo_resp true 2 1 0)
  /\ NoDup (map v_vacancy_id (results (demo_resp true 2 1 0))).
Proof.
  assert (H : demo_search true 2 1 0 = Some (demo_resp true 2 1 0))
    by (vm_compute; reflexivity).
  split; [exact H|].
  exact (results_unique_ids Q embed0 dist_q sim0 (@isort)
           (demo_db true) "python developer" 2 1 250 0 800 true _ H).
Defined.

Lemma results_sorted_by_best_witness :
  demo_search true 2 1 0 = Some (demo_resp true 2 1 0)
  /\ Sorted Qle (map v_best_score (results (demo_resp true 2 1 0))).
Proof.
  assert (H : demo_search true 2 1 0 = Some (demo_resp true 2 1 0))
    by (vm_compute; reflexivity).
  split; [exact H|].
  exact (results_sorted_by_best Q embed0 dist_q sim0 (@isort) (@isort_sorted)
           (demo_db true) "python developer" 2 1 250 0 800 true _ H).
Defined.

(** Among two postings at the same distance, a sorting procedure meeting
    the contract of [order by] (later rows first among ties) streams B
    before A, and the results list A before B. *)
Lemma results_sorted_by_best_counterexample :
  (forall A (le : A -> A -> bool) l, Permutation l (isort_rev le l))
  /\ (forall A (le : A -> A -> bool), total le ->
      forall l, Sorted (fun a b => le a b = true) (isort_rev le l))
  /\ option_map (map s_vacancy_id)
       (candidate_pool Q embed0 dist_q sim0 (@isort_rev) tie_db
          "python developer" 250 0) = Some [2; 1]%Z
  /\ option_map (fun r => map v_vacancy_id (results r))
       (search Q embed0 dist_q sim0 (@isort_rev) tie_db "python developer"
          2 1 250 0 800 true) = Some [1; 2]%Z
  /\ option_map (fun r => map v_best_score (results r))
       (search Q embed0 dist_q sim0 (@isort_rev) tie_db "python developer"
          2 1 250 0 800 true) = Some [1#10; 1#10].
Proof.
  split; [exact (@isort_rev_perm)|]. split; [exact (@isort_rev_sorted)|].
  vm_compute. repeat split; reflexivity.
Qed.

Lemma evidence_per_vacancy_witness :
  demo_search true 2 1 0 = Some (demo_resp true 2 1 0)
  /\ candidate_pool Q embed0 dist_q sim0 (@isort) (demo_db true)
       "python developer" 250 0 = Some demo_pool
  /\ In (nth 1 (results (demo_resp true 2 1 0)) empty_item)
       (results (demo_resp true 2 1 0))
  /\ (let it := nth 1 (results (demo_resp true 2 1 0)) empty_item in
      Sorted Qle (map e_score (v_evidence it))
      /\ (Z.of_nat (List.length (v_evidence it)) <= 1)%Z
      /\ In (v_best_score it) (map s_score (partition_of (v_vacancy_id it) demo_pool))
      /\ (forall r, In r demo_pool -> s_vacancy_id r = v_vacancy_id it ->
          (v_best_score it <= s_score r)%Q)).
Proof.
  assert (H : demo_search true 2 1 0 = Some (demo_resp true 2 1 0))
    by (vm_compute; reflexivity).
  assert (Hp : candidate_pool Q embed0 dist_q sim0 (@isort) (demo_db true)
                 "python developer" 250 0 = Some demo_pool)
    by (vm_compute; reflexivity).
  assert (Hi : In (nth 1 (results (demo_resp true 2 1 0)) empty_item)
                 (results (demo_resp true 2 1 0)))
    by (vm_compute; right; left; reflexivity).
  split; [exact H|]. split; [exact Hp|]. split; [exact Hi|].
  exact (evidence_per_vacancy Q embed0 dist_q sim0 (@isort) (@isort_perm)
           (@isort_sorted) (demo_db true) "python developer" 2 1 250 0 800 true
           _ _ _ H Hp Hi).
Defined.



Lemma nonpositive_weight_distance_only_witness :
  demo_search true 2 1 (-1) = Some (demo_resp true 2 1 (-1))
  /\ hybrid_used (demo_resp true 2 1 (-1)) = false
  /\ forall it e, In it (results (demo_resp true 2 1 (-1))) ->
     In e (v_evidence it) -> e_score e = e_dist e /\ e_kw_sim e = 0%Q.
Proof.
  assert (H : demo_search true 2 1 (-1) = Some (demo_resp true 2 1 (-1)))
    by (vm_compute; reflexivity).
  assert (Hw : (-1 <= 0)%Q) by (unfold Qle; simpl; lia).
  split; [exact H|].
  exact (nonpositive_weight_distance_only Q embed0 dist_q sim0 (@isort)
           (@isort_perm) (demo_db true) "python developer" 2 1 250 (-1) 800 true
           _ Hw H).
Defined.

(** *** Witnesses of the further properties on the instance *)

Definition empty_evidence : evidence := mk_evidence 0 "" 0 0 0 0.

Definition demo_ask : option ask_response :=
  ask Q embed0 dist_q sim0 (@isort) (demo_db true) "python developer"
    2 2 250 0 800 true.

Definition ask_resp_of (r : option ask_response) : ask_response :=
  match r with
  | Some x => x
  | None => mk_ask_response "" false 0 0 0 (mk_summary "" [] [] []) []
  end.

Definition demo_ask_resp : ask_response := ask_resp_of demo_ask.

Definition empty_ask_item : ask_item := mk_ask_item empty_item [].
Definition empty_why : why_entry := mk_why "" [].

(** The [area_name] and [employer_name] columns of a small table. *)
Definition demo_area_col : list (option string) :=
  [Some "Moscow"; None; Some "Moscow"; Some "Kazan"].
Definition demo_employer_col : list (option string) :=
  [Some "Acme"; Some ""; None; Some "Beta"; Some "Acme"].

Lemma results_at_most_k_witness :
  demo_search true 2 2 0 = Some (demo_resp true 2 2 0)
  /\ (Z.of_nat (List.length (results (demo_resp true 2 2 0))) <= 2)%Z.
Proof.
  assert (H : demo_search true 2 2 0 = Some (demo_resp true 2 2 0))
    by (vm_compute; reflexivity).
  split; [exact H|].
  exact (results_at_most_k Q embed0 dist_q sim0 (@isort) (@isort_perm)
           (demo_db true) "python developer" 2 2 250 0 800 true _ H).
Defined.

Lemma evidence_nonempty_ranked_witness :
  demo_search true 2 2 0 = Some (demo_resp true 2 2 0)
  /\ In (nth 0 (results (demo_resp true 2 2 0)) empty_item) (results (demo_resp true 2 2 0))
  /\ v_evidence (nth 0 (results (demo_resp true 2 2 0)) empty_item) <> []
  /\ (forall e, In e (v_evidence (nth 0 (results (demo_resp true 2 2 0)) empty_item)) ->
      (1 <= e_rank_in_vacancy e <= 2)%Z).
Proof.
  assert (H : demo_search true 2 2 0 = Some (demo_resp true 2 2 0))
    by (vm_compute; reflexivity).
  assert (Hi : In (nth 0 (results (demo_resp true 2 2 0)) empty_item)
                 (results (demo_resp true 2 2 0)))
    by (vm_compute; left; reflexivity).
  split; [exact H|]. split; [exact Hi|].
  exact (evidence_nonempty_ranked Q embed0 dist_q sim0 (@isort) (@isort_perm)
           (demo_db true) "python developer" 2 2 250 0 800 true _ _ H Hi).
Defined.

Lemma evidence_provenance_witness :
  let it := nth 1 (results (demo_resp true 2 2 0)) empty_item in
  let e := nth 1 (v_evidence it) empty_evidence in
  demo_search true 2 2 0 = Some (demo_resp true 2 2 0)
  /\ In it (results (demo_resp true 2 2 0)) /\ In e (v_evidence it)
  /\ vacancies (demo_db true) (v_vacancy_id it) = Some (v_meta it)
  /\ exists c emb, In c (vacancy_chunks (demo_db true))
     /\ c_vacancy_id c = v_vacancy_id it /\ c_embedding c = Some emb
     /\ e_chunk_no e = c_chunk_no c
     /\ e_text e = Text.format_evidence (c_text c)
                     (Keywords.extract_query_keywords "python developer" 12) 800 true
     /\ e_dist e = dist_q emb (embed0 "python developer").
Proof.
  cbv zeta.
  assert (H : demo_search true 2 2 0 = Some (demo_resp true 2 2 0))
    by (vm_compute; reflexivity).
  assert (Hi : In (nth 1 (results (demo_resp true 2 2 0)) empty_item)
                 (results (demo_resp true 2 2 0)))
    by (vm_compute; right; left; reflexivity).
  assert (He : In (nth 1 (v_evidence (nth 1 (results (demo_resp true 2 2 0)) empty_item))
                     empty_evidence)
                 (v_evidence (nth 1 (results (demo_resp true 2 2 0)) empty_item)))
    by (vm_compute; right; left; reflexivity).
  split; [exact H|]. split; [exact Hi|]. split; [exact He|].
  exact (evidence_provenance Q embed0 dist_q sim0 (@isort) (@isort_perm)
           (demo_db true) "python developer" 2 2 250 0 800 true _ _ _ H Hi He).
Defined.

Lemma hybrid_scores_witness :
  let it := nth 0 (results (demo_resp true 2 2 (1#2))) empty_item in
  let e := nth 0 (v_evidence it) empty_evidence in
  demo_search true 2 2 (1#2) = Some (demo_resp true 2 2 (1#2))
  /\ hybrid_used (demo_resp true 2 2 (1#2)) = true
  /\ In it (results (demo_resp true 2 2 (1#2))) /\ In e (v_evidence it)
  /\ e_score e = e_dist e - kw_weight_used (demo_resp true 2 2 (1#2)) * e_kw_sim e
  /\ exists c, In c (vacancy_chunks (demo_db true))
     /\ c_vacancy_id c = v_vacancy_id it /\ c_chunk_no c = e_chunk_no e
     /\ e_kw_sim e = sim0 (Text.str_lower (c_text c)) (Text.str_lower "python developer").
Proof.
  cbv zeta.
  assert (H : demo_search true 2 2 (1#2) = Some (demo_resp true 2 2 (1#2)))
    by (vm_compute; reflexivity).
  assert (Hh : hybrid_used (demo_resp true 2 2 (1#2)) = true)
    by (vm_compute; reflexivity).
  assert (Hi : In (nth 0 (results (demo_resp true 2 2 (1#2))) empty_item)
                 (results (demo_resp true 2 2 (1#2))))
    by (vm_compute; left; reflexivity).
  assert (He : In (nth 0 (v_evidence (nth 0 (results (demo_resp true 2 2 (1#2))) empty_item))
                     empty_evidence)
                 (v_evidence (nth 0 (results (demo_resp true 2 2 (1#2))) empty_item)))
    by (vm_compute; left; reflexivity).
  split; [exact H|]. split; [exact Hh|]. split; [exact Hi|]. split; [exact He|].
  exact (hybrid_scores Q embed0 dist_q sim0 (@isort) (@isort_perm)
           (demo_db true) "python developer" 2 2 250 (1#2) 800 true _ _ _ H Hh Hi He).
Defined.

Lemma evidence_ranks_increasing_witness :
  demo_search true 2 2 0 = Some (demo_resp true 2 2 0)
  /\ In (nth 1 (results (demo_resp true 2 2 0)) empty_item) (results (demo_resp true 2 2 0))
  /\ Sorted Z.lt (map e_rank_in_vacancy
       (v_evidence (nth 1 (results (demo_resp true 2 2 0)) empty_item))).
Proof.
  assert (H : demo_search true 2 2 0 = Some (demo_resp true 2 2 0))
    by (vm_compute; reflexivity).
  assert (Hi : In (nth 1 (results (demo_resp true 2 2 0)) empty_item)
                 (results (demo_resp true 2 2 0)))
    by (vm_compute; right; left; reflexivity).
  split; [exact H|]. split; [exact Hi|].
  exact (evidence_ranks_increasing Q embed0 dist_q sim0 (@isort) (@isort_perm)
           (@isort_sorted) (demo_db true) "python developer" 2 2 250 0 800 true
           _ _ H Hi).
Defined.

Lemma ask_why_reasons_witness :
  let ai := nth 0 (ask_results demo_ask_resp) empty_ask_item in
  let w := nth 0 (a_why ai) empty_why in
  demo_ask = Some demo_ask_resp
  /\ In ai (ask_results demo_ask_resp) /\ In w (a_why ai)
  /\ why_items w <> []
  /\ ((why_type w = "query_match" /\ (List.length (why_items w) <= 10)%nat
       /\ forall x, In x (why_items w) ->
          In x (query_keywords (ask_summary demo_ask_resp))
          /\ exists c, In c (vacancy_chunks (demo_db true))
             /\ c_vacancy_id c = v_vacancy_id (a_item ai)
             /\ str_contains x (Text.str_lower (c_text c)) = true)
      \/ (why_type w = "tech_terms" /\ (List.length (why_items w) <= 12)%nat
          /\ NoDup (why_items w)
          /\ incl (why_items w) (map Text.pattern_term Text.TECH_PATTERNS))).
Proof.
  cbv zeta.
  assert (H : demo_ask = Some demo_ask_resp) by (vm_compute; reflexivity).
  assert (Hi : In (nth 0 (ask_results demo_ask_resp) empty_ask_item)
                 (ask_results demo_ask_resp))
    by (vm_compute; left; reflexivity).
  assert (Hw : In (nth 0 (a_why (nth 0 (ask_results demo_ask_resp) empty_ask_item)) empty_why)
                 (a_why (nth 0 (ask_results demo_ask_resp) empty_ask_item)))
    by (vm_compute; left; reflexivity).
  split; [exact H|]. split; [exact Hi|]. split; [exact Hw|].
  exact (ask_why_reasons Q embed0 dist_q sim0 (@isort) (@isort_perm)
           (demo_db true) "python developer" 2 2 250 0 800 true _ _ _ H Hi Hw).
Defined.

Lemma ask_summary_shape_witness :
  demo_ask = Some demo_ask_resp
  /\ (let s := ask_summary demo_ask_resp in
      query_keywords s = Keywords.extract_query_keywords "python developer" 12
      /\ (List.length (tech_signals s) <= 10)%nat /\ NoDup (tech_signals s)
      /\ incl (tech_signals s) (map Text.pattern_term Text.TECH_PATTERNS)
      /\ (sum_text s = summary_fallback <-> tech_signals s = [] /\ query_keywords s = [])).
Proof.
  assert (H : demo_ask = Some demo_ask_resp) by (vm_compute; reflexivity).
  split; [exact H|].
  exact (ask_summary_shape Q embed0 dist_q sim0 (@isort)
           (demo_db true) "python developer" 2 2 250 0 800 true _ H).
Defined.

Lemma tech_top_counts_witness :
  In ("python", 2%nat) (fst (market_tech_top (demo_db true) 5))
  /\ 2%nat = List.length (filter (fun c => existsb (String.eqb "python")
                (Text.extract_tech_terms (c_text c))) (vacancy_chunks (demo_db true)))
  /\ (1 <= 2)%nat.
Proof.
  assert (H : In ("python", 2%nat) (fst (market_tech_top (demo_db true) 5)))
    by (vm_compute; left; reflexivity).
  split; [exact H|].
  exact (tech_top_counts (demo_db true) 5 "python" 2 H).
Defined.

Lemma market_geo_rows_witness :
  market_geo (@isort) demo_area_col 2 = Some [(Some "Moscow", 2%Z); (None, 1%Z)]
  /\ (market_geo (@isort) demo_area_col 2 = None <-> (2 < 0 \/ BIGINT_MAX < 2)%Z)
  /\ (forall top, market_geo (@isort) demo_area_col 2 = Some top ->
      NoDup (map fst top) /\ Sorted (fun a b => snd b <= snd a)%Z top
      /\ (forall a n, In (a, n) top ->
          n = Z.of_nat (List.length (filter (opt_str_eqb a) demo_area_col)) /\ (1 <= n)%Z)
      /\ (forall a p, In a demo_area_col -> ~ In a (map fst top) -> In p top ->
          (Z.of_nat (List.length (filter (opt_str_eqb a) demo_area_col)) <= snd p)%Z)).
Proof.
  split; [vm_compute; reflexivity|].
  exact (market_geo_rows (@isort) (@isort_perm) (@isort_sorted) demo_area_col 2).
Defined.

Lemma market_geo_total_witness :
  (Z.of_nat (List.length (uniq_by opt_str_eqb [] demo_area_col)) <= 3)%Z
  /\ (3 <= BIGINT_MAX)%Z
  /\ exists top, market_geo (@isort) demo_area_col 3 = Some top
     /\ fold_right Z.add 0%Z (map snd top) = Z.of_nat (List.length demo_area_col).
Proof.
  assert (H : (Z.of_nat (List.length (uniq_by opt_str_eqb [] demo_area_col)) <= 3)%Z)
    by (vm_compute; discriminate).
  assert (Hm : (3 <= BIGINT_MAX)%Z) by (unfold BIGINT_MAX; lia).
  split; [exact H|split; [exact Hm|]].
  exact (market_geo_total (@isort) (@isort_perm) demo_area_col 3 H Hm).
Defined.

Lemma market_employers_rows_witness :
  market_employers (@isort) demo_employer_col 5 = Some [("Acme", 2%Z); ("Beta", 1%Z)]
  /\ (market_employers (@isort) demo_employer_col 5 = None <-> (5 < 0 \/ BIGINT_MAX < 5)%Z)
  /\ (forall top, market_employers (@isort) demo_employer_col 5 = Some top ->
      NoDup (map fst top) /\ Sorted (fun a b => snd b <= snd a)%Z top
      /\ (forall e n, In (e, n) top ->
          e <> "" /\ n = Z.of_nat (List.length (filter (opt_str_eqb (Some e)) demo_employer_col))
          /\ (1 <= n)%Z)
      /\ (forall e p, In (Some e) demo_employer_col -> e <> "" ->
          ~ In e (map fst top) -> In p top ->
          (Z.of_nat (List.length (filter (opt_str_eqb (Some e)) demo_employer_col))
           <= snd p)%Z)).
Proof.
  split; [vm_compute; reflexivity|].
  exact (market_employers_rows (@isort) (@isort_perm) (@isort_sorted) demo_employer_col 5).
Defined.

End Retrieval.
